(** * Simple notes manager: database setup scripts

    A shallow embedding of [database/ensure_notes_schema.py] and
    [database/init_db.py], the properties their specification states,
    and further properties that the code of the two scripts shows.

    - Python strings are sequences of Unicode code points: a character is
      a code point in [N] and a string is a [list N].
    - [re.search] is a backtracking matcher over the atoms of the one
      pattern the scripts use, with greedy and lazy repetition, the two
      anchors of MULTILINE and the capture of group 1.
    - The scripts talk to the operating system and to SQLite.  Both are
      an explicit [world] (files by path, open connections by handle,
      the output streams) that the embedded code threads through a
      state-and-exception monad; what a script cannot change
      (permissions, [os.path.abspath], the clock, the installed
      programs) is a [host].
    - A file is a directory, a text file, a file that cannot be read, or
      a database; text files hold decoded text, and encoding errors on
      writing are not modelled.
    - The engine understands the SQL statements of the two scripts.  A
      database is the list of its tables, each with the text
      [sqlite_master] keeps and its rows; DDL runs in autocommit, INSERT
      opens a transaction that [commit] writes to the file and [close]
      drops.  Besides the failures the files decide (a location that
      cannot be written, a file that is not a database), any call of the
      engine may fail by a fault the world has in store for it.  A
      connection is open from [connect] until the script calls [close]:
      what the interpreter does with a connection nobody holds any more,
      and what the end of the process does, is not modelled. *)

From Stdlib Require Import ZArith NArith String Ascii Lia DecimalString.
From stdpp Require Import base option list gmap.

Local Open Scope N_scope.

(** ** Text *)

Abbreviation text := (list N).

(** A Rocq string literal read as a Python [str] (one code point per
    character of the literal). *)
Definition lit (s : string) : text :=
  List.map N_of_ascii (list_ascii_of_string s).

Definition LF : N := 10.
Definition CR : N := 13.

(** [str.isspace] on one character, which is also the class [\s] of the
    [re] module on [str] patterns. *)
Definition is_space (c : N) : bool :=
  ((9 <=? c) && (c <=? 13)) || ((28 <=? c) && (c <=? 32))
  || (c =? 133) || (c =? 160) || (c =? 5760)
  || ((8192 <=? c) && (c <=? 8202))
  || (c =? 8232) || (c =? 8233) || (c =? 8239) || (c =? 8287)
  || (c =? 12288).

(** The class [.] without DOTALL: anything but a line feed. *)
Definition dot (c : N) : bool := negb (c =? LF).

Fixpoint lstrip (s : text) : text :=
  match s with
  | c :: s' => if is_space c then lstrip s' else s
  | [] => []
  end.

(** [str.rstrip()]: the string without its longest suffix of whitespace. *)
Fixpoint rstrip (s : text) : text :=
  match s with
  | c :: s' => if is_space c && forallb is_space s' then [] else c :: rstrip s'
  | [] => []
  end.

(** [str.strip()] *)
Definition strip (s : text) : text := rstrip (lstrip s).

(** [s.lstrip('/')] *)
Fixpoint lstrip_char (c : N) (s : text) : text :=
  match s with
  | x :: s' => if x =? c then lstrip_char c s' else s
  | [] => []
  end.

(** The text after a prefix, when the string starts with it. *)
Fixpoint after_prefix (pre s : text) : option text :=
  match pre, s with
  | [], _ => Some s
  | p :: pre', x :: s' => if x =? p then after_prefix pre' s' else None
  | _ :: _, [] => None
  end.

Fixpoint contains (needle s : text) : bool :=
  match after_prefix needle s with
  | Some _ => true
  | None => match s with
            | _ :: s' => contains needle s'
            | [] => false
            end
  end.

(** [sep.join(parts)] *)
Fixpoint join (sep : text) (parts : list text) : text :=
  match parts with
  | [] => []
  | [p] => p
  | p :: ps => p ++ sep ++ join sep ps
  end.

(** A string literal that spans several source lines. *)
Definition block (ls : list text) : text := join [LF] ls.

(** [str(n)] for an integer. *)
Definition str_of_Z (z : Z) : text := lit (NilZero.string_of_int (Z.to_int z)).

(** ASCII lower case, for the names SQLite compares without case. *)
Definition lower (c : N) : N := if (65 <=? c) && (c <=? 90) then c + 32 else c.

(** ** The regular expression of the path resolver

    [re.search(r"^\s*#\s*File path:\s*(.+?)\s*$", text, flags=re.MULTILINE)]
    is run by a backtracking matcher.  Every repetition of the pattern is
    over a one-character class, so the pattern is a sequence of atoms. *)

Inductive atom :=
| Bol                            (* ^ with MULTILINE *)
| Eol                            (* $ with MULTILINE *)
| Chr (c : N)                    (* a literal character *)
| Star (p : N -> bool)           (* X*  greedy *)
| GroupPlusLazy (p : N -> bool).  (* (X+?)  capturing group, lazy *)

(** What the matcher knows of its position: the character before it
    ([None] at the start of the string) and the rest of the string. *)
Definition at_bol (prev : option N) : bool :=
  match prev with
  | None => true
  | Some c => c =? LF
  end.

Definition at_eol (s : text) : bool :=
  match s with
  | [] => true
  | c :: _ => c =? LF
  end.

(** A continuation receives the position and the capture of group 1 so
    far, and answers with the capture of the whole match. *)
Definition cont := option N -> text -> option text -> option (option text).

(** Greedy star: take one more character if possible, and only when the
    rest fails after that, stop here. *)
Fixpoint star_greedy (p : N -> bool) (k : cont)
    (prev : option N) (s : text) (cap : option text) : option (option text) :=
  match s with
  | c :: s' =>
      if p c then
        match star_greedy p k (Some c) s' cap with
        | Some r => Some r
        | None => k prev s cap
        end
      else k prev s cap
  | [] => k prev s cap
  end.

(** Lazy repetition inside the group, after its first character: try the
    rest of the pattern first, and take one more character only when it
    fails.  [acc] is the group's text so far, reversed. *)
Fixpoint plus_lazy (p : N -> bool) (k : cont)
    (acc : text) (prev : option N) (s : text) : option (option text) :=
  match k prev s (Some (rev acc)) with
  | Some r => Some r
  | None =>
      match s with
      | c :: s' => if p c then plus_lazy p k (c :: acc) (Some c) s' else None
      | [] => None
      end
  end.

Fixpoint match_here (pat : list atom) : cont :=
  match pat with
  | [] => fun _ _ cap => Some cap
  | Bol :: pat' => fun prev s cap =>
      if at_bol prev then match_here pat' prev s cap else None
  | Eol :: pat' => fun prev s cap =>
      if at_eol s then match_here pat' prev s cap else None
  | Chr c :: pat' => fun prev s cap =>
      match s with
      | x :: s' => if x =? c then match_here pat' (Some x) s' cap else None
      | [] => None
      end
  | Star p :: pat' => star_greedy p (match_here pat')
  | GroupPlusLazy p :: pat' => fun prev s cap =>
      match s with
      | x :: s' =>
          if p x then plus_lazy p (match_here pat') [x] (Some x) s' else None
      | [] => None
      end
  end.

(** [re.search]: the leftmost start at which the pattern matches, the end
    of the string included.  The answer is [m.group(1)] of the match. *)
Fixpoint re_search_from (pat : list atom) (prev : option N) (s : text)
    : option (option text) :=
  match match_here pat prev s None with
  | Some cap => Some cap
  | None =>
      match s with
      | c :: s' => re_search_from pat (Some c) s'
      | [] => None
      end
  end.

Definition re_search (pat : list atom) (s : text) : option (option text) :=
  re_search_from pat None s.

Definition marker : text := lit "File path:".

(** [^\s*#\s*File path:\s*(.+?)\s*$] *)
Definition file_path_re : list atom :=
  [Bol; Star is_space; Chr 35; Star is_space] ++ List.map Chr marker
  ++ [Star is_space; GroupPlusLazy dot; Star is_space; Eol].

(** ** Exceptions and the program monad *)

Inductive exn :=
| SqliteError (msg : text)     (* sqlite3.Error and its subclasses *)
| OSError (msg : text)         (* PermissionError, IsADirectoryError, ... *)
| ValueError (msg : text)      (* UnicodeDecodeError is one *)
| TypeError (msg : text)
| AttributeError (msg : text)
| SystemExit (code : Z).       (* raised by sys.exit *)

(** [str(e)] *)
Definition exn_str (e : exn) : text :=
  match e with
  | SqliteError m | OSError m | ValueError m | TypeError m | AttributeError m => m
  | SystemExit c => str_of_Z c
  end.

(** [except sqlite3.Error] *)
Definition is_sqlite_error (e : exn) : bool :=
  match e with SqliteError _ => true | _ => false end.

(** [except Exception]: everything but [SystemExit]. *)
Definition is_Exception (e : exn) : bool :=
  match e with SystemExit _ => false | _ => true end.

Inductive outcome (A : Type) :=
| Ok (a : A)
| Raise (e : exn).
Arguments Ok {A} a.
Arguments Raise {A} e.

(** ** The world: files, databases, connections, output *)

Inductive cell := CNull | CInt (z : Z) | CText (t : text).
Abbreviation row := (list cell).

Global Instance cell_eq_dec : EqDecision cell.
Proof. solve_decision. Defined.

(** A table as [sqlite_master] and the table itself hold it. *)
Record table := { t_name : text; t_sql : text; t_rows : list row }.

(** A database: its tables in the order of [sqlite_master].  Indexes,
    views and triggers are not modelled. *)
Abbreviation database := (list table).

(** Why a file that exists cannot be read as UTF-8 text. *)
Inductive read_error := PermissionDenied | NotUtf8.

Inductive node :=
| Dir
| TextFile (content : text)
| Unreadable (why : read_error)
| DbFile (d : database).

(** An open connection: the file it is on and, inside a transaction, the
    database as the connection sees it, not yet committed. *)
Record conn := { c_path : text; c_txn : option database }.

Record world := {
  w_fs     : gmap text node;        (* the file system, by path *)
  w_conns  : gmap nat conn;         (* open connections, by handle *)
  w_faults : list (option text);    (* engine faults to come, one entry per
                                       engine call: [Some msg] makes the
                                       call raise [sqlite3.Error(msg)] *)
  w_stdout : list text;             (* one entry per [print] *)
  w_stderr : list text }.

(** What the scripts cannot change: permissions, the current directory,
    the clock, the installed programs. *)
Record host := {
  h_readonly : text -> bool;   (* creating or writing a file there fails *)
  h_abspath  : text -> text;   (* os.path.abspath *)
  h_now      : text;           (* CURRENT_TIMESTAMP *)
  h_which    : option Z }.     (* returncode of [which sqlite3]; [None] when
                                  the program cannot be started *)

Definition set_fs (f : gmap text node) (w : world) : world :=
  {| w_fs := f; w_conns := w_conns w; w_faults := w_faults w;
     w_stdout := w_stdout w; w_stderr := w_stderr w |}.
Definition set_conns (c : gmap nat conn) (w : world) : world :=
  {| w_fs := w_fs w; w_conns := c; w_faults := w_faults w;
     w_stdout := w_stdout w; w_stderr := w_stderr w |}.
Definition set_faults (f : list (option text)) (w : world) : world :=
  {| w_fs := w_fs w; w_conns := w_conns w; w_faults := f;
     w_stdout := w_stdout w; w_stderr := w_stderr w |}.
Definition set_stdout (o : list text) (w : world) : world :=
  {| w_fs := w_fs w; w_conns := w_conns w; w_faults := w_faults w;
     w_stdout := o; w_stderr := w_stderr w |}.
Definition set_stderr (o : list text) (w : world) : world :=
  {| w_fs := w_fs w; w_conns := w_conns w; w_faults := w_faults w;
     w_stdout := w_stdout w; w_stderr := o |}.

Definition M (A : Type) : Type := world -> outcome A * world.

Definition ret {A} (a : A) : M A := fun w => (Ok a, w).
Definition raise {A} (e : exn) : M A := fun w => (Raise e, w).
Definition bind {A B} (m : M A) (k : A -> M B) : M B := fun w =>
  match m w with
  | (Ok a, w') => k a w'
  | (Raise e, w') => (Raise e, w')
  end.

Declare Scope prog_scope.
Delimit Scope prog_scope with prog.
Notation "x <- m ;; k" := (bind m (fun x => k))
  (at level 100, m at next level, k at level 200, right associativity) : prog_scope.
Notation "m ;;; k" := (bind m (fun _ => k))
  (at level 100, k at level 200, right associativity) : prog_scope.
Local Open Scope prog_scope.

(** [try: body except <class> as e: handler e] *)
Definition try_except {A} (body : M A) (catches : exn -> bool) (handler : exn -> M A) : M A :=
  fun w =>
    match body w with
    | (Ok a, w') => (Ok a, w')
    | (Raise e, w') => if catches e then handler e w' else (Raise e, w')
    end.

(** [try: body finally: cleanup] *)
Definition try_finally {A} (body : M A) (cleanup : M unit) : M A :=
  fun w =>
    match body w with
    | (r, w') =>
        match cleanup w' with
        | (Ok _, w'') => (r, w'')
        | (Raise e, w'') => (Raise e, w'')
        end
    end.

(** [for x in l: body x] *)
Fixpoint for_each {A} (l : list A) (body : A -> M unit) : M unit :=
  match l with
  | [] => ret tt
  | x :: l' => body x ;;; for_each l' body
  end.

(** [print(s)] and [print(s, file=sys.stderr)] *)
Definition print (s : text) : M unit := fun w =>
  (Ok tt, set_stdout (w_stdout w ++ [s]) w).
Definition print_err (s : text) : M unit := fun w =>
  (Ok tt, set_stderr (w_stderr w ++ [s]) w).

(** How a run of a script ends: the exit status of the process.  An
    exception nobody caught prints a traceback and gives status 1. *)
Definition exit_status {A} (r : outcome A) : Z :=
  match r with
  | Ok _ => 0
  | Raise (SystemExit c) => c
  | Raise _ => 1
  end.

(** ** SQL as the engine understands it

    The scripts send SQL text.  The engine recognises the statements of
    the two scripts and rejects any other text. *)

Inductive stmt :=
| CreateTableIfNotExists (name stored_sql : text) (autoincrement : bool)
| InsertOrReplaceAppInfo     (* INSERT OR REPLACE INTO app_info (key, value) VALUES (?, ?) *)
| SelectOne                  (* SELECT 1 *)
| SelectCountUserTables      (* the count of sqlite_master's user tables *)
| SelectCount (tbl : text).  (* the count of the rows of tbl *)

(** The words of a text: its maximal runs without whitespace. *)
Fixpoint words_from (cur : text) (s : text) : list text :=
  match s with
  | [] => match cur with [] => [] | _ => [rev cur] end
  | c :: s' =>
      if is_space c
      then match cur with [] => words_from [] s' | _ => rev cur :: words_from [] s' end
      else words_from (c :: cur) s'
  end.
Definition words (s : text) : list text := words_from [] s.

(** The text after the first [n] words. *)
Fixpoint drop_nonspace (s : text) : text :=
  match s with
  | c :: s' => if is_space c then s else drop_nonspace s'
  | [] => []
  end.
Fixpoint drop_words (n : nat) (s : text) : text :=
  match n with
  | O => lstrip s
  | S n' => drop_words n' (drop_nonspace (lstrip s))
  end.

Definition sql_select_one : text := lit "SELECT 1".
(** The text [COUNT] followed by a parenthesised star. *)
Definition count_star : text := lit "COUNT(" ++ [42; 41].
Definition sql_count_tables : text :=
  lit "SELECT " ++ count_star
  ++ lit " FROM sqlite_master WHERE type='table' AND name NOT LIKE 'sqlite_%'".
Definition sql_count_app_info : text :=
  lit "SELECT " ++ count_star ++ lit " FROM app_info".
Definition sql_insert_app_info : text :=
  lit "INSERT OR REPLACE INTO app_info (key, value) VALUES (?, ?)".

(** The statement a text stands for.  Of a CREATE TABLE statement SQLite
    keeps in [sqlite_master] the text from the table name on, after the
    words CREATE TABLE. *)
Definition parse_sql (sql : text) : option stmt :=
  let ws := words sql in
  if bool_decide (ws = words sql_select_one) then Some SelectOne
  else if bool_decide (ws = words sql_count_tables) then Some SelectCountUserTables
  else if bool_decide (ws = words sql_insert_app_info) then Some InsertOrReplaceAppInfo
  else if bool_decide (take 3 ws = [lit "SELECT"; count_star; lit "FROM"])
          && bool_decide (length ws = 4%nat)
       then SelectCount <$> last ws
  else if bool_decide (take 5 ws = words (lit "CREATE TABLE IF NOT EXISTS"))
          && bool_decide (ws !! 6%nat = Some (lit "("))
       then
         name ← ws !! 5%nat;
         Some (CreateTableIfNotExists name
                 (lit "CREATE TABLE " ++ rstrip (drop_words 5 sql))
                 (contains (lit "AUTOINCREMENT") sql))
  else None.

(** ** The engine on a database *)

Definition name_eqb (a b : text) : bool :=
  bool_decide (List.map lower a = List.map lower b).

Definition find_table (name : text) (d : database) : option table :=
  List.find (fun t => name_eqb (t_name t) name) d.

Definition sqlite_sequence : text := lit "sqlite_sequence".

(** [name LIKE 'sqlite_%']: [_] stands for one character, [%] for any
    text, and letters match without case. *)
Definition like_sqlite_ (name : text) : bool :=
  bool_decide (List.map lower (take 6 name) = lit "sqlite")
  && bool_decide (7 ≤ length name)%nat.

Definition count_user_tables (d : database) : Z :=
  Z.of_nat (length (List.filter (fun t => negb (like_sqlite_ (t_name t))) d)).

(** A table made with AUTOINCREMENT brings [sqlite_sequence] with it. *)
Definition create_table (name sql : text) (autoincrement : bool) (d : database) : database :=
  d ++ [{| t_name := name; t_sql := sql; t_rows := [] |}]
    ++ (if autoincrement
        then match find_table sqlite_sequence d with
             | Some _ => []
             | None => [{| t_name := sqlite_sequence;
                           t_sql := lit "CREATE TABLE sqlite_sequence(name,seq)";
                           t_rows := [] |}]
             end
        else []).

Definition set_rows (name : text) (rows : list row) (d : database) : database :=
  List.map (fun t => if name_eqb (t_name t) name
                     then {| t_name := t_name t; t_sql := t_sql t; t_rows := rows |}
                     else t) d.

Definition row_id (r : row) : Z :=
  match r !! 0%nat with Some (CInt z) => z | _ => 0%Z end.

Definition max_id (rows : list row) : Z :=
  List.fold_right (fun r m => Z.max (row_id r) m) 0%Z rows.

(** The largest id ever given in a table, as [sqlite_sequence] records it. *)
Definition seq_get (name : text) (d : database) : Z :=
  match find_table sqlite_sequence d with
  | Some t =>
      match List.find (fun r => bool_decide (r !! 0%nat = Some (CText name))) (t_rows t) with
      | Some [_; CInt z] => z
      | _ => 0%Z
      end
  | None => 0%Z
  end.

(** The engine rewrites the row of a table in [sqlite_sequence] where it
    is (the first one, should the name be there twice); a table without a
    row gets one after the others. *)
Fixpoint put_seq_row (name : text) (z : Z) (rows : list row) : list row :=
  match rows with
  | [] => [[CText name; CInt z]]
  | r :: rows' =>
      if bool_decide (r !! 0%nat = Some (CText name))
      then [CText name; CInt z] :: rows'
      else r :: put_seq_row name z rows'
  end.

Definition seq_put (name : text) (z : Z) (d : database) : database :=
  match find_table sqlite_sequence d with
  | Some t => set_rows sqlite_sequence (put_seq_row name z (t_rows t)) d
  | None => d
  end.

Definition app_info : text := lit "app_info".

(** The largest rowid of SQLite, a signed integer of 64 bits.  A table
    made with AUTOINCREMENT that has given it out takes no further row. *)
Definition max_rowid : Z := 9223372036854775807.

(** The rows of [app_info] are [id, key, value, created_at], as its
    DDL in [init_db.py] declares them; [key] is UNIQUE.  INSERT OR REPLACE
    deletes the rows in conflict on [key] and inserts the new row under
    the next id.  The engine of this development takes a table named
    [app_info] for the one [init_db.py] declares: what SQLite does with
    the INSERT of the script on a table of that name declared otherwise
    depends on that declaration, and is not modelled. *)
Definition row_key (r : row) : option cell := r !! 1%nat.

Definition insert_or_replace (now : text) (k v : cell) (rows : list row) (d : database) : database :=
  let id := (1 + Z.max (seq_get app_info d) (max_id rows))%Z in
  seq_put app_info id
    (set_rows app_info
       (List.filter (fun r => negb (bool_decide (row_key r = Some k))) rows
          ++ [[CInt id; k; v; CText now]]) d).

(** One statement on a database: an error message, or the database when
    the statement changed it, and the rows of the result. *)
Definition exec_stmt (now : text) (st : stmt) (params : list cell) (d : database)
    : text + (option database * list row) :=
  match st with
  | CreateTableIfNotExists name sql autoinc =>
      match find_table name d with
      | Some _ => inr (None, [])
      | None => inr (Some (create_table name sql autoinc d), [])
      end
  | InsertOrReplaceAppInfo =>
      match find_table app_info d, params with
      | Some t, [k; v] =>
          if (max_rowid <=? Z.max (seq_get app_info d) (max_id (t_rows t)))%Z
          then inl (lit "database or disk is full")
          else inr (Some (insert_or_replace now k v (t_rows t) d), [])
      | Some _, _ => inl (lit "Incorrect number of bindings supplied.")
      | None, _ => inl (lit "no such table: app_info")
      end
  | SelectOne => inr (None, [[CInt 1]])
  | SelectCountUserTables => inr (None, [[CInt (count_user_tables d)]])
  | SelectCount tbl =>
      match find_table tbl d with
      | Some t => inr (None, [[CInt (Z.of_nat (length (t_rows t)))]])
      | None => inl (lit "no such table: " ++ tbl)
      end
  end.

(** [SELECT 1] names no table and runs without a look at the file. *)
Definition reads_file (st : stmt) : bool :=
  match st with SelectOne => false | _ => true end.

(** Data-manipulation statements open a transaction; the [sqlite3] module
    leaves DDL outside one in autocommit. *)
Definition is_dml (st : stmt) : bool :=
  match st with InsertOrReplaceAppInfo => true | _ => false end.

(** ** The operating system and the [sqlite3] module *)

(** Python reads text files with universal newlines: a carriage return,
    alone or before a line feed, is read as one line feed. *)
Fixpoint universal_newlines (s : text) : text :=
  match s with
  | [] => []
  | c :: s' =>
      if c =? CR
      then LF :: match s' with
                 | c' :: s'' => if c' =? LF then universal_newlines s'' else universal_newlines s'
                 | [] => []
                 end
      else c :: universal_newlines s'
  end.

(** [os.path.basename] *)
Fixpoint basename_from (cur : text) (s : text) : text :=
  match s with
  | [] => rev cur
  | c :: s' => if c =? 47 then basename_from [] s' else basename_from (c :: cur) s'
  end.
Definition basename (s : text) : text := basename_from [] s.

Section Host.

Variable H : host.

(** [os.path.exists] *)
Definition os_path_exists (p : text) : M bool := fun w =>
  (Ok (match w_fs w !! p with Some _ => true | None => false end), w).

(** [with open(p, "r", encoding="utf-8") as f: text = f.read()] *)
Definition read_text (p : text) : M text := fun w =>
  match w_fs w !! p with
  | Some (TextFile t) => (Ok (universal_newlines t), w)
  | Some (Unreadable PermissionDenied) => (Raise (OSError (lit "Permission denied")), w)
  | Some (Unreadable NotUtf8) => (Raise (ValueError (lit "'utf-8' codec can't decode")), w)
  | Some (DbFile _) => (Raise (ValueError (lit "'utf-8' codec can't decode")), w)
  | Some Dir => (Raise (OSError (lit "Is a directory")), w)
  | None => (Raise (OSError (lit "No such file or directory")), w)
  end.

(** [open(p, "w", encoding="utf-8")]: the file is created or emptied.
    The message of an [OSError] is its reason alone, without the number
    of the error and the name of the file that [str(e)] puts around it. *)
Definition open_w (p : text) : M unit := fun w =>
  if h_readonly H p then (Raise (OSError (lit "Permission denied")), w)
  else match w_fs w !! p with
       | Some Dir => (Raise (OSError (lit "Is a directory")), w)
       | _ => (Ok tt, set_fs (<[p := TextFile []]> (w_fs w)) w)
       end.

(** [f.write(s)] on the file opened at [p] *)
Definition f_write (p : text) (s : text) : M unit := fun w =>
  match w_fs w !! p with
  | Some (TextFile t) => (Ok tt, set_fs (<[p := TextFile (t ++ s)]> (w_fs w)) w)
  | _ => (Raise (ValueError (lit "I/O operation on closed file.")), w)
  end.

(** [os.makedirs(p, exist_ok=True)] *)
Definition os_makedirs (p : text) : M unit := fun w =>
  match w_fs w !! p with
  | Some Dir => (Ok tt, w)
  | Some _ => (Raise (OSError (lit "File exists")), w)
  | None =>
      if h_readonly H p then (Raise (OSError (lit "Permission denied")), w)
      else (Ok tt, set_fs (<[p := Dir]> (w_fs w)) w)
  end.

(** [subprocess.run(["which", "sqlite3"], ...).returncode] *)
Definition subprocess_run_which : M Z := fun w =>
  match h_which H with
  | Some rc => (Ok rc, w)
  | None => (Raise (OSError (lit "No such file or directory: 'which'")), w)
  end.

(** Every call of the engine may fail for reasons of its own (a lock held
    by another process, a full disk): it takes the next entry of
    [w_faults]. *)
Definition engine_fault : M unit := fun w =>
  match w_faults w with
  | Some msg :: fs => (Raise (SqliteError msg), set_faults fs w)
  | None :: fs => (Ok tt, set_faults fs w)
  | [] => (Ok tt, w)
  end.

Definition new_conn (p : text) : M nat := fun w =>
  let h := fresh (dom (w_conns w)) in
  (Ok h, set_conns (<[h := {| c_path := p; c_txn := None |}]> (w_conns w)) w).

(** [sqlite3.connect(p)] on a path that names a file: a missing file is
    created, empty.  The two names the engine keeps for a private
    database (the empty name and [:memory:]) are taken for file names
    like any other here; the properties that would depend on it are
    stated for paths with [file_name]. *)
Definition sqlite3_connect (p : text) : M nat :=
  engine_fault ;;;
  fun w =>
    match w_fs w !! p with
    | Some (DbFile _) | Some (TextFile _) => new_conn p w
    | Some Dir | Some (Unreadable _) =>
        (Raise (SqliteError (lit "unable to open database file")), w)
    | None =>
        if h_readonly H p
        then (Raise (SqliteError (lit "unable to open database file")), w)
        else new_conn p (set_fs (<[p := DbFile []]> (w_fs w)) w)
    end.

(** [conn.execute(sql, params)] and [cursor.execute(sql, params)]; the
    answer is the rows the cursor then holds.  A file of zero bytes,
    which SQLite takes for an empty database, is a [TextFile []] here
    and no database; the properties that would depend on it leave that
    file out. *)
Definition conn_execute (h : nat) (sql : text) (params : list cell) : M (list row) :=
  engine_fault ;;;
  fun w =>
    match w_conns w !! h with
    | None => (Raise (SqliteError (lit "Cannot operate on a closed database.")), w)
    | Some c =>
        match parse_sql sql with
        | None => (Raise (SqliteError (lit "syntax error")), w)
        | Some st =>
            if negb (reads_file st) then (Ok [[CInt 1]], w) else
            match w_fs w !! c_path c with
            | Some (DbFile d0) =>
                match exec_stmt (h_now H) st params (default d0 (c_txn c)) with
                | inl msg => (Raise (SqliteError msg), w)
                | inr (None, rows) => (Ok rows, w)
                | inr (Some d', rows) =>
                    if h_readonly H (c_path c)
                    then (Raise (SqliteError (lit "attempt to write a readonly database")), w)
                    else if is_dml st || bool_decide (is_Some (c_txn c))
                    then (Ok rows,
                          set_conns (<[h := {| c_path := c_path c; c_txn := Some d' |}]>
                                       (w_conns w)) w)
                    else (Ok rows, set_fs (<[c_path c := DbFile d']> (w_fs w)) w)
                end
            | _ => (Raise (SqliteError (lit "file is not a database")), w)
            end
        end
    end.

(** [conn.commit()] *)
Definition conn_commit (h : nat) : M unit :=
  engine_fault ;;;
  fun w =>
    match w_conns w !! h with
    | None => (Raise (SqliteError (lit "Cannot operate on a closed database.")), w)
    | Some c =>
        match c_txn c with
        | Some d' =>
            (Ok tt,
             set_conns (<[h := {| c_path := c_path c; c_txn := None |}]> (w_conns w))
               (set_fs (<[c_path c := DbFile d']> (w_fs w)) w))
        | None => (Ok tt, w)
        end
    end.

(** [conn.close()]: what was not committed is lost. *)
Definition conn_close (h : nat) : M unit := fun w =>
  (Ok tt, set_conns (delete h (w_conns w)) w).

(** [cursor.fetchone()[0]] *)
Definition fetchone_0 (rows : list row) : M cell :=
  match rows with
  | (c :: _) :: _ => ret c
  | _ => raise (TypeError (lit "'NoneType' object is not subscriptable"))
  end.

(** How an f-string shows a value. *)
Definition cell_str (c : cell) : text :=
  match c with
  | CNull => lit "None"
  | CInt z => str_of_Z z
  | CText t => t
  end.

End Host.

(** ** [database/ensure_notes_schema.py] *)

Module EnsureNotesSchema.
Section Script.

Variable H : host.

Definition _get_db_path_from_connection_file (connection_file : text) : M text :=
  let default := lit "myapp.db" in
  ex <- os_path_exists connection_file ;;
  if negb ex then ret default
  else
    text <- read_text connection_file ;;
    match re_search file_path_re text with
    | Some (Some g) => ret (strip g)
    | Some None => raise (AttributeError (lit "'NoneType' object has no attribute 'strip'"))
    | None => ret default
    end.

Definition ddl_statements : list text :=
  [ strip (block
      [ [];
        lit "        CREATE TABLE IF NOT EXISTS notes (";
        lit "            id INTEGER PRIMARY KEY AUTOINCREMENT,";
        lit "            title TEXT NOT NULL,";
        lit "            content TEXT NOT NULL,";
        lit "            created_at TEXT NOT NULL DEFAULT (datetime('now')),";
        lit "            updated_at TEXT NOT NULL DEFAULT (datetime('now'))";
        lit "        )";
        lit "        " ]) ].

(** [cur = conn.cursor()] makes a cursor on the connection and changes
    nothing; the statements run on the connection's handle. *)
Definition ensure_notes_schema (db_path : text) : M unit :=
  conn <- sqlite3_connect H db_path ;;
  try_finally
    (for_each ddl_statements (fun ddl => _ <- conn_execute H conn ddl [] ;; ret tt) ;;;
     conn_commit conn)
    (conn_close conn).

Definition main : M unit :=
  db_path <- _get_db_path_from_connection_file (lit "db_connection.txt") ;;
  print (lit "Using SQLite DB: " ++ db_path) ;;;
  try_except
    (ensure_notes_schema db_path ;;;
     print ([10003] ++ lit " notes schema ensured"))
    is_sqlite_error
    (fun e =>
       print_err ([10007] ++ lit " failed to ensure notes schema: " ++ exn_str e) ;;;
       raise (SystemExit 1)).

End Script.
End EnsureNotesSchema.

(** ** [database/init_db.py] *)

Module InitDb.
Section Script.

Variable H : host.

Definition DB_NAME : text := lit "myapp.db".

Definition _get_db_path_from_connection_file (connection_file : text) : M text :=
  ex <- os_path_exists connection_file ;;
  if negb ex then ret DB_NAME
  else
    r <- try_except
           (text <- read_text connection_file ;;
            ret (Some text))
           is_Exception
           (fun _ => ret None) ;;
    match r with
    | None => ret DB_NAME
    | Some text =>
        match re_search file_path_re text with
        | Some (Some g) => ret (strip g)
        | Some None => raise (AttributeError (lit "'NoneType' object has no attribute 'strip'"))
        | None => ret DB_NAME
        end
    end.

Definition app_info_ddl : text :=
  block
    [ [];
      lit "    CREATE TABLE IF NOT EXISTS app_info (";
      lit "        id INTEGER PRIMARY KEY AUTOINCREMENT,";
      lit "        key TEXT UNIQUE NOT NULL,";
      lit "        value TEXT,";
      lit "        created_at TIMESTAMP DEFAULT CURRENT_TIMESTAMP";
      lit "    )";
      [] ].

Definition users_ddl : text :=
  block
    [ [];
      lit "    CREATE TABLE IF NOT EXISTS users (";
      lit "        id INTEGER PRIMARY KEY AUTOINCREMENT,";
      lit "        username TEXT UNIQUE NOT NULL,";
      lit "        email TEXT UNIQUE NOT NULL,";
      lit "        created_at TIMESTAMP DEFAULT CURRENT_TIMESTAMP";
      lit "    )";
      [] ].

Definition notes_ddl : text :=
  block
    [ [];
      lit "    CREATE TABLE IF NOT EXISTS notes (";
      lit "        id INTEGER PRIMARY KEY AUTOINCREMENT,";
      lit "        title TEXT NOT NULL,";
      lit "        content TEXT NOT NULL,";
      lit "        created_at TEXT NOT NULL DEFAULT (datetime('now')),";
      lit "        updated_at TEXT NOT NULL DEFAULT (datetime('now'))";
      lit "    )";
      [] ].

(** The rows the script seeds [app_info] with, in its order. *)
Definition seed (key value : text) : list cell := [CText key; CText value].

(** The module body, a part at a time.  Lines 41 to 53: the check of a
    database that is already there. *)
Definition check_existing (db_path : text) : M unit :=
  db_exists <- os_path_exists db_path ;;
  if db_exists then
    print (lit "SQLite database already exists at " ++ db_path) ;;;
    try_except
      (conn <- sqlite3_connect H db_path ;;
       _ <- conn_execute H conn sql_select_one [] ;;
       conn_close conn ;;;
       print (lit "Database is accessible and working."))
      is_Exception
      (fun e => print (lit "Warning: Database exists but may be corrupted: " ++ exn_str e))
  else
    print (lit "Creating new SQLite database at " ++ db_path ++ lit "...").

(** Lines 56 to 125: schema, seed rows, commit, statistics.  The answer
    is [(table_count, record_count)]. *)
Definition create_and_seed (db_path : text) : M (cell * cell) :=
  conn <- sqlite3_connect H db_path ;;
  let cursor := conn in
  _ <- conn_execute H cursor app_info_ddl [] ;;
  _ <- conn_execute H cursor users_ddl [] ;;
  _ <- conn_execute H cursor notes_ddl [] ;;
  _ <- conn_execute H cursor sql_insert_app_info (seed (lit "project_name") (lit "database")) ;;
  _ <- conn_execute H cursor sql_insert_app_info (seed (lit "version") (lit "0.1.0")) ;;
  _ <- conn_execute H cursor sql_insert_app_info (seed (lit "author") (lit "John Doe")) ;;
  _ <- conn_execute H cursor sql_insert_app_info (seed (lit "description") []) ;;
  conn_commit conn ;;;
  rows <- conn_execute H cursor sql_count_tables [] ;;
  table_count <- fetchone_0 rows ;;
  rows <- conn_execute H cursor sql_count_app_info [] ;;
  record_count <- fetchone_0 rows ;;
  conn_close conn ;;;
  ret (table_count, record_count).

(** Lines 131 to 140: the connection-info file. *)
Definition save_connection_info (db_abs_path connection_string : text) : M unit :=
  try_except
    (let f := lit "db_connection.txt" in
     open_w H f ;;;
     f_write f (lit "# SQLite connection methods:" ++ [LF]) ;;;
     f_write f (lit "# Python: sqlite3.connect('myapp.db')" ++ [LF]) ;;;
     f_write f (lit "# Connection string: " ++ connection_string ++ [LF]) ;;;
     f_write f (lit "# File path: " ++ db_abs_path ++ [LF]) ;;;
     print (lit "Connection information saved to db_connection.txt"))
    is_Exception
    (fun e => print (lit "Warning: Could not save connection info: " ++ exn_str e)).

(** Lines 143 to 152: the environment file of the viewer. *)
Definition make_visualizer_dir : M unit :=
  ex <- os_path_exists (lit "db_visualizer") ;;
  if negb ex then
    os_makedirs H (lit "db_visualizer") ;;;
    print (lit "Created db_visualizer directory")
  else ret tt.

Definition save_env_file (db_abs_path : text) : M unit :=
  try_except
    (let f := lit "db_visualizer/sqlite.env" in
     open_w H f ;;;
     f_write f (lit "export SQLITE_DB=" ++ [34] ++ db_abs_path ++ [34; LF]) ;;;
     print (lit "Environment variables saved to db_visualizer/sqlite.env"))
    is_Exception
    (fun e => print (lit "Warning: Could not save environment variables: " ++ exn_str e)).

(** Lines 154 to 166: the summary. *)
Definition print_summary (db_abs_path connection_string : text)
    (table_count record_count : cell) : M unit :=
  print ([LF] ++ lit "SQLite setup complete!") ;;;
  print (lit "Database: " ++ basename db_abs_path) ;;;
  print (lit "Location: " ++ db_abs_path) ;;;
  print [] ;;;
  print (lit "To use with Node.js viewer, run: source db_visualizer/sqlite.env") ;;;
  print ([LF] ++ lit "To connect to the database, use one of the following methods:") ;;;
  print (lit "1. Python: sqlite3.connect('myapp.db')  # if running from this directory") ;;;
  print (lit "2. Connection string: " ++ connection_string) ;;;
  print (lit "3. Direct file access: " ++ db_abs_path) ;;;
  print [] ;;;
  print (lit "Database statistics:") ;;;
  print (lit "  Tables: " ++ cell_str table_count) ;;;
  print (lit "  App info records: " ++ cell_str record_count).

(** Lines 169 to 178: the hint on the command-line client. *)
Definition cli_hint (db_abs_path : text) : M unit :=
  try_except
    (returncode <- subprocess_run_which H ;;
     if (returncode =? 0)%Z then
       print [] ;;;
       print (lit "SQLite CLI is available. You can also use:") ;;;
       print (lit "  sqlite3 " ++ db_abs_path)
     else ret tt)
    is_Exception
    (fun _ => ret tt).

(** The module body. *)
Definition script : M unit :=
  print (lit "Starting SQLite setup...") ;;;
  db_path <- _get_db_path_from_connection_file (lit "db_connection.txt") ;;
  check_existing db_path ;;;
  stats <- create_and_seed db_path ;;
  let '(table_count, record_count) := stats in
  let db_abs_path := h_abspath H db_path in
  let connection_string := lit "sqlite:////" ++ lstrip_char 47 db_abs_path in
  save_connection_info db_abs_path connection_string ;;;
  make_visualizer_dir ;;;
  save_env_file db_abs_path ;;;
  print_summary db_abs_path connection_string table_count record_count ;;;
  cli_hint db_abs_path ;;;
  print ([LF] ++ lit "Script completed successfully.").

End Script.
End InitDb.

(** What a run of a script gives: the exit status and the world after,
    as the script leaves it; the traceback the interpreter writes for an
    exception nobody caught is not added to [w_stderr]. *)
Definition run (m : M unit) (w : world) : Z * world :=
  let '(r, w') := m w in (exit_status r, w').

Definition empty_world : world :=
  {| w_fs := ∅; w_conns := ∅; w_faults := []; w_stdout := []; w_stderr := [] |}.

Definition plain_host : host :=
  {| h_readonly := fun _ => false;
     h_abspath := fun p => lit "/srv/app/" ++ p;
     h_now := lit "2024-01-01 00:00:00";
     h_which := Some 0%Z |}.

(** ** What the specification says of the path resolver

    The definitions of this part follow the words of the specification,
    not the code: the resolver looks at the file a line at a time. *)

(** The lines of a text, a line feed between two of them. *)
Fixpoint split_lines (s : text) : list text :=
  match s with
  | [] => [[]]
  | c :: s' =>
      if c =? LF then [] :: split_lines s'
      else match split_lines s' with
           | l :: ls => (c :: l) :: ls
           | [] => [[c]]
           end
  end.

(** A line matches [# File path: <value>] when, whitespace aside, it is a
    [#], the words [File path:] and a value; its value is the rest of
    the line, trimmed. *)
Definition spec_line_value (l : text) : option text :=
  match lstrip l with
  | c :: r =>
      if c =? 35 then
        match after_prefix marker (lstrip r) with
        | Some v => match strip v with [] => None | _ => Some (strip v) end
        | None => None
        end
      else None
  | [] => None
  end.

Fixpoint first_some {A B} (f : A -> option B) (l : list A) : option B :=
  match l with
  | [] => None
  | x :: l' => match f x with Some y => Some y | None => first_some f l' end
  end.

(** The resolver of the specification, on the text of the file ([None]
    when there is no file): the value of the first matching line, and
    the fixed default name without one. *)
Definition spec_resolve (file : option text) : text :=
  match file with
  | None => lit "myapp.db"
  | Some t => default (lit "myapp.db") (first_some spec_line_value (split_lines t))
  end.

(** A line that starts the marker and stops before the value: a lone [#],
    or [# File path:] with nothing after it, whitespace aside. *)
Definition dangling_marker (l : text) : bool :=
  match lstrip l with
  | c :: r =>
      (c =? 35)
      && match lstrip r with
         | [] => true
         | r' => match after_prefix marker r' with
                 | Some v => match lstrip v with [] => true | _ => false end
                 | None => false
                 end
         end
  | [] => false
  end.

Definition no_dangling_marker (file : option text) : Prop :=
  match file with
  | None => True
  | Some t => Forall (fun l => dangling_marker l = false) (split_lines t)
  end.

(** ** Notions used in the proofs *)

(** The database a connection works on: its transaction when it has one,
    the file otherwise. *)
Definition view (w : world) (h : nat) : option database :=
  match w_conns w !! h with
  | Some c =>
      match c_txn c with
      | Some d => Some d
      | None => match w_fs w !! c_path c with
                | Some (DbFile d) => Some d
                | _ => None
                end
      end
  | None => None
  end.

(** The database in the file at a path. *)
Definition file_db (w : world) (p : text) : option database :=
  match w_fs w !! p with
  | Some (DbFile d) => Some d
  | _ => None
  end.

Definition has_table (name : text) (od : option database) : Prop :=
  exists d t, od = Some d /\ find_table name d = Some t.

Definition notes : text := lit "notes".

(** What [sqlite_master] keeps of a CREATE TABLE IF NOT EXISTS statement. *)
Definition stored_sql (ddl : text) : text :=
  lit "CREATE TABLE " ++ rstrip (drop_words 5 ddl).

(** A world after a connection is closed. *)
Definition closed (h : nat) (w : world) : world :=
  set_conns (delete h (w_conns w)) w.

(** [n] runs of a script, one after the other, each in a process of its
    own: the outcomes of the runs and the world at the end. *)
Fixpoint run_times (n : nat) (m : M unit) (w : world) : list (outcome unit) * world :=
  match n with
  | O => ([], w)
  | S n' =>
      let '(r, w1) := m w in
      let '(rs, w2) := run_times n' m w1 in
      (r :: rs, w2)
  end.

(** The file an open connection is on. *)
Definition conn_path (w : world) (h : nat) : option text :=
  c_path <$> (w_conns w !! h).

(** The group of a pattern is set once a match is found. *)
Definition keeps_capture (k : cont) : Prop :=
  forall p s c, k p s (Some c) <> Some None.

Definition always_captures (k : cont) : Prop :=
  forall p s cap, k p s cap <> Some None.

Definition is_group (a : atom) : bool :=
  match a with GroupPlusLazy _ => true | _ => false end.

Definition sidecar : text := lit "db_connection.txt".

(** The answer of both resolvers on the text they read. *)
Definition resolve_text (t : text) : text :=
  match re_search file_path_re t with
  | Some (Some g) => strip g
  | _ => lit "myapp.db"
  end.

(** A continuation that does not look at the character before it. *)
Definition prev_indep (k : cont) : Prop :=
  forall p1 p2 s cap, k p1 s cap = k p2 s cap.

Definition not_bol (a : atom) : bool :=
  match a with Bol => false | _ => true end.

(** The rest of the line is blank. *)
Fixpoint blank_to_eol (t : text) : bool :=
  match t with
  | [] => true
  | c :: t' => (c =? LF) || (is_space c && blank_to_eol t')
  end.

(** What the lazy group takes: up to where the rest of the line is blank. *)
Fixpoint lazy_take (t : text) : text :=
  match t with
  | [] => []
  | c :: t' => if blank_to_eol t then [] else c :: lazy_take t'
  end.

Definition value_re : list atom :=
  [Star is_space; GroupPlusLazy dot; Star is_space; Eol].

Definition preserves {A} (P : world -> Prop) (m : M A) : Prop :=
  forall w r w', m w = (r, w') -> P w -> P w'.

Definition on_fs (Q : gmap text node -> Prop) : world -> Prop := fun w => Q (w_fs w).

(** A property of the files that writing at [p] cannot break. *)
Definition stable_at (p : text) (Q : gmap text node -> Prop) : Prop :=
  forall fs n, Q fs -> Q (<[p := n]> fs).

(** A property of the files that no database file, new or changed, can break. *)
Definition stable_db (Q : gmap text node -> Prop) : Prop :=
  forall fs p d, Q fs -> Q (<[p := DbFile d]> fs).

(** The exceptions of a program are all of class [Exception]. *)
Definition raises_Exception {A} (m : M A) : Prop :=
  forall w e w', m w = (Raise e, w') -> is_Exception e = true.

Definition never_raises {A} (m : M A) : Prop :=
  forall w, exists a w', m w = (Ok a, w').

(** The module body after the database section. *)
Definition after_database (H : host) (db_path : text) (stats : cell * cell) : M unit :=
  let '(table_count, record_count) := stats in
  let db_abs_path := h_abspath H db_path in
  let connection_string := lit "sqlite:////" ++ lstrip_char 47 db_abs_path in
  InitDb.save_connection_info H db_abs_path connection_string ;;;
  InitDb.make_visualizer_dir H ;;;
  InitDb.save_env_file H db_abs_path ;;;
  InitDb.print_summary db_abs_path connection_string table_count record_count ;;;
  InitDb.cli_hint H db_abs_path ;;;
  print ([LF] ++ lit "Script completed successfully.").

Definition started (w : world) : world :=
  set_stdout (w_stdout w ++ [lit "Starting SQLite setup..."]) w.

(** The world with the database [d] in the file at [p] and the connection
    [h] on it, in the transaction [txn]. *)
Definition session (w : world) (p : text) (h : nat) (d : database)
    (txn : option database) : world :=
  set_conns (<[h := {| c_path := p; c_txn := txn |}]> (w_conns w))
    (set_fs (<[p := DbFile d]> (w_fs w)) w).

Definition in_txn (txn : option database) : bool :=
  match txn with Some _ => true | None => false end.


(** The database after one statement, when the statement succeeds. *)
Definition run_sql (now sql : text) (params : list cell) (d : database) : option database :=
  match parse_sql sql with
  | Some st =>
      match exec_stmt now st params d with
      | inr (Some d', _) => Some d'
      | inr (None, _) => Some d
      | inl _ => None
      end
  | None => None
  end.






(** A path that [sqlite3.connect] takes for the name of a file.  The
    engine keeps two names for a private database that is no file of the
    directory, the empty name (a temporary database) and [:memory:]; and
    a name with a NUL character, or with a code point UTF-8 cannot
    encode, never reaches the engine. *)
Definition encodable (c : N) : bool :=
  (0 <? c) && ((c <? 55296) || ((57344 <=? c) && (c <=? 1114111))).

Definition file_name (p : text) : bool :=
  negb (bool_decide (p = [])) && negb (bool_decide (p = lit ":memory:"))
  && forallb encodable p.

(** ** Worlds and hosts of the worked instances *)

Definition world_with (files : list (text * node)) (faults : list (option text)) : world :=
  {| w_fs := list_to_map files; w_conns := ∅; w_faults := faults;
     w_stdout := []; w_stderr := [] |}.

(** A host on which nothing can be created or written. *)
Definition locked_host : host :=
  {| h_readonly := fun _ => true;
     h_abspath := fun p => lit "/srv/app/" ++ p;
     h_now := lit "2024-01-01 00:00:00";
     h_which := Some 0%Z |}.

(** A host on which the two files of the Initializer cannot be written
    and [which] cannot be started. *)
Definition degraded_host : host :=
  {| h_readonly := fun p => bool_decide (p = sidecar)
                            || bool_decide (p = lit "db_visualizer/sqlite.env");
     h_abspath := fun p => lit "/srv/app/" ++ p;
     h_now := lit "2024-01-01 00:00:00";
     h_which := None |}.

Definition myapp_db : text := lit "myapp.db".

(** A connection-info file whose marker and value sit on two lines. *)
Definition split_marker_text : text := lit "#" ++ [LF] ++ lit "File path: /tmp/x.db".
Definition split_marker_world : world :=
  world_with [(sidecar, TextFile split_marker_text)] [].

(** A connection-info file with two matching lines. *)
Definition two_paths_text : text :=
  join [LF] [ lit "# SQLite connection methods:";
              lit "   # File path:   /tmp/x.db  ";
              lit "# File path: /other.db";
              [] ].
Definition two_paths_world : world := world_with [(sidecar, TextFile two_paths_text)] [].

(** A connection-info file that is there and cannot be read. *)
Definition unreadable_world : world := world_with [(sidecar, Unreadable PermissionDenied)] [].

(** The engine fails on its second call. *)
Definition failing_ddl_world : world := world_with [] [None; Some (lit "disk I/O error")].

(** A database file is there and the engine fails on its first call. *)
Definition locked_db_world : world :=
  world_with [(myapp_db, DbFile [])] [Some (lit "database is locked")].



(** The directory of the viewer is there, or it can be made. *)
Definition viewer_dir_ok (H : host) (fs : gmap text node) : Prop :=
  h_readonly H (lit "db_visualizer") = false \/ is_Some (fs !! lit "db_visualizer").

(** ** Notions and instances of the further properties *)

(** A continuation whose capture, when it is not the one it was given, is
    made of characters of the text that the group accepts. *)
Definition captures_within (P Q : N -> Prop) (k : cont) : Prop :=
  forall prev s cap g, Forall P s -> k prev s cap = Some (Some g) ->
    cap = Some g \/ Forall (fun c => P c /\ Q c) g.

(** The one statement of [ensure_notes_schema], and the two paths of the
    viewer. *)
Abbreviation ensure_ddl := (hd [] EnsureNotesSchema.ddl_statements).
Abbreviation env_file := (lit "db_visualizer/sqlite.env").
Abbreviation viewer_dir := (lit "db_visualizer").

(** The database after the statements of a list, run in order, when all
    of them succeed. *)
Fixpoint run_sqls (now : text) (l : list (text * list cell)) (d : database)
    : option database :=
  match l with
  | [] => Some d
  | (sql, params) :: l' =>
      match run_sql now sql params d with
      | Some d' => run_sqls now l' d'
      | None => None
      end
  end.

(** The statements of [init_db.py] that write, lines 60 to 112, in the
    order the script sends them. *)
Definition init_statements : list (text * list cell) :=
  [ (InitDb.app_info_ddl, []);
    (InitDb.users_ddl, []);
    (InitDb.notes_ddl, []);
    (sql_insert_app_info, InitDb.seed (lit "project_name") (lit "database"));
    (sql_insert_app_info, InitDb.seed (lit "version") (lit "0.1.0"));
    (sql_insert_app_info, InitDb.seed (lit "author") (lit "John Doe"));
    (sql_insert_app_info, InitDb.seed (lit "description") []) ].

(** The connection [h] is on the file at [p], the file holds [d], and
    the connection is in the transaction [txn]. *)
Definition at_session (w : world) (p : text) (h : nat) (d : database)
    (txn : option database) : Prop :=
  w_conns w !! h = Some {| c_path := p; c_txn := txn |}
  /\ w_fs w !! p = Some (DbFile d).

(** Two worlds that differ at most in the file at [p], in the connection
    [h] and in the faults the engine has in store. *)
Definition same_but (p : text) (h : nat) (w w' : world) : Prop :=
  (forall q, q <> p -> w_fs w' !! q = w_fs w !! q)
  /\ delete h (w_conns w') = delete h (w_conns w)
  /\ w_stdout w' = w_stdout w /\ w_stderr w' = w_stderr w.



(** A connection-info file whose last line is the marker and blanks. *)
Definition blank_value_text : text :=
  join [LF] ([lit "# SQLite connection methods:"]
             ++ [[32] ++ lit "#" ++ [32] ++ marker ++ [32; 9]]).
Definition blank_value_world : world :=
  world_with [(sidecar, TextFile blank_value_text)] [].



(** A host on which the directory of the viewer cannot be made. *)
Definition no_viewer_host : host :=
  {| h_readonly := fun p => bool_decide (p = lit "db_visualizer");
     h_abspath := fun p => lit "/srv/app/" ++ p;
     h_now := lit "2024-01-01 00:00:00";
     h_which := Some 0%Z |}.

(** A directory with a file the scripts have nothing to do with. *)
Definition readme_world : world :=
  world_with [(lit "README.md", TextFile (lit "notes"))] [].



(** * Proofs *)

Ltac split4 tac := split; [tac | split; [tac | split; [tac | split; [tac |]]]].

(** ** Text *)

Lemma is_space_not_LF c : is_space c = false -> (c =? LF) = false.
Proof.
  intros Hc. destruct (N.eqb_spec c LF) as [->|]; [discriminate Hc | reflexivity].
Qed.

Lemma lstrip_all_space l : forallb is_space l = true -> lstrip l = [].
Proof.
  induction l as [|c l IH]; simpl; [reflexivity|].
  intros [Hc Hl]%andb_true_iff. rewrite Hc. auto.
Qed.

Lemma lstrip_nil_all_space l : lstrip l = [] -> forallb is_space l = true.
Proof.
  induction l as [|c l IH]; simpl; [reflexivity|].
  destruct (is_space c); [auto | discriminate].
Qed.

Lemma lstrip_app_space l r : forallb is_space l = true -> lstrip (l ++ r) = lstrip r.
Proof.
  induction l as [|c l IH]; simpl; [reflexivity|].
  intros [Hc Hl]%andb_true_iff. rewrite Hc. auto.
Qed.

Lemma lstrip_app l r : lstrip l <> [] -> lstrip (l ++ r) = lstrip l ++ r.
Proof.
  induction l as [|c l IH]; simpl; [congruence|].
  destruct (is_space c); [auto | reflexivity].
Qed.

Lemma lstrip_head l c r : lstrip l = c :: r -> is_space c = false.
Proof.
  induction l as [|x l IH]; simpl; [discriminate|].
  destruct (is_space x) eqn:Hx; [auto|]. intros [= <- _]. exact Hx.
Qed.

Lemma lstrip_Forall (P : N -> Prop) l : Forall P l -> Forall P (lstrip l).
Proof.
  induction 1 as [|c l Hc Hl IH]; simpl; [constructor|].
  destruct (is_space c); [exact IH | constructor; assumption].
Qed.

Lemma lstrip_split l : exists ws, l = ws ++ lstrip l /\ forallb is_space ws = true.
Proof.
  induction l as [|c l [ws [E Hws]]]; simpl.
  - exists []. split; reflexivity.
  - destruct (is_space c) eqn:Hc.
    + exists (c :: ws). simpl. rewrite Hc, Hws. split; [f_equal; exact E | reflexivity].
    + exists []. split; reflexivity.
Qed.

Lemma lstrip_idem l : lstrip (lstrip l) = lstrip l.
Proof.
  induction l as [|c l IH]; simpl; [reflexivity|].
  destruct (is_space c) eqn:Hc; [exact IH|]. simpl. rewrite Hc. reflexivity.
Qed.

Lemma rstrip_all_space l : forallb is_space l = true -> rstrip l = [].
Proof.
  destruct l as [|c l]; simpl; [reflexivity|]. intros ->. reflexivity.
Qed.

Lemma rstrip_keeps_nonspace l :
  forallb is_space l = false -> forallb is_space (rstrip l) = false.
Proof.
  induction l as [|c l IH]; simpl; [discriminate|].
  intros Hcl. rewrite Hcl. simpl.
  destruct (is_space c); simpl in *; [auto | reflexivity].
Qed.

Lemma rstrip_idem l : rstrip (rstrip l) = rstrip l.
Proof.
  induction l as [|c l IH]; simpl; [reflexivity|].
  destruct (is_space c && forallb is_space l) eqn:Hcl; [reflexivity|].
  simpl. rewrite IH.
  destruct (is_space c); simpl in *; [|reflexivity].
  rewrite (rstrip_keeps_nonspace _ Hcl). reflexivity.
Qed.

Lemma rstrip_head c l : is_space c = false -> rstrip (c :: l) = c :: rstrip l.
Proof. intros Hc. simpl. rewrite Hc. reflexivity. Qed.

Lemma strip_idem l : strip (strip l) = strip l.
Proof.
  unfold strip. destruct (lstrip l) as [|c r] eqn:E; [reflexivity|].
  pose proof (lstrip_head _ _ _ E) as Hc.
  rewrite (rstrip_head _ _ Hc). simpl. rewrite Hc.
  rewrite <- (rstrip_head _ _ Hc). apply rstrip_idem.
Qed.

Lemma after_prefix_Forall (P : N -> Prop) m a v :
  Forall P a -> after_prefix m a = Some v -> Forall P v.
Proof.
  revert a. induction m as [|p m IH]; intros a Ha; simpl.
  - intros [= <-]. exact Ha.
  - destruct Ha as [|x a Hx Ha]; [discriminate|].
    destruct (x =? p); [apply IH; exact Ha | discriminate].
Qed.

Lemma after_prefix_app m a rest :
  Forall (fun p => p <> LF) m -> at_eol rest = true ->
  after_prefix m (a ++ rest) = (fun v => v ++ rest) <$> after_prefix m a.
Proof.
  intros Hm Hrest. revert a. induction Hm as [|p m Hp Hm IH]; intros a; simpl.
  - reflexivity.
  - destruct a as [|x a]; simpl.
    + destruct rest as [|y rest]; [reflexivity|]. simpl in Hrest.
      apply N.eqb_eq in Hrest. subst y.
      destruct (N.eqb_spec LF p); [congruence | reflexivity].
    + destruct (x =? p); [apply IH | reflexivity].
Qed.

(** ** The matcher *)

Lemma star_greedy_indep p k : prev_indep k -> prev_indep (star_greedy p k).
Proof.
  intros Hk p1 p2 s. revert p1 p2.
  induction s as [|c s IH]; intros p1 p2 cap; simpl.
  - apply Hk.
  - rewrite (Hk p1 p2). reflexivity.
Qed.

Lemma plus_lazy_indep p k :
  prev_indep k -> forall s acc p1 p2, plus_lazy p k acc p1 s = plus_lazy p k acc p2 s.
Proof.
  intros Hk s. induction s as [|c s IH]; intros acc p1 p2; simpl.
  - rewrite (Hk p1 p2). reflexivity.
  - rewrite (Hk p1 p2). reflexivity.
Qed.

Lemma match_here_indep pat : forallb not_bol pat = true -> prev_indep (match_here pat).
Proof.
  induction pat as [|a pat IH]; simpl.
  - intros _ p1 p2 s cap. reflexivity.
  - intros [Ha Hpat]%andb_true_iff. specialize (IH Hpat).
    destruct a; try discriminate Ha.
    + intros p1 p2 s cap. simpl. rewrite (IH p1 p2). reflexivity.
    + intros p1 p2 s cap. reflexivity.
    + apply star_greedy_indep, IH.
    + intros p1 p2 s cap. reflexivity.
Qed.

(** Whitespace before a character that is not whitespace: the star has no
    choice. *)
Lemma star_space_then_chr c pat prev s cap :
  is_space c = false ->
  star_greedy is_space (match_here (Chr c :: pat)) prev s cap
  = match_here (Chr c :: pat) prev (lstrip s) cap.
Proof.
  intros Hc. revert prev. induction s as [|x s IH]; intros prev; [reflexivity|].
  cbn [star_greedy lstrip]. destruct (is_space x) eqn:Hx; [|reflexivity].
  rewrite IH.
  change (match_here (Chr c :: pat) (Some x) (lstrip s) cap)
    with (match_here (Chr c :: pat) prev (lstrip s) cap).
  destruct (match_here (Chr c :: pat) prev (lstrip s) cap) eqn:E; [reflexivity|].
  cbn [match_here]. destruct (N.eqb_spec x c) as [->|]; [congruence | reflexivity].
Qed.

Lemma match_literal m pat prev s cap :
  prev_indep (match_here pat) ->
  match_here (List.map Chr m ++ pat) prev s cap
  = match after_prefix m s with
    | Some r => match_here pat prev r cap
    | None => None
    end.
Proof.
  intros Hk. revert prev s. induction m as [|p m IH]; intros prev s; [reflexivity|].
  cbn [List.map app match_here after_prefix]. destruct s as [|x s]; [reflexivity|].
  destruct (x =? p); [|reflexivity].
  rewrite IH. destruct (after_prefix m s); [apply Hk | reflexivity].
Qed.

Lemma match_space_eol prev t cap :
  match_here [Star is_space; Eol] prev t cap
  = if blank_to_eol t then Some cap else None.
Proof.
  revert prev. induction t as [|c t IH]; intros prev; [reflexivity|].
  cbn [match_here] in *. cbn [star_greedy blank_to_eol].
  destruct (is_space c) eqn:Hc.
  - rewrite IH. destruct (blank_to_eol t).
    + rewrite orb_true_r. reflexivity.
    + rewrite orb_false_r. cbn [at_eol]. destruct (c =? LF); reflexivity.
  - cbn [at_eol]. rewrite (is_space_not_LF _ Hc). reflexivity.
Qed.

Lemma plus_lazy_dot t acc prev :
  plus_lazy dot (match_here [Star is_space; Eol]) acc prev t
  = Some (Some (rev acc ++ lazy_take t)).
Proof.
  revert acc prev. induction t as [|c t IH]; intros acc prev.
  - cbn [plus_lazy]. rewrite match_space_eol. simpl. rewrite app_nil_r. reflexivity.
  - cbn [plus_lazy]. rewrite match_space_eol. cbn [lazy_take].
    destruct (blank_to_eol (c :: t)) eqn:E.
    + rewrite app_nil_r. reflexivity.
    + cbn [blank_to_eol] in E. apply orb_false_iff in E as [E _].
      unfold dot. rewrite E. cbn [negb]. rewrite IH. cbn [rev].
      rewrite <- app_assoc. reflexivity.
Qed.

Lemma blank_to_eol_line v rest :
  Forall (fun c => c <> LF) v -> at_eol rest = true ->
  blank_to_eol (v ++ rest) = forallb is_space v.
Proof.
  intros Hv Hrest. induction Hv as [|c v Hc Hv IH]; simpl.
  - destruct rest as [|y rest]; [reflexivity|]. simpl in *. rewrite Hrest. reflexivity.
  - rewrite IH. destruct (N.eqb_spec c LF); [contradiction | reflexivity].
Qed.

Lemma lazy_take_line v rest :
  Forall (fun c => c <> LF) v -> at_eol rest = true ->
  lazy_take (v ++ rest) = rstrip v.
Proof.
  intros Hv Hrest. induction Hv as [|c v Hc Hv IH].
  - simpl. destruct rest as [|y rest]; [reflexivity|]. simpl in *. rewrite Hrest. reflexivity.
  - change ((c :: v) ++ rest) with (c :: (v ++ rest)). cbn [lazy_take rstrip].
    rewrite IH. cbn [blank_to_eol]. rewrite (blank_to_eol_line v rest Hv Hrest).
    destruct (N.eqb_spec c LF); [contradiction | reflexivity].
Qed.

Lemma star_space_skip (k : cont) ws x u prev cap r :
  forallb is_space ws = true -> is_space x = false ->
  (forall p, k p (x :: u) cap = Some r) ->
  star_greedy is_space k prev (ws ++ x :: u) cap = Some r.
Proof.
  intros Hws Hx Hk. revert prev. induction ws as [|c ws IH]; intros prev.
  - simpl. rewrite Hx. apply Hk.
  - simpl in Hws. apply andb_true_iff in Hws as [Hc Hws].
    simpl. rewrite Hc, (IH Hws). reflexivity.
Qed.

(** The value part of the pattern, on the rest of a line that has a
    value: the capture is the rest of the line, trimmed. *)
Lemma match_value v rest prev cap :
  Forall (fun c => c <> LF) v -> at_eol rest = true -> lstrip v <> [] ->
  match_here [Star is_space; GroupPlusLazy dot; Star is_space; Eol] prev (v ++ rest) cap
  = Some (Some (strip v)).
Proof.
  intros Hv Hrest Hne.
  destruct (lstrip_split v) as [ws [E Hws]].
  destruct (lstrip v) as [|x u] eqn:El; [congruence|].
  pose proof (lstrip_head _ _ _ El) as Hx.
  assert (Hu : Forall (fun c => c <> LF) u).
  { pose proof (lstrip_Forall _ _ Hv) as HF. rewrite El in HF. inversion HF; assumption. }
  unfold strip. rewrite El, (rstrip_head _ _ Hx).
  rewrite E at 1. rewrite <- app_assoc.
  change ((x :: u) ++ rest) with (x :: (u ++ rest)).
  change (match_here (Star is_space :: ?p)) with (star_greedy is_space (match_here p)).
  apply star_space_skip; [exact Hws | exact Hx |].
  intros p. cbn [match_here]. unfold dot at 1. rewrite (is_space_not_LF _ Hx). cbn [negb].
  change (star_greedy is_space (match_here [Eol])) with (match_here [Star is_space; Eol]).
  rewrite plus_lazy_dot.
  rewrite (lazy_take_line u rest Hu Hrest). reflexivity.
Qed.

Lemma value_re_indep : prev_indep (match_here value_re).
Proof. apply match_here_indep. reflexivity. Qed.

(** The pattern read from left to right: up to the value, nothing is
    left to choose. *)
Lemma match_file_path_re prev s cap :
  match_here file_path_re prev s cap
  = if at_bol prev then
      match lstrip s with
      | c :: r =>
          if c =? 35 then
            match after_prefix marker (lstrip r) with
            | Some v => match_here value_re None v cap
            | None => None
            end
          else None
      | [] => None
      end
    else None.
Proof.
  change (match_here file_path_re prev s cap)
    with (if at_bol prev
          then star_greedy is_space
                 (match_here (Chr 35 :: Star is_space :: List.map Chr marker ++ value_re))
                 prev s cap
          else None).
  destruct (at_bol prev); [|reflexivity].
  rewrite star_space_then_chr by reflexivity.
  destruct (lstrip s) as [|c r]; [reflexivity|].
  cbn [match_here]. destruct (c =? 35); [|reflexivity].
  change (List.map Chr marker ++ value_re)
    with (Chr 70 :: (List.map Chr (tail marker) ++ value_re)).
  rewrite star_space_then_chr by reflexivity.
  change (Chr 70 :: (List.map Chr (tail marker) ++ value_re))
    with (List.map Chr marker ++ value_re).
  rewrite match_literal by exact value_re_indep.
  destruct (after_prefix marker (lstrip r)); [apply value_re_indep | reflexivity].
Qed.

Lemma marker_no_LF : Forall (fun p => p <> LF) marker.
Proof. repeat constructor; discriminate. Qed.

(** A line with text on it that is not a dangling marker: the pattern
    matches at its start exactly when the specification says the line
    matches, and captures its value. *)
Lemma match_line l rest prev :
  at_bol prev = true -> Forall (fun c => c <> LF) l -> at_eol rest = true ->
  lstrip l <> [] -> dangling_marker l = false ->
  match_here file_path_re prev (l ++ rest) None = Some <$> spec_line_value l.
Proof.
  intros Hbol Hl Hrest Hne Hd.
  rewrite match_file_path_re, Hbol, (lstrip_app _ _ Hne).
  unfold spec_line_value, dangling_marker in *.
  pose proof (lstrip_Forall _ _ Hl) as Hl'.
  destruct (lstrip l) as [|c r]; [congruence|].
  change ((c :: r) ++ rest) with (c :: (r ++ rest)). cbn iota.
  destruct (c =? 35); [|reflexivity]. cbn [andb] in Hd.
  inversion Hl' as [|? ? _ Hr]; subst.
  pose proof (lstrip_Forall _ _ Hr) as Hr'.
  assert (Hr0 : lstrip r <> []) by (destruct (lstrip r); congruence).
  rewrite (lstrip_app _ _ Hr0), (after_prefix_app _ _ _ marker_no_LF Hrest).
  destruct (lstrip r) as [|y r'] eqn:Er; [congruence|].
  destruct (after_prefix marker (y :: r')) as [v|] eqn:Ev; [|reflexivity].
  cbn [fmap option_fmap option_map].
  pose proof (after_prefix_Forall _ _ _ _ Hr' Ev) as Hv.
  assert (Hv0 : lstrip v <> []) by (destruct (lstrip v); congruence).
  unfold value_re. simpl fmap.
  rewrite (match_value v rest None None Hv Hrest Hv0).
  unfold strip. destruct (lstrip v) as [|x u] eqn:Ex; [congruence|].
  rewrite (rstrip_head _ _ (lstrip_head _ _ _ Ex)). reflexivity.
Qed.

Lemma match_blank_line l rest prev :
  at_bol prev = true -> forallb is_space l = true ->
  match_here file_path_re prev (l ++ LF :: rest) None
  = match_here file_path_re (Some LF) rest None.
Proof.
  intros Hbol Hl. rewrite !match_file_path_re, Hbol.
  rewrite (lstrip_app_space _ _ Hl). reflexivity.
Qed.

Lemma match_blank_end l prev :
  forallb is_space l = true -> match_here file_path_re prev l None = None.
Proof.
  intros Hl. rewrite match_file_path_re, (lstrip_all_space _ Hl).
  destruct (at_bol prev); reflexivity.
Qed.

Lemma match_not_bol prev s :
  at_bol prev = false -> match_here file_path_re prev s None = None.
Proof. intros Hp. rewrite match_file_path_re, Hp. reflexivity. Qed.

(** The search from inside a line goes on at the start of the next. *)
Lemma search_skip_line l rest prev :
  at_bol prev = false -> Forall (fun c => c <> LF) l ->
  re_search_from file_path_re prev (l ++ LF :: rest)
  = re_search_from file_path_re (Some LF) rest.
Proof.
  intros Hp Hl. revert prev Hp. induction Hl as [|c l Hc Hl IH]; intros prev Hp.
  - simpl app. cbn [re_search_from]. rewrite (match_not_bol _ _ Hp). reflexivity.
  - change ((c :: l) ++ LF :: rest) with (c :: (l ++ LF :: rest)).
    cbn [re_search_from]. rewrite (match_not_bol _ _ Hp).
    apply IH. simpl. destruct (N.eqb_spec c LF); [contradiction | reflexivity].
Qed.

Lemma search_skip_end l prev :
  at_bol prev = false -> Forall (fun c => c <> LF) l ->
  re_search_from file_path_re prev l = None.
Proof.
  intros Hp Hl. revert prev Hp. induction Hl as [|c l Hc Hl IH]; intros prev Hp.
  - cbn [re_search_from]. rewrite (match_not_bol _ _ Hp). reflexivity.
  - cbn [re_search_from]. rewrite (match_not_bol _ _ Hp).
    apply IH. simpl. destruct (N.eqb_spec c LF); [contradiction | reflexivity].
Qed.

Lemma search_line l rest prev :
  Forall (fun c => c <> LF) l ->
  re_search_from file_path_re prev (l ++ LF :: rest)
  = match match_here file_path_re prev (l ++ LF :: rest) None with
    | Some r => Some r
    | None => re_search_from file_path_re (Some LF) rest
    end.
Proof.
  intros Hl. destruct Hl as [|c l Hc Hl].
  - reflexivity.
  - change ((c :: l) ++ LF :: rest) with (c :: (l ++ LF :: rest)).
    cbn [re_search_from].
    destruct (match_here file_path_re prev (c :: l ++ LF :: rest) None); [reflexivity|].
    apply search_skip_line; [|exact Hl].
    simpl. destruct (N.eqb_spec c LF); [contradiction | reflexivity].
Qed.

Lemma search_last_line l prev :
  Forall (fun c => c <> LF) l ->
  re_search_from file_path_re prev l = match_here file_path_re prev l None.
Proof.
  intros Hl. destruct Hl as [|c l Hc Hl].
  - cbn [re_search_from]. destruct (match_here file_path_re prev [] None); reflexivity.
  - cbn [re_search_from].
    destruct (match_here file_path_re prev (c :: l) None); [reflexivity|].
    apply search_skip_end; [|exact Hl].
    simpl. destruct (N.eqb_spec c LF); [contradiction | reflexivity].
Qed.

Lemma search_unfold prev s :
  re_search_from file_path_re prev s
  = match match_here file_path_re prev s None with
    | Some r => Some r
    | None => re_search_from file_path_re prev s
    end.
Proof.
  destruct s; cbn [re_search_from];
    destruct (match_here file_path_re prev _ None); reflexivity.
Qed.

Lemma spec_line_value_blank l : lstrip l = [] -> spec_line_value l = None.
Proof. unfold spec_line_value. intros ->. reflexivity. Qed.

(** The search on a text given by its lines. *)
Lemma search_lines ls prev :
  at_bol prev = true -> ls <> [] ->
  Forall (Forall (fun c => c <> LF)) ls ->
  Forall (fun l => dangling_marker l = false) ls ->
  re_search_from file_path_re prev (join [LF] ls)
  = Some <$> first_some spec_line_value ls.
Proof.
  intros Hbol Hne Hls Hd. revert prev Hbol.
  induction ls as [|l ls IH]; intros prev Hbol; [congruence|].
  inversion Hls as [|? ? Hl Hls']; subst. inversion Hd as [|? ? Hdl Hd']; subst.
  destruct ls as [|l2 ls].
  - cbn [join first_some]. rewrite (search_last_line _ _ Hl).
    destruct (lstrip l) eqn:El.
    + rewrite (match_blank_end _ _ (lstrip_nil_all_space _ El)).
      rewrite (spec_line_value_blank _ El). reflexivity.
    + rewrite <- (app_nil_r l) at 1.
      rewrite (match_line l [] prev Hbol Hl eq_refl) by (congruence || assumption).
      destruct (spec_line_value l); reflexivity.
  - change (join [LF] (l :: l2 :: ls)) with (l ++ LF :: join [LF] (l2 :: ls)).
    specialize (IH ltac:(discriminate) Hls' Hd' (Some LF) eq_refl).
    rewrite (search_line _ _ _ Hl).
    change (first_some spec_line_value (l :: l2 :: ls))
      with (match spec_line_value l with
            | Some y => Some y
            | None => first_some spec_line_value (l2 :: ls)
            end).
    destruct (lstrip l) eqn:El.
    + rewrite (match_blank_line _ _ _ Hbol (lstrip_nil_all_space _ El)).
      rewrite (spec_line_value_blank _ El), <- IH.
      generalize (search_unfold (Some LF) (join [LF] (l2 :: ls))).
      destruct (match_here file_path_re (Some LF) _ None); intros E;
        [symmetry; exact E | reflexivity].
    + rewrite (match_line l (LF :: join [LF] (l2 :: ls)) prev Hbol Hl eq_refl)
        by (congruence || assumption).
      destruct (spec_line_value l); [reflexivity | exact IH].
Qed.

Lemma split_lines_not_nil s : split_lines s <> [].
Proof.
  destruct s as [|c s]; [discriminate|]. cbn [split_lines].
  destruct (c =? LF); [discriminate|]. destruct (split_lines s); discriminate.
Qed.

Lemma join_split_lines s : join [LF] (split_lines s) = s.
Proof.
  induction s as [|c s IH]; [reflexivity|].
  cbn [split_lines]. pose proof (split_lines_not_nil s) as Hne.
  destruct (c =? LF) eqn:Ec.
  - apply N.eqb_eq in Ec. subst c.
    destruct (split_lines s) as [|l ls]; [congruence|].
    change (join [LF] ([] :: l :: ls)) with (LF :: join [LF] (l :: ls)).
    rewrite IH. reflexivity.
  - destruct (split_lines s) as [|l ls]; [congruence|].
    destruct ls as [|l2 ls].
    + simpl in *. congruence.
    + change (join [LF] ((c :: l) :: l2 :: ls)) with (c :: join [LF] (l :: l2 :: ls)).
      rewrite IH. reflexivity.
Qed.

Lemma split_lines_no_LF s : Forall (Forall (fun c => c <> LF)) (split_lines s).
Proof.
  induction s as [|c s IH]; [repeat constructor|].
  cbn [split_lines]. destruct (N.eqb_spec c LF).
  - constructor; [constructor | exact IH].
  - destruct (split_lines s) as [|l ls]; [repeat constructor; assumption|].
    inversion IH; subst. constructor; [constructor; assumption | assumption].
Qed.

(** The code's search and the specification's reading of the lines agree
    on a text without dangling markers. *)
Lemma re_search_spec t :
  Forall (fun l => dangling_marker l = false) (split_lines t) ->
  re_search file_path_re t = Some <$> first_some spec_line_value (split_lines t).
Proof.
  intros Hd. unfold re_search. rewrite <- (join_split_lines t) at 1.
  apply search_lines;
    [reflexivity | apply split_lines_not_nil | apply split_lines_no_LF | exact Hd].
Qed.

Lemma first_some_strip ls v :
  first_some spec_line_value ls = Some v -> strip v = v.
Proof.
  induction ls as [|l ls IH]; [discriminate|]. cbn [first_some].
  destruct (spec_line_value l) as [u|] eqn:E; [|exact IH].
  intros [= <-]. unfold spec_line_value in E.
  destruct (lstrip l) as [|c r]; [discriminate|].
  destruct (c =? 35); [|discriminate].
  destruct (after_prefix marker (lstrip r)) as [x|]; [|discriminate].
  destruct (strip x) eqn:Ex; [discriminate|].
  injection E as <-. rewrite <- Ex. apply strip_idem.
Qed.

(** ** The capture *)

Lemma star_greedy_keeps p k : keeps_capture k -> keeps_capture (star_greedy p k).
Proof.
  intros Hk prev s. revert prev. induction s as [|x s IH]; intros prev c; simpl.
  - apply Hk.
  - destruct (p x); [|apply Hk].
    destruct (star_greedy p k (Some x) s (Some c)) eqn:E; [|apply Hk].
    rewrite <- E. apply IH.
Qed.

Lemma star_greedy_always p k : always_captures k -> always_captures (star_greedy p k).
Proof.
  intros Hk prev s. revert prev. induction s as [|x s IH]; intros prev c; simpl.
  - apply Hk.
  - destruct (p x); [|apply Hk].
    destruct (star_greedy p k (Some x) s c) eqn:E; [|apply Hk].
    rewrite <- E. apply IH.
Qed.

Lemma plus_lazy_captures p k :
  keeps_capture k -> forall s acc prev, plus_lazy p k acc prev s <> Some None.
Proof.
  intros Hk s. induction s as [|x s IH]; intros acc prev; simpl.
  - destruct (k prev [] (Some (rev acc))) eqn:E; [|discriminate].
    rewrite <- E. apply Hk.
  - destruct (k prev (x :: s) (Some (rev acc))) eqn:E.
    + rewrite <- E. apply Hk.
    + destruct (p x); [apply IH | discriminate].
Qed.

Lemma match_here_keeps pat : keeps_capture (match_here pat).
Proof.
  induction pat as [|a pat IH]; [intros p s c; discriminate|].
  destruct a; cbn [match_here].
  - intros p s c. destruct (at_bol p); [apply IH | discriminate].
  - intros p s c. destruct (at_eol s); [apply IH | discriminate].
  - intros p [|x s] c0; [discriminate|]. destruct (x =? c); [apply IH | discriminate].
  - apply star_greedy_keeps, IH.
  - intros prev [|x s] c; [discriminate|].
    destruct (p x); [apply plus_lazy_captures, IH | discriminate].
Qed.

Lemma match_here_captures pat :
  existsb is_group pat = true -> always_captures (match_here pat).
Proof.
  induction pat as [|a pat IH]; [discriminate|].
  destruct a; cbn [existsb is_group orb match_here]; intros Hg.
  - intros p s c. destruct (at_bol p); [apply IH, Hg | discriminate].
  - intros p s c. destruct (at_eol s); [apply IH, Hg | discriminate].
  - intros p [|x s] c0; [discriminate|]. destruct (x =? c); [apply IH, Hg | discriminate].
  - apply star_greedy_always, IH, Hg.
  - intros prev [|x s] c; [discriminate|].
    destruct (p x); [apply plus_lazy_captures, match_here_keeps | discriminate].
Qed.

(** A match of the resolver's pattern has its group. *)
Lemma re_search_captures s : re_search file_path_re s <> Some None.
Proof.
  unfold re_search. generalize (@None N).
  induction s as [|x s IH]; intros prev; cbn [re_search_from].
  - destruct (match_here file_path_re prev [] None) eqn:E; [|discriminate].
    rewrite <- E. apply match_here_captures. reflexivity.
  - destruct (match_here file_path_re prev (x :: s) None) eqn:E; [|apply IH].
    rewrite <- E. apply match_here_captures. reflexivity.
Qed.

(** ** The path resolver *)

Lemma resolvers_absent cf w :
  w_fs w !! cf = None ->
  EnsureNotesSchema._get_db_path_from_connection_file cf w = (Ok (lit "myapp.db"), w)
  /\ InitDb._get_db_path_from_connection_file cf w = (Ok (lit "myapp.db"), w).
Proof.
  intros Hf.
  unfold EnsureNotesSchema._get_db_path_from_connection_file,
    InitDb._get_db_path_from_connection_file, bind, os_path_exists.
  rewrite Hf. split; reflexivity.
Qed.

Lemma resolvers_text cf w t :
  w_fs w !! cf = Some (TextFile t) ->
  EnsureNotesSchema._get_db_path_from_connection_file cf w
  = (Ok (resolve_text (universal_newlines t)), w)
  /\ InitDb._get_db_path_from_connection_file cf w
     = (Ok (resolve_text (universal_newlines t)), w).
Proof.
  intros Hf.
  unfold EnsureNotesSchema._get_db_path_from_connection_file,
    InitDb._get_db_path_from_connection_file, bind, os_path_exists, try_except,
    read_text, resolve_text.
  rewrite Hf. cbn [negb]. cbv beta iota. rewrite Hf. unfold ret, raise.
  pose proof (re_search_captures (universal_newlines t)) as Hc.
  destruct (re_search file_path_re (universal_newlines t)) as [[g|]|];
    [split; reflexivity | congruence | split; reflexivity].
Qed.

(** The Initializer's resolver answers whatever the file is. *)
Lemma init_resolver_total cf w :
  exists p, InitDb._get_db_path_from_connection_file cf w = (Ok p, w).
Proof.
  destruct (w_fs w !! cf) as [n|] eqn:Hf.
  - destruct n as [|t|why|d].
    + eexists. unfold InitDb._get_db_path_from_connection_file, bind, os_path_exists,
        try_except, read_text. rewrite Hf. cbn [negb]. cbv beta iota. rewrite Hf. reflexivity.
    + eexists. apply (resolvers_text cf w t Hf).
    + eexists. unfold InitDb._get_db_path_from_connection_file, bind, os_path_exists,
        try_except, read_text. rewrite Hf. cbn [negb]. cbv beta iota. rewrite Hf.
      destruct why; reflexivity.
    + eexists. unfold InitDb._get_db_path_from_connection_file, bind, os_path_exists,
        try_except, read_text. rewrite Hf. cbn [negb]. cbv beta iota. rewrite Hf. reflexivity.
  - eexists. apply (resolvers_absent cf w Hf).
Qed.

Lemma resolve_text_spec t :
  Forall (fun l => dangling_marker l = false) (split_lines t) ->
  resolve_text t = spec_resolve (Some t).
Proof.
  intros Hd. unfold resolve_text, spec_resolve. rewrite (re_search_spec t Hd).
  destruct (first_some spec_line_value (split_lines t)) as [v|] eqn:E; [|reflexivity].
  simpl. apply (first_some_strip _ _ E).
Qed.

(** Claim C2, as amended.  On a connection-info file in which no line is a
    dangling marker (a lone [#], or [# File path:] with nothing after
    it), both resolvers answer as the specification reads the file: the
    trimmed value of the first line that matches [# File path: <value>],
    whitespace before the [#] allowed, and [myapp.db] when no line matches
    or there is no file. *)
Theorem resolver_first_matching_line cf w (file : option text) :
  w_fs w !! cf = TextFile <$> file ->
  no_dangling_marker (universal_newlines <$> file) ->
  EnsureNotesSchema._get_db_path_from_connection_file cf w
  = (Ok (spec_resolve (universal_newlines <$> file)), w)
  /\ InitDb._get_db_path_from_connection_file cf w
     = (Ok (spec_resolve (universal_newlines <$> file)), w).
Proof.
  intros Hf Hd. destruct file as [t|].
  - change (universal_newlines <$> Some t) with (Some (universal_newlines t)) in *.
    rewrite <- (resolve_text_spec _ Hd). apply resolvers_text, Hf.
  - apply resolvers_absent, Hf.
Qed.

(** ** The monad *)

Lemma bind_Ok {A B} (m : M A) (k : A -> M B) w b w' :
  bind m k w = (Ok b, w') -> exists a w1, m w = (Ok a, w1) /\ k a w1 = (Ok b, w').
Proof.
  unfold bind. destruct (m w) as [[a|e] w1]; [eauto | discriminate].
Qed.

Lemma fresh_conn (m : gmap nat conn) : m !! fresh (dom m) = None.
Proof. apply not_elem_of_dom, is_fresh. Qed.

(** ** Tables *)

Lemma find_app_none {A} (f : A -> bool) l1 l2 :
  List.find f l1 = None -> List.find f (l1 ++ l2) = List.find f l2.
Proof.
  induction l1 as [|x l1 IH]; simpl; [reflexivity|].
  destruct (f x); [discriminate | exact IH].
Qed.

Lemma find_app_some {A} (f : A -> bool) l1 l2 x :
  List.find f l1 = Some x -> List.find f (l1 ++ l2) = Some x.
Proof.
  induction l1 as [|y l1 IH]; simpl; [discriminate|].
  destruct (f y); [trivial | exact IH].
Qed.

Lemma find_map_same {A} (f : A -> bool) (g : A -> A) l :
  (forall x, f (g x) = f x) -> List.find f (List.map g l) = g <$> List.find f l.
Proof.
  intros Hg. induction l as [|x l IH]; simpl; [reflexivity|].
  rewrite Hg. destruct (f x); [reflexivity | exact IH].
Qed.

Lemma name_eqb_refl n : name_eqb n n = true.
Proof. unfold name_eqb. apply bool_decide_eq_true. reflexivity. Qed.

Lemma find_table_create_new n sql ai d :
  find_table n d = None ->
  find_table n (create_table n sql ai d)
  = Some {| t_name := n; t_sql := sql; t_rows := [] |}.
Proof.
  intros Hn. unfold find_table, create_table in *.
  rewrite (find_app_none _ _ _ Hn). simpl. rewrite name_eqb_refl. reflexivity.
Qed.

Lemma find_table_create_keep n m sql ai d t :
  find_table n d = Some t -> find_table n (create_table m sql ai d) = Some t.
Proof. intros Hn. unfold find_table, create_table in *. apply find_app_some, Hn. Qed.

Lemma find_table_set_rows n m rows d :
  find_table n (set_rows m rows d)
  = (fun t => if name_eqb (t_name t) m
              then {| t_name := t_name t; t_sql := t_sql t; t_rows := rows |}
              else t) <$> find_table n d.
Proof.
  unfold find_table, set_rows. apply find_map_same.
  intros t. destruct (name_eqb (t_name t) m); reflexivity.
Qed.

Lemma find_table_seq_put n m z d t :
  find_table n d = Some t -> exists t', find_table n (seq_put m z d) = Some t'.
Proof.
  intros Hn. unfold seq_put. destruct (find_table sqlite_sequence d); [|eauto].
  rewrite find_table_set_rows, Hn. simpl. eauto.
Qed.

(** No statement of the scripts drops a table. *)
Lemma exec_stmt_keeps_table now st params d d' rows n t :
  exec_stmt now st params d = inr (Some d', rows) ->
  find_table n d = Some t -> exists t', find_table n d' = Some t'.
Proof.
  intros Hx Hn. destruct st; simpl in Hx.
  - destruct (find_table name d); simplify_eq.
    eexists. apply find_table_create_keep, Hn.
  - destruct (find_table app_info d) as [ta|]; [|discriminate].
    destruct params as [|k [|v [|? ?]]]; try discriminate.
    destruct (max_rowid <=? _)%Z; simplify_eq.
    unfold insert_or_replace. eapply find_table_seq_put.
    rewrite find_table_set_rows, Hn. reflexivity.
  - discriminate.
  - discriminate.
  - destruct (find_table tbl d); discriminate.
Qed.

Lemma parse_ensure_ddl :
  parse_sql (hd [] EnsureNotesSchema.ddl_statements)
  = Some (CreateTableIfNotExists notes
            (stored_sql (hd [] EnsureNotesSchema.ddl_statements)) true).
Proof. vm_compute. reflexivity. Qed.

Lemma parse_init_ddl :
  parse_sql InitDb.app_info_ddl
  = Some (CreateTableIfNotExists app_info (stored_sql InitDb.app_info_ddl) true)
  /\ parse_sql InitDb.users_ddl
     = Some (CreateTableIfNotExists (lit "users") (stored_sql InitDb.users_ddl) true)
  /\ parse_sql InitDb.notes_ddl
     = Some (CreateTableIfNotExists notes (stored_sql InitDb.notes_ddl) true).
Proof. vm_compute. repeat split; reflexivity. Qed.

Lemma parse_others :
  parse_sql sql_select_one = Some SelectOne
  /\ parse_sql sql_insert_app_info = Some InsertOrReplaceAppInfo
  /\ parse_sql sql_count_tables = Some SelectCountUserTables
  /\ parse_sql sql_count_app_info = Some (SelectCount app_info).
Proof. vm_compute. repeat split; reflexivity. Qed.

Section HostLemmas.
Variable H : host.

Lemma engine_fault_frame w r w0 :
  engine_fault w = (r, w0) ->
  w_fs w0 = w_fs w /\ w_conns w0 = w_conns w
  /\ w_stdout w0 = w_stdout w /\ w_stderr w0 = w_stderr w.
Proof. unfold engine_fault. repeat case_match; intros ?; simplify_eq; done. Qed.

Lemma engine_fault_none w :
  w_faults w = [] -> engine_fault w = (Ok tt, w).
Proof. unfold engine_fault. intros ->. reflexivity. Qed.

Lemma view_eq w w0 h :
  w_fs w0 = w_fs w -> w_conns w0 = w_conns w -> view w0 h = view w h.
Proof. unfold view. intros -> ->. reflexivity. Qed.

Lemma view_default w h c d0 d :
  view w h = Some d -> w_conns w !! h = Some c ->
  w_fs w !! c_path c = Some (DbFile d0) -> default d0 (c_txn c) = d.
Proof.
  unfold view. intros Hv Hc Hf. rewrite Hc, Hf in Hv.
  destruct (c_txn c); simpl; congruence.
Qed.

(** A statement that succeeds drops no table of the connection's view. *)
Lemma conn_execute_view h sql params w rows w' n :
  conn_execute H h sql params w = (Ok rows, w') ->
  has_table n (view w h) -> has_table n (view w' h).
Proof.
  intros Hx (d & t & Hv & Hn). unfold conn_execute, bind in Hx.
  destruct (engine_fault w) as [[[]|e] w0] eqn:Ef; [|discriminate].
  apply engine_fault_frame in Ef as (Hfs & Hcs & _).
  rewrite <- (view_eq w w0 h Hfs Hcs) in Hv. clear Hfs Hcs w.
  destruct (w_conns w0 !! h) as [c|] eqn:Ec; [|discriminate].
  destruct (parse_sql sql) as [st|]; [|discriminate].
  destruct (negb (reads_file st)).
  { simplify_eq. exists d, t. auto. }
  destruct (w_fs w0 !! c_path c) as [[| | |d0]|] eqn:Efs; try discriminate.
  rewrite (view_default _ _ _ _ _ Hv Ec Efs) in Hx.
  destruct (exec_stmt (h_now H) st params d) as [msg|[[d'|] rows']] eqn:Ex;
    [discriminate| |simplify_eq; exists d, t; auto].
  destruct (exec_stmt_keeps_table _ _ _ _ _ _ _ _ Ex Hn) as [t' Ht'].
  destruct (h_readonly H (c_path c)); [discriminate|].
  destruct (is_dml st || bool_decide (is_Some (c_txn c))) eqn:Eb; simplify_eq.
  - exists d', t'. split; [|exact Ht'].
    unfold view. simpl. rewrite lookup_insert_eq. reflexivity.
  - exists d', t'. split; [|exact Ht'].
    apply orb_false_iff in Eb as [_ Eb]. apply bool_decide_eq_false in Eb.
    unfold view. simpl. rewrite Ec.
    destruct (c_txn c); [exfalso; apply Eb; eauto|].
    rewrite lookup_insert_eq. reflexivity.
Qed.

Lemma engine_fault_conns w : w_conns (snd (engine_fault w)) = w_conns w.
Proof. unfold engine_fault. repeat case_match; simplify_eq; reflexivity. Qed.

Lemma engine_fault_sqlite w e w' : engine_fault w = (Raise e, w') -> is_sqlite_error e = true.
Proof. unfold engine_fault. repeat case_match; intros ?; simplify_eq; reflexivity. Qed.

Lemma view_of w h c d0 :
  w_conns w !! h = Some c -> w_fs w !! c_path c = Some (DbFile d0) ->
  view w h = Some (default d0 (c_txn c)).
Proof. unfold view. intros -> ->. destruct (c_txn c); reflexivity. Qed.

(** CREATE TABLE IF NOT EXISTS, when it succeeds, leaves the table in the
    connection's view. *)
Lemma conn_execute_create h sql params w rows w' n s a :
  conn_execute H h sql params w = (Ok rows, w') ->
  parse_sql sql = Some (CreateTableIfNotExists n s a) ->
  has_table n (view w' h).
Proof.
  intros Hx Hp. unfold conn_execute, bind in Hx.
  destruct (engine_fault w) as [[[]|e] w0] eqn:Ef; [|discriminate]. clear Ef.
  destruct (w_conns w0 !! h) as [c|] eqn:Ec; [|discriminate].
  rewrite Hp in Hx. cbn [reads_file negb] in Hx.
  destruct (w_fs w0 !! c_path c) as [[| | |d0]|] eqn:Efs; try discriminate.
  cbn [exec_stmt] in Hx.
  destruct (find_table n (default d0 (c_txn c))) as [t|] eqn:En.
  - simplify_eq. exists (default d0 (c_txn c)), t. split; [|exact En].
    apply view_of; assumption.
  - destruct (h_readonly H (c_path c)); [discriminate|].
    pose proof (find_table_create_new n s a _ En) as Hnew.
    destruct (is_dml _ || bool_decide (is_Some (c_txn c))) eqn:Eb; simplify_eq.
    + eexists _, _. split; [|exact Hnew].
      unfold view. simpl. rewrite lookup_insert_eq. reflexivity.
    + eexists _, _. split; [|exact Hnew].
      apply orb_false_iff in Eb as [_ Eb]. apply bool_decide_eq_false in Eb.
      unfold view. simpl. rewrite Ec.
      destruct (c_txn c); [exfalso; apply Eb; eauto|].
      rewrite lookup_insert_eq. reflexivity.
Qed.

(** The file a connection is on does not change. *)

Lemma conn_execute_path h sql params w rows w' :
  conn_execute H h sql params w = (Ok rows, w') -> conn_path w' h = conn_path w h.
Proof.
  intros Hx. unfold conn_execute, bind in Hx.
  destruct (engine_fault w) as [[[]|e] w0] eqn:Ef; [|discriminate].
  apply engine_fault_frame in Ef as (_ & Hcs & _).
  unfold conn_path. rewrite <- Hcs. clear Hcs.
  repeat case_match; simplify_eq; simpl; rewrite ?lookup_insert_eq; try reflexivity;
    match goal with Hc : w_conns _ !! _ = Some _ |- _ => rewrite Hc; reflexivity end.
Qed.

(** After a commit, the tables of the view are in the file. *)
Lemma conn_commit_file h w w' n p :
  conn_commit h w = (Ok tt, w') ->
  conn_path w h = Some p -> has_table n (view w h) -> has_table n (file_db w' p).
Proof.
  intros Hx Hp (d & t & Hv & Hn). unfold conn_commit, bind in Hx.
  destruct (engine_fault w) as [[[]|e] w0] eqn:Ef; [|discriminate].
  apply engine_fault_frame in Ef as (Hfs & Hcs & _).
  rewrite <- (view_eq w w0 h Hfs Hcs) in Hv.
  unfold conn_path in Hp. rewrite <- Hcs in Hp. clear Hfs Hcs w.
  unfold view in Hv.
  destruct (w_conns w0 !! h) as [c|] eqn:Ec; [|discriminate].
  simpl in Hp. injection Hp as <-.
  exists d, t. split; [|exact Hn]. unfold file_db.
  destruct (c_txn c) as [d'|]; simplify_eq.
  - simpl. rewrite lookup_insert_eq. reflexivity.
  - destruct (w_fs w' !! c_path c) as [[]|]; congruence.
Qed.

(** Connecting to a file that is there leaves the files as they are. *)
Lemma sqlite3_connect_fs p w n :
  w_fs w !! p = Some n -> w_fs (snd (sqlite3_connect H p w)) = w_fs w.
Proof.
  intros Hp. unfold sqlite3_connect, bind, engine_fault, new_conn.
  repeat case_match; simplify_eq; simpl in *; congruence.
Qed.

(** On a connection outside a transaction, to a database that has the
    table, CREATE TABLE IF NOT EXISTS does nothing. *)
Lemma conn_execute_create_existing h sql params w p d t n s a :
  w_conns w !! h = Some {| c_path := p; c_txn := None |} ->
  w_fs w !! p = Some (DbFile d) -> find_table n d = Some t ->
  parse_sql sql = Some (CreateTableIfNotExists n s a) ->
  conn_execute H h sql params w
  = match engine_fault w with
    | (Ok _, w0) => (Ok [], w0)
    | (Raise e, w0) => (Raise e, w0)
    end.
Proof.
  intros Hc Hf Hn Hp. unfold conn_execute, bind.
  destruct (engine_fault w) as [[[]|e] w0] eqn:Ef; [|reflexivity].
  apply engine_fault_frame in Ef as (Hfs & Hcs & _).
  rewrite Hcs, Hc, Hp. cbn [reads_file negb c_path c_txn].
  rewrite Hfs, Hf. cbn [default exec_stmt]. rewrite Hn. reflexivity.
Qed.

Lemma conn_commit_no_txn h w p :
  w_conns w !! h = Some {| c_path := p; c_txn := None |} ->
  conn_commit h w = engine_fault w.
Proof.
  intros Hc. unfold conn_commit, bind.
  destruct (engine_fault w) as [[[]|e] w0] eqn:Ef; [|reflexivity].
  apply engine_fault_frame in Ef as (Hfs & Hcs & _).
  rewrite Hcs, Hc. reflexivity.
Qed.

(** The engine raises [sqlite3.Error] and nothing else. *)
Lemma sqlite3_connect_sqlite p w e w' :
  sqlite3_connect H p w = (Raise e, w') -> is_sqlite_error e = true.
Proof.
  unfold sqlite3_connect, bind, engine_fault, new_conn.
  repeat case_match; intros ?; simplify_eq; reflexivity.
Qed.

Lemma conn_execute_sqlite h sql params w e w' :
  conn_execute H h sql params w = (Raise e, w') -> is_sqlite_error e = true.
Proof.
  unfold conn_execute, bind, engine_fault.
  repeat case_match; intros ?; simplify_eq; reflexivity.
Qed.

Lemma conn_commit_sqlite h w e w' :
  conn_commit h w = (Raise e, w') -> is_sqlite_error e = true.
Proof.
  unfold conn_commit, bind, engine_fault.
  repeat case_match; intros ?; simplify_eq; reflexivity.
Qed.

(** Connecting opens one connection under a handle that was free. *)
Lemma sqlite3_connect_conns p w h w' :
  sqlite3_connect H p w = (Ok h, w') ->
  w_conns w !! h = None /\
  w_conns w' = <[h := {| c_path := p; c_txn := None |}]> (w_conns w).
Proof.
  unfold sqlite3_connect, bind, engine_fault, new_conn.
  repeat case_match; intros ?; simplify_eq; simpl; split; (apply fresh_conn || reflexivity).
Qed.

Lemma sqlite3_connect_fail_conns p w e w' :
  sqlite3_connect H p w = (Raise e, w') -> w_conns w' = w_conns w.
Proof.
  unfold sqlite3_connect, bind, engine_fault, new_conn.
  repeat case_match; intros ?; simplify_eq; reflexivity.
Qed.

(** A statement and a commit touch no connection but their own. *)
Lemma conn_execute_conns h sql params w :
  delete h (w_conns (snd (conn_execute H h sql params w))) = delete h (w_conns w).
Proof.
  unfold conn_execute, bind, engine_fault.
  repeat case_match; simplify_eq; simpl; rewrite ?delete_insert_eq; reflexivity.
Qed.

Lemma conn_commit_conns h w :
  delete h (w_conns (snd (conn_commit h w))) = delete h (w_conns w).
Proof.
  unfold conn_commit, bind, engine_fault.
  repeat case_match; simplify_eq; simpl; rewrite ?delete_insert_eq; reflexivity.
Qed.

(** [ensure_notes_schema], a call of the engine at a time. *)

Lemma ensure_notes_schema_unfold p w :
  EnsureNotesSchema.ensure_notes_schema H p w
  = match sqlite3_connect H p w with
    | (Raise e, w1) => (Raise e, w1)
    | (Ok h, w1) =>
        match conn_execute H h (hd [] EnsureNotesSchema.ddl_statements) [] w1 with
        | (Raise e, w2) => (Raise e, closed h w2)
        | (Ok _, w2) =>
            match conn_commit h w2 with
            | (r, w3) => (r, closed h w3)
            end
        end
    end.
Proof.
  unfold EnsureNotesSchema.ensure_notes_schema, bind at 1.
  destruct (sqlite3_connect H p w) as [[h|e] w1]; [|reflexivity].
  unfold try_finally, EnsureNotesSchema.ddl_statements, for_each, bind, ret, conn_close, hd.
  destruct (conn_execute H h _ [] w1) as [[rows|e] w2]; [|reflexivity].
  destruct (conn_commit h w2) as [r w3]. reflexivity.
Qed.

Lemma ensure_notes_schema_conns p w : 
  w_conns (snd (EnsureNotesSchema.ensure_notes_schema H p w)) = w_conns w.
Proof.
  rewrite ensure_notes_schema_unfold.
  destruct (sqlite3_connect H p w) as [[h|e] w1] eqn:Ec.
  - apply sqlite3_connect_conns in Ec as [Hfree Hc].
    assert (Hd : delete h (w_conns w1) = w_conns w).
    { rewrite Hc, delete_insert_eq. apply delete_id, Hfree. }
    pose proof (conn_execute_conns h (hd [] EnsureNotesSchema.ddl_statements) [] w1) as He.
    destruct (conn_execute H h _ [] w1) as [[rows|e] w2]; simpl in *.
    + pose proof (conn_commit_conns h w2) as Hm.
      destruct (conn_commit h w2) as [r w3]; simpl in *. congruence.
    + congruence.
  - simpl. eapply sqlite3_connect_fail_conns, Ec.
Qed.

Lemma ensure_notes_schema_sqlite p w e w' :
  EnsureNotesSchema.ensure_notes_schema H p w = (Raise e, w') -> is_sqlite_error e = true.
Proof.
  rewrite ensure_notes_schema_unfold.
  destruct (sqlite3_connect H p w) as [[h|e1] w1] eqn:Ec.
  - destruct (conn_execute H h _ [] w1) as [[rows|e2] w2] eqn:Ee.
    + destruct (conn_commit h w2) as [r w3] eqn:Em. intros [= -> <-].
      eapply conn_commit_sqlite, Em.
    + intros [= <- <-]. eapply conn_execute_sqlite, Ee.
  - intros [= <- <-]. eapply sqlite3_connect_sqlite, Ec.
Qed.

(** Claim C9.  Once [ensure_notes_schema] has its connection, the
    connection is open while the statements run and closed when the
    function is left, whether it returns or raises: whatever [r] is, the
    handle is free again and the open connections are those of before. *)
Theorem ensure_closes_connection p w h w1 r w' :
  sqlite3_connect H p w = (Ok h, w1) ->
  EnsureNotesSchema.ensure_notes_schema H p w = (r, w') ->
  is_Some (w_conns w1 !! h) /\ w_conns w' !! h = None /\ w_conns w' = w_conns w.
Proof.
  intros Hc He. pose proof (ensure_notes_schema_conns p w) as Hsame.
  rewrite He in Hsame. simpl in Hsame.
  apply sqlite3_connect_conns in Hc as [Hfree Hc].
  split; [|split].
  - rewrite Hc, lookup_insert_eq. eauto.
  - rewrite Hsame. exact Hfree.
  - exact Hsame.
Qed.

(** A run of [main], once the path is resolved. *)
Lemma main_run p w w0 :
  EnsureNotesSchema._get_db_path_from_connection_file (lit "db_connection.txt") w = (Ok p, w0) ->
  run (EnsureNotesSchema.main H) w
  = match EnsureNotesSchema.ensure_notes_schema H p
            (set_stdout (w_stdout w0 ++ [lit "Using SQLite DB: " ++ p]) w0) with
    | (Ok _, w2) =>
        (0%Z, set_stdout (w_stdout w2 ++ [[10003] ++ lit " notes schema ensured"]) w2)
    | (Raise e, w2) =>
        if is_sqlite_error e
        then (1%Z, set_stderr (w_stderr w2
                                ++ [[10007] ++ lit " failed to ensure notes schema: "
                                            ++ exn_str e]) w2)
        else (exit_status (@Raise unit e), w2)
    end.
Proof.
  intros Hres. unfold run, EnsureNotesSchema.main, bind, try_except, print, print_err, raise.
  rewrite Hres.
  destruct (EnsureNotesSchema.ensure_notes_schema H p _) as [[[]|e] w2]; [reflexivity|].
  destruct (is_sqlite_error e); reflexivity.
Qed.

(** Claim C5.  When the engine fails on the DDL statement of
    [ensure_notes_schema], the function raises that very error, after
    closing the connection.  An error of [ensure_notes_schema] is a
    [sqlite3.Error]; [main] prints it on the error stream and the process
    exits with status 1.  When [ensure_notes_schema] returns, [main]
    prints its success line and the status is 0. *)
Theorem ensure_failure_exits p w w0 r w2 :
  EnsureNotesSchema._get_db_path_from_connection_file (lit "db_connection.txt") w = (Ok p, w0) ->
  EnsureNotesSchema.ensure_notes_schema H p
    (set_stdout (w_stdout w0 ++ [lit "Using SQLite DB: " ++ p]) w0) = (r, w2) ->
  (forall h wc e we,
      sqlite3_connect H p (set_stdout (w_stdout w0 ++ [lit "Using SQLite DB: " ++ p]) w0)
        = (Ok h, wc) ->
      conn_execute H h (hd [] EnsureNotesSchema.ddl_statements) [] wc = (Raise e, we) ->
      r = Raise e /\ w2 = closed h we)
  /\ match r with
     | Raise e =>
         is_sqlite_error e = true /\
         run (EnsureNotesSchema.main H) w
         = (1%Z, set_stderr (w_stderr w2
                              ++ [[10007] ++ lit " failed to ensure notes schema: " ++ exn_str e]) w2)
     | Ok _ =>
         run (EnsureNotesSchema.main H) w
         = (0%Z, set_stdout (w_stdout w2 ++ [[10003] ++ lit " notes schema ensured"]) w2)
     end.
Proof.
  intros Hres Hens. split.
  - intros h wc e we Hc Hx. rewrite ensure_notes_schema_unfold, Hc, Hx in Hens.
    injection Hens as <- <-. split; reflexivity.
  - rewrite (main_run _ _ _ Hres), Hens. destruct r as [[]|e]; [reflexivity|].
    pose proof (ensure_notes_schema_sqlite _ _ _ _ Hens) as Hsql.
    rewrite Hsql. split; reflexivity.
Qed.

(** A run that succeeds leaves a [notes] table in the file. *)
Lemma ensure_ok_has_notes p w w1 :
  EnsureNotesSchema.ensure_notes_schema H p w = (Ok tt, w1) ->
  has_table notes (file_db w1 p).
Proof.
  rewrite ensure_notes_schema_unfold.
  destruct (sqlite3_connect H p w) as [[h|e] wc] eqn:Ec; [|discriminate].
  destruct (conn_execute H h _ [] wc) as [[rows|e] wx] eqn:Ex; [|discriminate].
  destruct (conn_commit h wx) as [r wm] eqn:Em. intros [= -> <-].
  apply sqlite3_connect_conns in Ec as [_ Hc].
  assert (Hp : conn_path wx h = Some p).
  { rewrite (conn_execute_path _ _ _ _ _ _ Ex). unfold conn_path.
    rewrite Hc, lookup_insert_eq. reflexivity. }
  pose proof (conn_execute_create _ _ _ _ _ _ _ _ _ Ex parse_ensure_ddl) as Hv.
  exact (conn_commit_file _ _ _ _ _ Em Hp Hv).
Qed.

(** On a database that has a [notes] table a run changes nothing, and
    fails only when the engine fails by itself. *)
Lemma ensure_noop p w d t r w' :
  w_fs w !! p = Some (DbFile d) -> find_table notes d = Some t ->
  EnsureNotesSchema.ensure_notes_schema H p w = (r, w') ->
  w_fs w' = w_fs w /\ w_conns w' = w_conns w
  /\ w_stdout w' = w_stdout w /\ w_stderr w' = w_stderr w
  /\ (w_faults w = [] -> r = Ok tt /\ w_faults w' = []).
Proof.
  intros Hf Hn He.
  pose proof (ensure_notes_schema_conns p w) as Hcs. rewrite He in Hcs. simpl in Hcs.
  rewrite ensure_notes_schema_unfold in He.
  unfold sqlite3_connect, bind in He.
  destruct (engine_fault w) as [[[]|e0] w0] eqn:Ef0.
  2:{ injection He as <- <-.
      destruct (engine_fault_frame _ _ _ Ef0) as (? & ? & ? & ?).
      split4 assumption.
      intros Hq. rewrite (engine_fault_none _ Hq) in Ef0. discriminate. }
  destruct (engine_fault_frame _ _ _ Ef0) as (Hfs0 & Hcs0 & Ho0 & He0).
  rewrite Hfs0, Hf in He. unfold new_conn in He.
  set (h := fresh (dom (w_conns w0))) in *.
  set (wc := set_conns _ w0) in *.
  assert (Hc : w_conns wc !! h = Some {| c_path := p; c_txn := None |})
    by (subst wc; simpl; apply lookup_insert_eq).
  assert (Hfc : w_fs wc !! p = Some (DbFile d)) by (subst wc; simpl; congruence).
  rewrite (conn_execute_create_existing _ _ _ _ _ _ _ _ _ _ Hc Hfc Hn parse_ensure_ddl) in He.
  destruct (engine_fault wc) as [[[]|e1] w1] eqn:Ef1.
  2:{ injection He as <- <-.
      destruct (engine_fault_frame _ _ _ Ef1) as (? & ? & ? & ?).
      subst wc; simpl in *. split4 congruence.
      intros Hq. rewrite (engine_fault_none _ Hq) in Ef0. injection Ef0 as <-.
      rewrite engine_fault_none in Ef1 by exact Hq. discriminate. }
  destruct (engine_fault_frame _ _ _ Ef1) as (Hfs1 & Hcs1 & Ho1 & He1).
  rewrite (conn_commit_no_txn h w1 p) in He by (rewrite Hcs1; exact Hc).
  destruct (engine_fault w1) as [r2 w2] eqn:Ef2. injection He as <- <-.
  destruct (engine_fault_frame _ _ _ Ef2) as (Hfs2 & Hcs2 & Ho2 & He2).
  subst wc; simpl in *. split4 congruence.
  intros Hq. rewrite (engine_fault_none _ Hq) in Ef0. injection Ef0 as <-.
  rewrite engine_fault_none in Ef1 by exact Hq. injection Ef1 as <-.
  rewrite engine_fault_none in Ef2 by exact Hq. injection Ef2 as <- <-.
  split; [reflexivity | exact Hq].
Qed.

Lemma run_times_noop p n : forall w d t rs wn,
  w_fs w !! p = Some (DbFile d) -> find_table notes d = Some t ->
  run_times n (EnsureNotesSchema.ensure_notes_schema H p) w = (rs, wn) ->
  w_fs wn = w_fs w /\ w_conns wn = w_conns w
  /\ (w_faults w = [] -> Forall (eq (Ok tt)) rs).
Proof.
  induction n as [|n IH]; intros w d t rs wn Hf Hn Hr.
  - injection Hr as <- <-. repeat split; auto.
  - cbn [run_times] in Hr.
    destruct (EnsureNotesSchema.ensure_notes_schema H p w) as [r w1] eqn:E1.
    destruct (run_times n _ w1) as [rs' w2] eqn:E2. injection Hr as <- <-.
    destruct (ensure_noop _ _ _ _ _ _ Hf Hn E1) as (Hfs & Hcs & _ & _ & Hq).
    assert (Hf1 : w_fs w1 !! p = Some (DbFile d)) by congruence.
    destruct (IH _ _ _ _ _ Hf1 Hn E2) as (Hfs' & Hcs' & Hq').
    split; [congruence | split; [congruence |]].
    intros Hnil.  destruct (Hq Hnil) as [-> Hnil1]. constructor; auto.
Qed.

(** Claim C1.  After a run of [ensure_notes_schema] that succeeded the
    file holds a [notes] table, and any number [n] of further runs on the
    same path leave every file, so the database, its [notes] schema and
    its rows, and the open connections as they are, whatever the runs
    answer; when the engine has no fault of its own in store, every one
    of these runs returns without an error. *)
Theorem ensure_notes_schema_idempotent p w w1 n rs wn :
  EnsureNotesSchema.ensure_notes_schema H p w = (Ok tt, w1) ->
  run_times n (EnsureNotesSchema.ensure_notes_schema H p) w1 = (rs, wn) ->
  has_table notes (file_db w1 p)
  /\ w_fs wn = w_fs w1 /\ file_db wn p = file_db w1 p /\ w_conns wn = w_conns w1
  /\ (w_faults w1 = [] -> Forall (eq (Ok tt)) rs).
Proof.
  intros H1 Hn. pose proof (ensure_ok_has_notes _ _ _ H1) as Hnotes.
  split; [exact Hnotes|].
  destruct Hnotes as (d & t & Hd & Ht). unfold file_db in Hd.
  destruct (w_fs w1 !! p) as [[| | |d']|] eqn:Ef; try discriminate. injection Hd as ->.
  destruct (run_times_noop _ _ _ _ _ _ _ Ef Ht Hn) as (Hfs & Hcs & Hq).
  split; [exact Hfs | split; [|split; [exact Hcs | exact Hq]]].
  unfold file_db. rewrite Hfs. reflexivity.
Qed.
End HostLemmas.

(** ** Invariants of programs *)

Create HintDb preserves.
Create HintDb raises.

Section Preserves.
Context {P : world -> Prop}.

Lemma preserves_ret {A} (a : A) : preserves P (ret a).
Proof. intros w r w' [= <- <-]. trivial. Qed.

Lemma preserves_raise {A} e : preserves P (@raise A e).
Proof. intros w r w' [= <- <-]. trivial. Qed.

Lemma preserves_bind {A B} (m : M A) (k : A -> M B) :
  preserves P m -> (forall a, preserves P (k a)) -> preserves P (bind m k).
Proof.
  intros Hm Hk w r w'. unfold bind.
  destruct (m w) as [[a|e] w1] eqn:E; intros Hr HP.
  - eapply Hk; [exact Hr|]. eapply Hm; eassumption.
  - injection Hr as <- <-. eapply Hm; eassumption.
Qed.

Lemma preserves_try_except {A} (m : M A) c h :
  preserves P m -> (forall e, preserves P (h e)) -> preserves P (try_except m c h).
Proof.
  intros Hm Hh w r w'. unfold try_except.
  destruct (m w) as [[a|e] w1] eqn:E; intros Hr HP.
  - injection Hr as <- <-. eapply Hm; eassumption.
  - destruct (c e).
    + eapply Hh; [exact Hr|]. eapply Hm; eassumption.
    + injection Hr as <- <-. eapply Hm; eassumption.
Qed.

Lemma preserves_if {A} (b : bool) (m1 m2 : M A) :
  preserves P m1 -> preserves P m2 -> preserves P (if b then m1 else m2).
Proof. destruct b; trivial. Qed.

End Preserves.

Global Hint Resolve preserves_ret preserves_raise preserves_if : preserves.
Global Hint Extern 2 (preserves _ (bind _ _)) =>
  apply preserves_bind; [|intros ?] : preserves.
Global Hint Extern 2 (preserves _ (try_except _ _ _)) =>
  apply preserves_try_except; [|intros ?] : preserves.

Section PreservesFs.
Variable H : host.
Variable Q : gmap text node -> Prop.

Lemma preserves_print s : preserves (on_fs Q) (print s).
Proof. intros w r w' [= <- <-]. trivial. Qed.

Lemma preserves_os_path_exists p : preserves (on_fs Q) (os_path_exists p).
Proof. intros w r w' [= <- <-]. trivial. Qed.

Lemma preserves_subprocess_run_which : preserves (on_fs Q) (subprocess_run_which H).
Proof. intros w r w'. unfold subprocess_run_which. case_match; intros [= <- <-]; trivial. Qed.

Lemma preserves_conn_close h : preserves (on_fs Q) (conn_close h).
Proof. intros w r w' [= <- <-]. trivial. Qed.

Lemma preserves_fetchone_0 rows : preserves (on_fs Q) (fetchone_0 rows).
Proof.
  intros w r w'. unfold fetchone_0, ret, raise.
  repeat case_match; intros [= <- <-]; trivial.
Qed.

Lemma preserves_open_w p : stable_at p Q -> preserves (on_fs Q) (open_w H p).
Proof.
  intros HQ w r w'. unfold open_w, on_fs.
  repeat case_match; intros [= <- <-]; simpl; auto.
Qed.

Lemma preserves_f_write p s : stable_at p Q -> preserves (on_fs Q) (f_write p s).
Proof.
  intros HQ w r w'. unfold f_write, on_fs.
  repeat case_match; intros [= <- <-]; simpl; auto.
Qed.

Lemma preserves_os_makedirs p : stable_at p Q -> preserves (on_fs Q) (os_makedirs H p).
Proof.
  intros HQ w r w'. unfold os_makedirs, on_fs.
  repeat case_match; intros [= <- <-]; simpl; auto.
Qed.

Lemma preserves_sqlite3_connect p : stable_db Q -> preserves (on_fs Q) (sqlite3_connect H p).
Proof.
  intros HQ w r w'. unfold sqlite3_connect, bind, engine_fault, new_conn, on_fs.
  repeat case_match; intros ?; simplify_eq; simpl; auto.
Qed.

Lemma preserves_conn_execute h sql params :
  stable_db Q -> preserves (on_fs Q) (conn_execute H h sql params).
Proof.
  intros HQ w r w'. unfold conn_execute, bind, engine_fault, on_fs.
  repeat case_match; intros ?; simplify_eq; simpl; auto.
Qed.

Lemma preserves_conn_commit h : stable_db Q -> preserves (on_fs Q) (conn_commit h).
Proof.
  intros HQ w r w'. unfold conn_commit, bind, engine_fault, on_fs.
  repeat case_match; intros ?; simplify_eq; simpl; auto.
Qed.

End PreservesFs.

Global Hint Resolve preserves_print preserves_os_path_exists preserves_subprocess_run_which
  preserves_conn_close preserves_fetchone_0 preserves_open_w preserves_f_write
  preserves_os_makedirs preserves_sqlite3_connect preserves_conn_execute
  preserves_conn_commit : preserves.

Section InitDbInvariants.
Variable H : host.
Variable Q : gmap text node -> Prop.

Lemma preserves_check_existing p :
  stable_db Q -> preserves (on_fs Q) (InitDb.check_existing H p).
Proof. intros HQ. unfold InitDb.check_existing. auto 20 with preserves. Qed.

Lemma preserves_create_and_seed p :
  stable_db Q -> preserves (on_fs Q) (InitDb.create_and_seed H p).
Proof. intros HQ. unfold InitDb.create_and_seed. auto 40 with preserves. Qed.

Lemma preserves_make_visualizer_dir :
  stable_at (lit "db_visualizer") Q -> preserves (on_fs Q) (InitDb.make_visualizer_dir H).
Proof. intros HQ. unfold InitDb.make_visualizer_dir. auto 20 with preserves. Qed.

Lemma preserves_save_connection_info a c :
  stable_at (lit "db_connection.txt") Q ->
  preserves (on_fs Q) (InitDb.save_connection_info H a c).
Proof. intros HQ. unfold InitDb.save_connection_info. auto 30 with preserves. Qed.

Lemma preserves_save_env_file a :
  stable_at (lit "db_visualizer/sqlite.env") Q ->
  preserves (on_fs Q) (InitDb.save_env_file H a).
Proof. intros HQ. unfold InitDb.save_env_file. auto 20 with preserves. Qed.

Lemma preserves_print_summary a c t r :
  preserves (on_fs Q) (InitDb.print_summary a c t r).
Proof. unfold InitDb.print_summary. auto 40 with preserves. Qed.

Lemma preserves_cli_hint a : preserves (on_fs Q) (InitDb.cli_hint H a).
Proof. unfold InitDb.cli_hint. auto 20 with preserves. Qed.

End InitDbInvariants.

(** ** Programs that cannot fail *)

Lemma is_sqlite_error_Exception e : is_sqlite_error e = true -> is_Exception e = true.
Proof. destruct e; simpl; congruence. Qed.

Lemma raises_ret {A} (a : A) : raises_Exception (ret a).
Proof. intros w e w'. discriminate. Qed.

Lemma raises_bind {A B} (m : M A) (k : A -> M B) :
  raises_Exception m -> (forall a, raises_Exception (k a)) -> raises_Exception (bind m k).
Proof.
  intros Hm Hk w e w'. unfold bind.
  destruct (m w) as [[a|e1] w1] eqn:E; intros Hr.
  - eapply Hk, Hr.
  - injection Hr as <- <-. eapply Hm, E.
Qed.

Lemma raises_if {A} (b : bool) (m1 m2 : M A) :
  raises_Exception m1 -> raises_Exception m2 -> raises_Exception (if b then m1 else m2).
Proof. destruct b; trivial. Qed.

Lemma raises_print s : raises_Exception (print s).
Proof. intros w e w'. discriminate. Qed.

Lemma raises_conn_close h : raises_Exception (conn_close h).
Proof. intros w e w'. discriminate. Qed.

Lemma raises_open_w H p : raises_Exception (open_w H p).
Proof. intros w e w'. unfold open_w. repeat case_match; intros [= <- <-]; reflexivity. Qed.

Lemma raises_f_write p s : raises_Exception (f_write p s).
Proof. intros w e w'. unfold f_write. repeat case_match; intros [= <- <-]; reflexivity. Qed.

Lemma raises_subprocess_run_which H : raises_Exception (subprocess_run_which H).
Proof.
  intros w e w'. unfold subprocess_run_which. repeat case_match; intros [= <- <-]; reflexivity.
Qed.

Lemma raises_sqlite3_connect H p : raises_Exception (sqlite3_connect H p).
Proof. intros w e w' Hr. eapply is_sqlite_error_Exception, sqlite3_connect_sqlite, Hr. Qed.

Lemma raises_conn_execute H h sql params : raises_Exception (conn_execute H h sql params).
Proof. intros w e w' Hr. eapply is_sqlite_error_Exception, conn_execute_sqlite, Hr. Qed.

Global Hint Resolve raises_ret raises_if raises_print raises_conn_close raises_open_w
  raises_f_write raises_subprocess_run_which raises_sqlite3_connect raises_conn_execute
  : raises.
Global Hint Extern 2 (raises_Exception (bind _ _)) =>
  apply raises_bind; [|intros ?] : raises.

Lemma never_raises_print s : never_raises (print s).
Proof. intros w. eexists _, _. reflexivity. Qed.

Lemma never_raises_ret {A} (a : A) : never_raises (ret a).
Proof. intros w. eexists _, _. reflexivity. Qed.

Lemma never_raises_bind {A B} (m : M A) (k : A -> M B) :
  never_raises m -> (forall a, never_raises (k a)) -> never_raises (bind m k).
Proof.
  intros Hm Hk w. unfold bind. destruct (Hm w) as (a & w1 & ->). apply Hk.
Qed.

(** [try: ... except Exception: ...] around a body that raises nothing
    else, with a handler that cannot fail, cannot fail. *)
Lemma never_raises_try_except {A} (m : M A) (h : exn -> M A) :
  raises_Exception m -> (forall e, never_raises (h e)) ->
  never_raises (try_except m is_Exception h).
Proof.
  intros Hm Hh w. unfold try_except.
  destruct (m w) as [[a|e] w1] eqn:E; [eauto|].
  rewrite (Hm _ _ _ E). apply Hh.
Qed.

Section InitDbTotal.
Variable H : host.


Lemma save_connection_info_never_raises a c :
  never_raises (InitDb.save_connection_info H a c).
Proof.
  unfold InitDb.save_connection_info.
  apply never_raises_try_except; [auto 20 with raises | intros e; apply never_raises_print].
Qed.

Lemma save_env_file_never_raises a : never_raises (InitDb.save_env_file H a).
Proof.
  unfold InitDb.save_env_file.
  apply never_raises_try_except; [auto 20 with raises | intros e; apply never_raises_print].
Qed.

Lemma cli_hint_never_raises a : never_raises (InitDb.cli_hint H a).
Proof.
  unfold InitDb.cli_hint.
  apply never_raises_try_except; [auto 20 with raises | intros e; apply never_raises_ret].
Qed.

Lemma print_summary_never_raises a c t r : never_raises (InitDb.print_summary a c t r).
Proof.
  unfold InitDb.print_summary.
  repeat (apply never_raises_bind; [apply never_raises_print | intros _]).
  apply never_raises_print.
Qed.

Lemma viewer_dir_ok_stable_at p : stable_at p (viewer_dir_ok H).
Proof.
  intros fs n [Hrw|Hex]; [left; exact Hrw | right].
  destruct (decide (p = lit "db_visualizer")) as [->|Hne].
  - rewrite lookup_insert_eq. eauto.
  - rewrite lookup_insert_ne by exact Hne. exact Hex.
Qed.

Lemma viewer_dir_ok_stable_db : stable_db (viewer_dir_ok H).
Proof. intros fs p d. apply viewer_dir_ok_stable_at. Qed.

(** The directory of the viewer is made when it is missing and can be. *)
Lemma make_visualizer_dir_ok w :
  viewer_dir_ok H (w_fs w) -> exists w', InitDb.make_visualizer_dir H w = (Ok tt, w').
Proof.
  intros Hok. unfold InitDb.make_visualizer_dir, bind, os_path_exists, os_makedirs, print, ret.
  destruct (w_fs w !! lit "db_visualizer") as [n|] eqn:E; cbn [negb].
  - eauto.
  - destruct Hok as [Hrw|[n Hn]]; [|congruence]. rewrite E, Hrw. eauto.
Qed.

Lemma script_unfold w :
  InitDb.script H w
  = match InitDb._get_db_path_from_connection_file sidecar (started w) with
    | (Ok p, w0) =>
        match InitDb.check_existing H p w0 with
        | (Ok _, w1) =>
            match InitDb.create_and_seed H p w1 with
            | (Ok stats, w2) => after_database H p stats w2
            | (Raise e, w2) => (Raise e, w2)
            end
        | (Raise e, w1) => (Raise e, w1)
        end
    | (Raise e, w0) => (Raise e, w0)
    end.
Proof.
  unfold InitDb.script, bind at 1 2 3 4, print at 1.
  change (set_stdout _ w) with (started w).
  destruct (InitDb._get_db_path_from_connection_file _ (started w)) as [[p|e] w0];
    [|reflexivity].
  change (lit "db_connection.txt") with sidecar.
  destruct (InitDb.check_existing H p w0) as [[[]|e] w1]; [|reflexivity].
  destruct (InitDb.create_and_seed H p w1) as [[[tc rc]|e] w2]; reflexivity.
Qed.

(** After the database section the script goes to its end. *)
Lemma after_database_ok p stats w :
  viewer_dir_ok H (w_fs w) -> exists w', after_database H p stats w = (Ok tt, w').
Proof.
  intros Hok. destruct stats as [tc rc]. unfold after_database.
  unfold bind at 1.
  destruct (save_connection_info_never_raises
              (h_abspath H p) (lit "sqlite:////" ++ lstrip_char 47 (h_abspath H p)) w)
    as ([] & w3 & E3).
  rewrite E3.
  pose proof (preserves_save_connection_info H _ _ _ (viewer_dir_ok_stable_at _) _ _ _ E3 Hok)
    as Hok3.
  unfold bind at 1. destruct (make_visualizer_dir_ok w3 Hok3) as [w4 ->].
  match goal with |- exists w', ?m w4 = _ => assert (Hn : never_raises m) end.
  { apply never_raises_bind; [apply save_env_file_never_raises | intros _].
    apply never_raises_bind; [apply print_summary_never_raises | intros _].
    apply never_raises_bind; [apply cli_hint_never_raises | intros _].
    apply never_raises_print. }
  destruct (Hn w4) as ([] & w' & E). exists w'. exact E.
Qed.

End InitDbTotal.

(** ** A session on one database, when the engine has no fault of its own *)

Section Session.
Variable H : host.

Lemma connect_new p w :
  w_fs w !! p = None -> w_faults w = [] -> h_readonly H p = false ->
  sqlite3_connect H p w = (Ok (fresh (dom (w_conns w))), session w p (fresh (dom (w_conns w))) [] None).
Proof.
  intros Hf Hq Hrw. unfold sqlite3_connect, bind.
  rewrite (engine_fault_none _ Hq), Hf, Hrw. reflexivity.
Qed.

Lemma session_session w p h d txn d' txn' :
  set_conns (<[h := {| c_path := p; c_txn := txn' |}]> (w_conns (session w p h d txn)))
    (set_fs (<[p := DbFile d']> (w_fs (session w p h d txn))) (session w p h d txn))
  = session w p h d' txn'.
Proof.
  unfold session, set_conns, set_fs. simpl. rewrite !insert_insert_eq. reflexivity.
Qed.

Lemma session_conns w p h d txn txn' :
  set_conns (<[h := {| c_path := p; c_txn := txn' |}]> (w_conns (session w p h d txn)))
    (session w p h d txn)
  = session w p h d txn'.
Proof.
  unfold session, set_conns, set_fs. simpl. rewrite !insert_insert_eq. reflexivity.
Qed.

Lemma session_fs w p h d txn d' :
  set_fs (<[p := DbFile d']> (w_fs (session w p h d txn))) (session w p h d txn)
  = session w p h d' txn.
Proof.
  unfold session, set_conns, set_fs. simpl. rewrite !insert_insert_eq. reflexivity.
Qed.

Lemma execute_session w p h d txn sql params st :
  w_faults w = [] -> h_readonly H p = false ->
  parse_sql sql = Some st -> reads_file st = true ->
  conn_execute H h sql params (session w p h d txn)
  = match exec_stmt (h_now H) st params (default d txn) with
    | inl msg => (Raise (SqliteError msg), session w p h d txn)
    | inr (None, rows) => (Ok rows, session w p h d txn)
    | inr (Some d', rows) =>
        if is_dml st || in_txn txn
        then (Ok rows, session w p h d (Some d'))
        else (Ok rows, session w p h d' txn)
    end.
Proof.
  intros Hq Hrw Hp Hr. unfold conn_execute, bind.
  rewrite engine_fault_none by exact Hq.
  replace (w_conns (session w p h d txn) !! h) with (Some {| c_path := p; c_txn := txn |})
    by (symmetry; apply lookup_insert_eq).
  rewrite Hp, Hr. cbn [negb c_path c_txn].
  replace (w_fs (session w p h d txn) !! p) with (Some (DbFile d))
    by (symmetry; apply lookup_insert_eq).
  destruct (exec_stmt (h_now H) st params (default d txn)) as [msg|[[d'|] rows]];
    [reflexivity| |reflexivity].
  rewrite Hrw.
  replace (bool_decide (is_Some txn)) with (in_txn txn).
  2:{ destruct txn; reflexivity. }
  destruct (is_dml st || in_txn txn).
  - rewrite session_conns. reflexivity.
  - rewrite session_fs. reflexivity.
Qed.

Lemma commit_session w p h d txn :
  w_faults w = [] ->
  conn_commit h (session w p h d txn)
  = (Ok tt, session w p h (default d txn) None).
Proof.
  intros Hq. unfold conn_commit, bind.
  rewrite engine_fault_none by exact Hq.
  replace (w_conns (session w p h d txn) !! h) with (Some {| c_path := p; c_txn := txn |})
    by (symmetry; apply lookup_insert_eq).
  cbn [c_txn c_path]. destruct txn as [d'|]; cbn [default].
  - rewrite session_session. reflexivity.
  - reflexivity.
Qed.

Lemma close_session w p h d txn :
  w_conns w !! h = None ->
  conn_close h (session w p h d txn)
  = (Ok tt, set_conns (w_conns w) (set_fs (<[p := DbFile d]> (w_fs w)) w)).
Proof.
  intros Hh. unfold conn_close, session. simpl. unfold set_conns at 1. simpl.
  rewrite delete_insert_id by exact Hh. reflexivity.
Qed.

End Session.

Ltac run_stmt Hq Hrw Hparse :=
  unfold bind at 1;
  rewrite (execute_session _ _ _ _ _ _ _ _ _ Hq Hrw Hparse eq_refl);
  cbn [default];
  match goal with
  | |- context [exec_stmt ?n ?st ?ps ?d] =>
      let r := eval vm_compute in (exec_stmt n st ps d) in
      replace (exec_stmt n st ps d) with r by (vm_compute; reflexivity)
  end;
  cbv beta iota; cbn [is_dml in_txn orb].

Section FreshDatabase.
Variable H : host.

(** The database section of the Initializer on a path where no file is. *)
Lemma create_and_seed_new p w :
  w_fs w !! p = None -> w_faults w = [] -> h_readonly H p = false ->
  exists d t,
    InitDb.create_and_seed H p w
    = (Ok (CInt 3, CInt 4), set_conns (w_conns w) (set_fs (<[p := DbFile d]> (w_fs w)) w))
    /\ count_user_tables d = 3%Z
    /\ find_table app_info d = Some t /\ length (t_rows t) = 4%nat.
Proof.
  intros Hf Hq Hrw.
  destruct parse_init_ddl as (Pa & Pu & Pn).
  destruct parse_others as (_ & Pi & Pc & Pr).
  eexists _, _. split.
  - unfold InitDb.create_and_seed. unfold bind at 1.
    rewrite (connect_new H p w Hf Hq Hrw). cbv zeta.
    run_stmt Hq Hrw Pa.
    run_stmt Hq Hrw Pu.
    run_stmt Hq Hrw Pn.
    run_stmt Hq Hrw Pi.
    run_stmt Hq Hrw Pi.
    run_stmt Hq Hrw Pi.
    run_stmt Hq Hrw Pi.
    unfold bind at 1. rewrite (commit_session _ _ _ _ _ Hq). cbn [default].
    run_stmt Hq Hrw Pc.
    unfold bind at 1. cbn [fetchone_0 ret].
    run_stmt Hq Hrw Pr.
    unfold bind at 1. cbn [fetchone_0 ret].
    unfold bind at 1. rewrite close_session by apply fresh_conn.
    unfold ret. reflexivity.
  - split; [vm_compute; reflexivity|]. split; vm_compute; reflexivity.
Qed.

End FreshDatabase.

Section InitDbRun.
Variable H : host.

Lemma init_resolver_world cf w r w' :
  InitDb._get_db_path_from_connection_file cf w = (r, w') -> w' = w.
Proof.
  destruct (init_resolver_total cf w) as [p ->]. intros [= _ <-]. reflexivity.
Qed.

Lemma check_existing_new p w :
  w_fs w !! p = None ->
  InitDb.check_existing H p w
  = (Ok tt, set_stdout (w_stdout w
                         ++ [lit "Creating new SQLite database at " ++ p ++ lit "..."]) w).
Proof.
  intros Hf. unfold InitDb.check_existing, bind, os_path_exists. rewrite Hf. reflexivity.
Qed.

(** Output only grows after the summary. *)
Lemma cli_hint_stdout a w r w' :
  InitDb.cli_hint H a w = (r, w') -> exists l, w_stdout w' = w_stdout w ++ l.
Proof.
  unfold InitDb.cli_hint, try_except, bind, subprocess_run_which, print, ret.
  destruct (h_which H) as [rc|]; [destruct (rc =? 0)%Z|]; intros [= _ <-]; simpl.
  - eexists. rewrite <- !app_assoc. reflexivity.
  - exists []. rewrite app_nil_r. reflexivity.
  - exists []. rewrite app_nil_r. reflexivity.
Qed.

Lemma print_summary_stdout a c tc rc w r w' :
  InitDb.print_summary a c tc rc w = (r, w') ->
  In (lit "  Tables: " ++ cell_str tc) (w_stdout w')
  /\ In (lit "  App info records: " ++ cell_str rc) (w_stdout w').
Proof.
  unfold InitDb.print_summary, bind, print. intros [= _ <-]. cbn [w_stdout set_stdout].
  split.
  - apply in_or_app. left. apply in_or_app. right. left. reflexivity.
  - apply in_or_app. right. left. reflexivity.
Qed.

(** The summary of a run that goes through shows the two statistics. *)
Lemma after_database_stdout p tc rc w w' :
  after_database H p (tc, rc) w = (Ok tt, w') ->
  In (lit "  Tables: " ++ cell_str tc) (w_stdout w')
  /\ In (lit "  App info records: " ++ cell_str rc) (w_stdout w').
Proof.
  unfold after_database. intros Hr.
  apply bind_Ok in Hr as (? & w3 & _ & Hr).
  apply bind_Ok in Hr as (? & w4 & _ & Hr).
  apply bind_Ok in Hr as (? & w5 & _ & Hr).
  apply bind_Ok in Hr as (? & w6 & Hs & Hr).
  apply bind_Ok in Hr as (? & w7 & Hc & Hr).
  apply print_summary_stdout in Hs as [Ht Ha].
  apply cli_hint_stdout in Hc as [l Hl].
  unfold print in Hr. injection Hr as Hw. rewrite <- Hw. cbn [w_stdout set_stdout].
  rewrite Hl, !in_app_iff. tauto.
Qed.

(** Claim C7.  On a path where no file is, that can be written, with an
    engine that has no fault of its own and a viewer directory that is
    there or can be made: the database section of the Initializer answers 3 for the
    count of user tables and 4 for the rows of [app_info], the database
    in the file has these 3 tables (the engine's [sqlite_sequence] is not
    counted) and these 4 rows, the script ends with status 0, and its
    output shows the two statistics. *)
Theorem init_db_fresh_statistics w p w0 :
  InitDb._get_db_path_from_connection_file sidecar (started w) = (Ok p, w0) ->
  w_fs w !! p = None -> h_readonly H p = false -> w_faults w = [] ->
  viewer_dir_ok H (w_fs w) ->
  exists w1 w2 d t w',
    InitDb.check_existing H p w0 = (Ok tt, w1)
    /\ InitDb.create_and_seed H p w1 = (Ok (CInt 3, CInt 4), w2)
    /\ file_db w2 p = Some d /\ count_user_tables d = 3%Z
    /\ find_table app_info d = Some t /\ length (t_rows t) = 4%nat
    /\ run (InitDb.script H) w = (0%Z, w')
    /\ In (lit "  Tables: 3") (w_stdout w')
    /\ In (lit "  App info records: 4") (w_stdout w').
Proof.
  intros Hres Hf Hrw Hq Hdir.
  pose proof (init_resolver_world _ _ _ _ Hres) as ->.
  pose proof (check_existing_new p (started w) Hf) as Hck.
  set (w1 := set_stdout _ (started w)) in Hck.
  destruct (create_and_seed_new H p w1 Hf Hq Hrw) as (d & t & Hcs & Hn & Ht & Hl).
  set (w2 := set_conns _ _) in Hcs.
  assert (Hdir2 : viewer_dir_ok H (w_fs w2))
    by (subst w2; apply viewer_dir_ok_stable_db; exact Hdir).
  destruct (after_database_ok H p (CInt 3, CInt 4) w2 Hdir2) as (w' & Had).
  exists w1, w2, d, t, w'.
  split; [exact Hck|]. split; [exact Hcs|].
  split; [unfold file_db; subst w2; simpl; rewrite lookup_insert_eq; reflexivity|].
  split; [exact Hn|]. split; [exact Ht|]. split; [exact Hl|].
  split; [unfold run; rewrite script_unfold, Hres, Hck, Hcs, Had; reflexivity|].
  exact (after_database_stdout _ _ _ _ _ Had).
Qed.

End InitDbRun.

(** ** The connection-info file, written and read back *)

Lemma universal_newlines_id t :
  Forall (fun c => c <> CR) t -> universal_newlines t = t.
Proof.
  induction 1 as [|c t Hc Ht IH]; [reflexivity|].
  cbn [universal_newlines]. destruct (N.eqb_spec c CR); [contradiction|].
  rewrite IH. reflexivity.
Qed.





Lemma init_resolver_eq cf w :
  InitDb._get_db_path_from_connection_file cf w
  = (Ok (match w_fs w !! cf with
         | Some (TextFile t) => resolve_text (universal_newlines t)
         | _ => lit "myapp.db"
         end), w).
Proof.
  destruct (w_fs w !! cf) as [n|] eqn:Hf.
  - destruct n as [|t|why|d].
    + unfold InitDb._get_db_path_from_connection_file, bind, os_path_exists,
        try_except, read_text. rewrite Hf. cbn [negb]. cbv beta iota. rewrite Hf. reflexivity.
    + apply (resolvers_text cf w t Hf).
    + unfold InitDb._get_db_path_from_connection_file, bind, os_path_exists,
        try_except, read_text. rewrite Hf. cbn [negb]. cbv beta iota. rewrite Hf.
      destruct why; reflexivity.
    + unfold InitDb._get_db_path_from_connection_file, bind, os_path_exists,
        try_except, read_text. rewrite Hf. cbn [negb]. cbv beta iota. rewrite Hf. reflexivity.
  - apply (resolvers_absent cf w Hf).
Qed.

Section RoundTrip.
Variable H : host.








End RoundTrip.

(** ** The Initializer, then the SchemaEnsurer *)

Section InitThenEnsure.
Variable H : host.

(** A statement drops no table of a file. *)
Lemma conn_execute_file h sql params w r w' n p :
  conn_execute H h sql params w = (r, w') ->
  has_table n (file_db w p) -> has_table n (file_db w' p).
Proof.
  intros Hx (d & t & Hd & Hn). unfold conn_execute, bind in Hx.
  destruct (engine_fault w) as [[[]|e] w0] eqn:Ef.
  2:{ injection Hx as _ <-. apply engine_fault_frame in Ef as (Hfs & _).
      exists d, t. unfold file_db in *. rewrite Hfs. auto. }
  apply engine_fault_frame in Ef as (Hfs & _).
  assert (Hd0 : file_db w0 p = Some d) by (unfold file_db in *; rewrite Hfs; exact Hd).
  clear Hd Hfs w.
  assert (Hsame : has_table n (file_db w0 p)) by (exists d, t; auto).
  destruct (w_conns w0 !! h) as [c|] eqn:Ec; [|injection Hx as _ <-; exact Hsame].
  destruct (parse_sql sql) as [st|]; [|injection Hx as _ <-; exact Hsame].
  destruct (negb (reads_file st)); [injection Hx as _ <-; exact Hsame|].
  destruct (w_fs w0 !! c_path c) as [[| | |d0]|] eqn:Efs;
    try (injection Hx as _ <-; exact Hsame).
  destruct (exec_stmt (h_now H) st params (default d0 (c_txn c))) as [msg|[[d'|] rows']] eqn:Ex;
    try (injection Hx as _ <-; exact Hsame).
  destruct (h_readonly H (c_path c)); [injection Hx as _ <-; exact Hsame|].
  destruct (is_dml st || bool_decide (is_Some (c_txn c))) eqn:Eb; injection Hx as _ <-.
  - exact Hsame.
  - apply orb_false_iff in Eb as [_ Eb]. apply bool_decide_eq_false in Eb.
    destruct (c_txn c) eqn:Et; [exfalso; apply Eb; eauto|]. cbn [default] in Ex.
    destruct (decide (c_path c = p)) as [<-|Hne].
    + unfold file_db in Hd0. rewrite Efs in Hd0. injection Hd0 as ->.
      destruct (exec_stmt_keeps_table _ _ _ _ _ _ _ _ Ex Hn) as [t' Ht'].
      exists d', t'. split; [|exact Ht'].
      unfold file_db. simpl. rewrite lookup_insert_eq. reflexivity.
    + exists d, t. split; [|exact Hn].
      unfold file_db in *. simpl. rewrite lookup_insert_ne by exact Hne. exact Hd0.
Qed.

Lemma fetchone_0_world rows r w w' : fetchone_0 rows w = (r, w') -> w' = w.
Proof. unfold fetchone_0, ret, raise. repeat case_match; intros [= _ <-]; reflexivity. Qed.

(** The database section of the Initializer leaves a [notes] table. *)
Lemma create_and_seed_has_notes p w stats w1 :
  InitDb.create_and_seed H p w = (Ok stats, w1) -> has_table notes (file_db w1 p).
Proof.
  unfold InitDb.create_and_seed. cbv zeta. intros Hr.
  apply bind_Ok in Hr as (h & wc & Ec & Hr).
  apply bind_Ok in Hr as (? & wa & Ea & Hr).
  apply bind_Ok in Hr as (? & wu & Eu & Hr).
  apply bind_Ok in Hr as (? & wn & En & Hr).
  apply bind_Ok in Hr as (? & wi1 & Ei1 & Hr).
  apply bind_Ok in Hr as (? & wi2 & Ei2 & Hr).
  apply bind_Ok in Hr as (? & wi3 & Ei3 & Hr).
  apply bind_Ok in Hr as (? & wi4 & Ei4 & Hr).
  apply bind_Ok in Hr as ([] & wm & Em & Hr).
  apply bind_Ok in Hr as (? & wt & Et & Hr).
  apply bind_Ok in Hr as (? & wt' & Et' & Hr).
  apply bind_Ok in Hr as (? & wr & Er & Hr).
  apply bind_Ok in Hr as (? & wr' & Er' & Hr).
  apply bind_Ok in Hr as (? & wz & Ez & Hr).
  injection Hr as _ <-.
  apply sqlite3_connect_conns in Ec as [_ Hc].
  assert (Hp : conn_path wi4 h = Some p).
  { rewrite (conn_execute_path _ _ _ _ _ _ _ Ei4), (conn_execute_path _ _ _ _ _ _ _ Ei3),
      (conn_execute_path _ _ _ _ _ _ _ Ei2), (conn_execute_path _ _ _ _ _ _ _ Ei1),
      (conn_execute_path _ _ _ _ _ _ _ En), (conn_execute_path _ _ _ _ _ _ _ Eu),
      (conn_execute_path _ _ _ _ _ _ _ Ea).
    unfold conn_path. rewrite Hc, lookup_insert_eq. reflexivity. }
  destruct parse_init_ddl as (_ & _ & Pn).
  pose proof (conn_execute_create _ _ _ _ _ _ _ _ _ _ En Pn) as Hv.
  apply (conn_execute_view _ _ _ _ _ _ _ _ Ei1) in Hv.
  apply (conn_execute_view _ _ _ _ _ _ _ _ Ei2) in Hv.
  apply (conn_execute_view _ _ _ _ _ _ _ _ Ei3) in Hv.
  apply (conn_execute_view _ _ _ _ _ _ _ _ Ei4) in Hv.
  pose proof (conn_commit_file _ _ _ _ _ Em Hp Hv) as Hfile.
  apply (conn_execute_file _ _ _ _ _ _ _ p Et) in Hfile.
  apply fetchone_0_world in Et'. subst wt'.
  apply (conn_execute_file _ _ _ _ _ _ _ p Er) in Hfile.
  apply fetchone_0_world in Er'. subst wr'.
  unfold conn_close in Ez. injection Ez as _ <-. exact Hfile.
Qed.

(** Claim C10, as amended.  The [notes] statement of the SchemaEnsurer
    and that of the Initializer are the same sequence of words, so the
    same statement up to whitespace; after the database section of the
    Initializer has succeeded the file holds a [notes] table, and a run
    of the SchemaEnsurer on it leaves every file, so the [notes] schema,
    as it is, and succeeds when the engine has no fault of its own. *)
Theorem ensure_after_init_db p w stats w1 r w2 :
  InitDb.create_and_seed H p w = (Ok stats, w1) ->
  EnsureNotesSchema.ensure_notes_schema H p w1 = (r, w2) ->
  words (hd [] EnsureNotesSchema.ddl_statements) = words InitDb.notes_ddl
  /\ has_table notes (file_db w1 p)
  /\ w_fs w2 = w_fs w1 /\ file_db w2 p = file_db w1 p
  /\ (w_faults w1 = [] -> r = Ok tt).
Proof.
  intros Hi He. split; [vm_compute; reflexivity|].
  pose proof (create_and_seed_has_notes _ _ _ _ Hi) as Hnotes.
  split; [exact Hnotes|].
  destruct Hnotes as (d & t & Hd & Ht). unfold file_db in Hd.
  destruct (w_fs w1 !! p) as [[| | |d']|] eqn:Ef; try discriminate. injection Hd as ->.
  destruct (ensure_noop H _ _ _ _ _ _ Ef Ht He) as (Hfs & _ & _ & _ & Hq).
  split; [exact Hfs|]. split; [unfold file_db; rewrite Hfs; reflexivity|].
  intros Hnil. apply (Hq Hnil).
Qed.

End InitThenEnsure.

(** Claim C10 fails as stated.  With the whitespace around them taken off, the two
    statements are not the same text: inside, each is indented as its
    script is.  So is the text [sqlite_master] would keep of each. *)
Lemma notes_ddl_not_the_same_text :
  hd [] EnsureNotesSchema.ddl_statements <> strip InitDb.notes_ddl
  /\ stored_sql (hd [] EnsureNotesSchema.ddl_statements) <> stored_sql InitDb.notes_ddl.
Proof.
  split; apply (bool_decide_eq_false_1 _); vm_compute; reflexivity.
Qed.

(** ** Seeding [app_info] *)























(** * Instances *)

(** Claim C3, at the failing input.  The connection-info file is there
    and cannot be read: the resolver of [ensure_notes_schema.py] raises
    the error of [open], and the process of its [main] ends on it with
    status 1, where the resolver of [init_db.py] answers [myapp.db]. *)
Theorem ensure_resolver_raises_on_unreadable_file :
  EnsureNotesSchema._get_db_path_from_connection_file sidecar unreadable_world
  = (Raise (OSError (lit "Permission denied")), unreadable_world)
  /\ InitDb._get_db_path_from_connection_file sidecar unreadable_world
     = (Ok (lit "myapp.db"), unreadable_world)
  /\ fst (run (EnsureNotesSchema.main plain_host) unreadable_world) = 1%Z.
Proof. vm_compute. repeat split; reflexivity. Qed.

(** Claim C2 fails as stated.  In this file no line matches
    [# File path: <value>], so the specification's resolver answers
    [myapp.db]; the resolvers of the code answer [/tmp/x.db], because the
    whitespace between [#] and [File path:] may be a line break. *)
Lemma resolver_marker_across_lines :
  first_some spec_line_value (split_lines (universal_newlines split_marker_text)) = None
  /\ spec_resolve (Some (universal_newlines split_marker_text)) = lit "myapp.db"
  /\ EnsureNotesSchema._get_db_path_from_connection_file sidecar split_marker_world
     = (Ok (lit "/tmp/x.db"), split_marker_world)
  /\ InitDb._get_db_path_from_connection_file sidecar split_marker_world
     = (Ok (lit "/tmp/x.db"), split_marker_world)
  /\ EnsureNotesSchema._get_db_path_from_connection_file sidecar split_marker_world
     <> (Ok (spec_resolve (Some (universal_newlines split_marker_text))), split_marker_world).
Proof.
  split; [vm_compute; reflexivity|]. split; [vm_compute; reflexivity|].
  split; [vm_compute; reflexivity|]. split; [vm_compute; reflexivity|].
  intros Heq. apply (f_equal fst) in Heq. vm_compute in Heq. discriminate Heq.
Qed.


Section ExitStatus.
Variable H : host.
End ExitStatus.


(** An instance of claim C1: a first run on an empty directory, then three more. *)
Lemma ensure_notes_schema_idempotent_witness :
  let ensure := EnsureNotesSchema.ensure_notes_schema plain_host myapp_db in
  let w1 := snd (ensure empty_world) in
  let after := run_times 3 ensure w1 in
  ensure empty_world = (Ok tt, w1)
  /\ has_table notes (file_db w1 myapp_db)
  /\ w_fs (snd after) = w_fs w1
  /\ fst after = [Ok tt; Ok tt; Ok tt].
Proof.
  cbv zeta.
  destruct (ensure_notes_schema_idempotent plain_host myapp_db empty_world
              (snd (EnsureNotesSchema.ensure_notes_schema plain_host myapp_db empty_world)) 3
              (fst (run_times 3 (EnsureNotesSchema.ensure_notes_schema plain_host myapp_db)
                      (snd (EnsureNotesSchema.ensure_notes_schema plain_host myapp_db
                              empty_world))))
              (snd (run_times 3 (EnsureNotesSchema.ensure_notes_schema plain_host myapp_db)
                      (snd (EnsureNotesSchema.ensure_notes_schema plain_host myapp_db
                              empty_world)))))
    as (Hn & Hfs & _ & _ & Hq).
  - vm_compute. reflexivity.
  - vm_compute. reflexivity.
  - split; [vm_compute; reflexivity|]. split; [exact Hn|]. split; [exact Hfs|].
    vm_compute. reflexivity.
Defined.

(** An instance of claim C2, as amended: of two matching lines the first is taken,
    and its value is trimmed. *)
Lemma resolver_first_matching_line_witness :
  EnsureNotesSchema._get_db_path_from_connection_file sidecar two_paths_world
  = (Ok (lit "/tmp/x.db"), two_paths_world)
  /\ InitDb._get_db_path_from_connection_file sidecar two_paths_world
     = (Ok (lit "/tmp/x.db"), two_paths_world).
Proof.
  refine (resolver_first_matching_line sidecar two_paths_world (Some two_paths_text) _ _).
  - vm_compute. reflexivity.
  - vm_compute. repeat constructor.
Defined.

(** An instance of claim C5: the engine fails on the DDL statement. *)
Lemma ensure_failure_exits_witness :
  fst (run (EnsureNotesSchema.main plain_host) failing_ddl_world) = 1%Z
  /\ w_stderr (snd (run (EnsureNotesSchema.main plain_host) failing_ddl_world))
     = [[10007] ++ lit " failed to ensure notes schema: disk I/O error"].
Proof.
  destruct (ensure_failure_exits plain_host myapp_db failing_ddl_world failing_ddl_world
              (Raise (SqliteError (lit "disk I/O error")))
              (snd (EnsureNotesSchema.ensure_notes_schema plain_host myapp_db
                      (set_stdout (w_stdout failing_ddl_world
                                     ++ [lit "Using SQLite DB: " ++ myapp_db])
                         failing_ddl_world))))
    as (_ & _ & ->).
  - vm_compute. reflexivity.
  - vm_compute. reflexivity.
  - split; vm_compute; reflexivity.
Defined.


(** An instance of claim C7: the Initializer in an empty directory. *)
Lemma init_db_fresh_statistics_witness :
  exists w',
    run (InitDb.script plain_host) empty_world = (0%Z, w')
    /\ In (lit "  Tables: 3") (w_stdout w')
    /\ In (lit "  App info records: 4") (w_stdout w').
Proof.
  destruct (init_db_fresh_statistics plain_host empty_world myapp_db (started empty_world))
    as (w1 & w2 & d & t & w' & _ & _ & _ & _ & _ & _ & Hrun & Ht & Ha).
  - vm_compute. reflexivity.
  - reflexivity.
  - reflexivity.
  - reflexivity.
  - left. reflexivity.
  - exists w'. auto.
Defined.


(** An instance of claim C9: the DDL statement fails and the connection is closed. *)
Lemma ensure_closes_connection_witness :
  let w1 := snd (sqlite3_connect plain_host myapp_db failing_ddl_world) in
  let w' := snd (EnsureNotesSchema.ensure_notes_schema plain_host myapp_db failing_ddl_world) in
  fst (EnsureNotesSchema.ensure_notes_schema plain_host myapp_db failing_ddl_world)
  = Raise (SqliteError (lit "disk I/O error"))
  /\ is_Some (w_conns w1 !! 0%nat) /\ w_conns w' !! 0%nat = None
  /\ w_conns w' = w_conns failing_ddl_world.
Proof.
  cbv zeta. split; [vm_compute; reflexivity|].
  refine (ensure_closes_connection plain_host myapp_db failing_ddl_world 0%nat
            (snd (sqlite3_connect plain_host myapp_db failing_ddl_world))
            (Raise (SqliteError (lit "disk I/O error")))
            (snd (EnsureNotesSchema.ensure_notes_schema plain_host myapp_db failing_ddl_world))
            _ _).
  - vm_compute. reflexivity.
  - vm_compute. reflexivity.
Defined.

(** An instance of claim C10, as amended. *)
Lemma ensure_after_init_db_witness :
  let w1 := snd (InitDb.create_and_seed plain_host myapp_db empty_world) in
  let w2 := snd (EnsureNotesSchema.ensure_notes_schema plain_host myapp_db w1) in
  has_table notes (file_db w1 myapp_db) /\ w_fs w2 = w_fs w1.
Proof.
  cbv zeta.
  destruct (ensure_after_init_db plain_host myapp_db empty_world (CInt 3, CInt 4)
              (snd (InitDb.create_and_seed plain_host myapp_db empty_world))
              (Ok tt)
              (snd (EnsureNotesSchema.ensure_notes_schema plain_host myapp_db
                      (snd (InitDb.create_and_seed plain_host myapp_db empty_world)))))
    as (_ & Hn & Hfs & _ & _).
  - vm_compute. reflexivity.
  - vm_compute. reflexivity.
  - split; assumption.
Defined.

(** * Further properties of the two scripts *)

(** ** The two copies of the path resolver *)

(** What the SchemaEnsurer's resolver answers, by the file it finds. *)
Lemma ensure_resolver_eq cf w :
  EnsureNotesSchema._get_db_path_from_connection_file cf w
  = match w_fs w !! cf with
    | None => (Ok (lit "myapp.db"), w)
    | Some _ =>
        match read_text cf w with
        | (Ok t, _) => (Ok (resolve_text t), w)
        | (Raise e, _) => (Raise e, w)
        end
    end.
Proof.
  destruct (w_fs w !! cf) as [n|] eqn:Hf.
  - destruct n as [|t|why|d].
    + unfold EnsureNotesSchema._get_db_path_from_connection_file, bind, os_path_exists,
        read_text. rewrite Hf. cbn [negb]. cbv beta iota. rewrite Hf. reflexivity.
    + unfold read_text. rewrite Hf. apply (resolvers_text cf w t Hf).
    + unfold EnsureNotesSchema._get_db_path_from_connection_file, bind, os_path_exists,
        read_text. rewrite Hf. cbn [negb]. cbv beta iota. rewrite Hf.
      destruct why; reflexivity.
    + unfold EnsureNotesSchema._get_db_path_from_connection_file, bind, os_path_exists,
        read_text. rewrite Hf. cbn [negb]. cbv beta iota. rewrite Hf. reflexivity.
  - apply (resolvers_absent cf w Hf).
Qed.

Lemma ensure_resolver_outcome cf w r w' :
  EnsureNotesSchema._get_db_path_from_connection_file cf w = (r, w') ->
  w' = w
  /\ match r with
     | Ok p => InitDb._get_db_path_from_connection_file cf w = (Ok p, w)
     | Raise e =>
         is_sqlite_error e = false /\ is_Exception e = true
         /\ (exists n, w_fs w !! cf = Some n /\ forall t, n <> TextFile t)
         /\ InitDb._get_db_path_from_connection_file cf w = (Ok InitDb.DB_NAME, w)
     end.
Proof.
  rewrite ensure_resolver_eq, init_resolver_eq. unfold read_text.
  destruct (w_fs w !! cf) as [n|] eqn:Hf.
  - destruct n as [|t|why|d]; intros E.
    + injection E as <- <-. cbn. repeat split; eauto.
    + injection E as <- <-. split; reflexivity.
    + destruct why; injection E as <- <-; cbn; repeat split; eauto.
    + injection E as <- <-. cbn. repeat split; eauto.
  - intros E. injection E as <- <-. split; reflexivity.
Qed.

(** Property X1.  The resolver of [ensure_notes_schema.py] changes
    nothing, whatever it answers.  When it returns a path, the resolver
    of [init_db.py] returns the same path.  When it raises, the
    connection-info file is there and is no readable text file, the
    exception is of class [Exception] and is no [sqlite3.Error], and the
    resolver of [init_db.py] returns [myapp.db] instead. *)
Theorem resolver_copies_agree cf w r w' :
  EnsureNotesSchema._get_db_path_from_connection_file cf w = (r, w') ->
  w' = w
  /\ match r with
     | Ok p => InitDb._get_db_path_from_connection_file cf w = (Ok p, w)
     | Raise e =>
         is_sqlite_error e = false /\ is_Exception e = true
         /\ (exists n, w_fs w !! cf = Some n /\ forall t, n <> TextFile t)
         /\ InitDb._get_db_path_from_connection_file cf w = (Ok InitDb.DB_NAME, w)
     end.
Proof. apply ensure_resolver_outcome. Qed.

(** ** What the group of the pattern can hold *)

Section CaptureClass.
Variables P Q : N -> Prop.

Lemma star_greedy_class p k :
  captures_within P Q k -> captures_within P Q (star_greedy p k).
Proof.
  intros Hk prev s. revert prev.
  induction s as [|c s IH]; intros prev cap g Hs E; cbn [star_greedy] in E.
  - exact (Hk _ _ _ _ Hs E).
  - destruct (p c); [|exact (Hk _ _ _ _ Hs E)].
    destruct (star_greedy p k (Some c) s cap) as [r|] eqn:E1.
    + simplify_eq. apply (IH _ _ _ (Forall_inv_tail Hs) E1).
    + exact (Hk _ _ _ _ Hs E).
Qed.

Lemma plus_lazy_class p k :
  captures_within P Q k -> (forall c, p c = true -> Q c) ->
  forall s acc prev g, Forall P s -> Forall (fun c => P c /\ Q c) acc ->
    plus_lazy p k acc prev s = Some (Some g) -> Forall (fun c => P c /\ Q c) g.
Proof.
  intros Hk Hp. induction s as [|c s IH]; intros acc prev g Hs Hacc E; cbn [plus_lazy] in E.
  - destruct (k prev [] (Some (rev acc))) as [r|] eqn:E1; [|discriminate].
    simplify_eq. destruct (Hk _ _ _ _ Hs E1) as [Hc|Hg]; [|exact Hg].
    simplify_eq. apply Forall_rev, Hacc.
  - destruct (k prev (c :: s) (Some (rev acc))) as [r|] eqn:E1.
    + simplify_eq. destruct (Hk _ _ _ _ Hs E1) as [Hc|Hg]; [|exact Hg].
      simplify_eq. apply Forall_rev, Hacc.
    + destruct (p c) eqn:Hc; [|discriminate].
      apply (IH (c :: acc) (Some c) g (Forall_inv_tail Hs)); [|exact E].
      constructor; [|exact Hacc]. split; [exact (Forall_inv Hs) | apply Hp, Hc].
Qed.

Lemma match_here_class pat :
  (forall p, In (GroupPlusLazy p) pat -> forall c, p c = true -> Q c) ->
  captures_within P Q (match_here pat).
Proof.
  induction pat as [|a pat IH]; intros Hg.
  - intros prev s cap g _ E. cbn in E. left. congruence.
  - assert (IH' : captures_within P Q (match_here pat))
      by (apply IH; intros p Hp; apply Hg; right; exact Hp).
    destruct a as [| |c|p|p]; cbn [match_here].
    + intros prev s cap g Hs E. destruct (at_bol prev); [exact (IH' _ _ _ _ Hs E)|discriminate].
    + intros prev s cap g Hs E. destruct (at_eol s); [exact (IH' _ _ _ _ Hs E)|discriminate].
    + intros prev s cap g Hs E. destruct s as [|x s]; [discriminate|].
      destruct (x =? c); [|discriminate]. exact (IH' _ _ _ _ (Forall_inv_tail Hs) E).
    + apply star_greedy_class, IH'.
    + intros prev s cap g Hs E. destruct s as [|x s]; [discriminate|].
      destruct (p x) eqn:Hx; [|discriminate]. right.
      assert (Hp : forall c, p c = true -> Q c) by (apply Hg; left; reflexivity).
      apply (plus_lazy_class p _ IH' Hp s [x] (Some x) g (Forall_inv_tail Hs)); [|exact E].
      constructor; [|constructor]. split; [exact (Forall_inv Hs) | apply Hp, Hx].
Qed.

Lemma re_search_from_class pat :
  (forall p, In (GroupPlusLazy p) pat -> forall c, p c = true -> Q c) ->
  forall s prev g, Forall P s -> re_search_from pat prev s = Some (Some g) ->
    Forall (fun c => P c /\ Q c) g.
Proof.
  intros Hg. induction s as [|x s IH]; intros prev g Hs E; cbn [re_search_from] in E.
  - destruct (match_here pat prev [] None) as [r|] eqn:E1; [|discriminate].
    simplify_eq. destruct (match_here_class pat Hg _ _ _ _ Hs E1) as [?|?]; [discriminate|done].
  - destruct (match_here pat prev (x :: s) None) as [r|] eqn:E1.
    + simplify_eq. destruct (match_here_class pat Hg _ _ _ _ Hs E1) as [?|?]; [discriminate|done].
    + apply (IH _ _ (Forall_inv_tail Hs) E).
Qed.

End CaptureClass.

Lemma universal_newlines_no_CR t : Forall (fun c => c <> CR) (universal_newlines t).
Proof.
  induction t as [t IH] using (induction_ltof1 _ (@length N)). unfold ltof in IH.
  destruct t as [|c t]; [constructor|]. cbn [universal_newlines].
  destruct (N.eqb_spec c CR) as [->|Hc].
  - constructor; [discriminate|]. destruct t as [|c' t]; [constructor|].
    destruct (c' =? LF); apply IH; cbn; lia.
  - constructor; [exact Hc|]. apply IH. cbn; lia.
Qed.

Lemma rstrip_Forall (P : N -> Prop) l : Forall P l -> Forall P (rstrip l).
Proof.
  induction 1 as [|c l Hc Hl IH]; cbn [rstrip]; [constructor|].
  destruct (is_space c && forallb is_space l); [constructor|]. constructor; assumption.
Qed.

Lemma strip_Forall (P : N -> Prop) l : Forall P l -> Forall P (strip l).
Proof. intros Hl. apply rstrip_Forall, lstrip_Forall, Hl. Qed.

Lemma resolve_text_line t :
  strip (resolve_text (universal_newlines t)) = resolve_text (universal_newlines t)
  /\ Forall (fun c => c <> LF /\ c <> CR) (resolve_text (universal_newlines t)).
Proof.
  unfold resolve_text.
  destruct (re_search file_path_re (universal_newlines t)) as [[g|]|] eqn:E;
    [|split; [reflexivity | repeat constructor; discriminate]..].
  split; [apply strip_idem|]. apply strip_Forall.
  apply (re_search_from_class (fun c => c <> CR) (fun c => c <> LF) file_path_re) in E.
  - eapply Forall_impl; [exact E|]. intros c [? ?]; split; assumption.
  - intros p Hp c Hc. cbn in Hp.
    repeat (destruct Hp as [Hp|Hp]; [try discriminate Hp|]); [|destruct Hp].
    injection Hp as <-. unfold dot in Hc. intros ->. discriminate Hc.
  - apply universal_newlines_no_CR.
Qed.

(** Property X2.  Whatever the connection-info file holds, a path that
    either resolver returns has no whitespace at its ends and no line
    break in it (no line feed, and no carriage return, which reading the
    file turns into a line feed). *)
Theorem resolved_path_is_a_trimmed_line cf w p w' :
  EnsureNotesSchema._get_db_path_from_connection_file cf w = (Ok p, w')
  \/ InitDb._get_db_path_from_connection_file cf w = (Ok p, w') ->
  strip p = p /\ Forall (fun c => c <> LF /\ c <> CR) p.
Proof.
  assert (Hd : strip (lit "myapp.db") = lit "myapp.db"
               /\ Forall (fun c => c <> LF /\ c <> CR) (lit "myapp.db")).
  { split; [reflexivity | repeat constructor; discriminate]. }
  intros [E|E].
  - rewrite ensure_resolver_eq in E. unfold read_text in E.
    destruct (w_fs w !! cf) as [[|t|[]|d]|]; try discriminate E; injection E as <- <-;
      [apply resolve_text_line | exact Hd].
  - rewrite init_resolver_eq in E. injection E as <- <-.
    destruct (w_fs w !! cf) as [[|t|why|d]|]; try exact Hd. apply resolve_text_line.
Qed.

(** ** A marker line without a value *)

Lemma join_cons sep (l : text) ls :
  ls <> [] -> join sep (l :: ls) = l ++ sep ++ join sep ls.
Proof. destruct ls; [congruence | reflexivity]. Qed.

(** A value of blanks only: the greedy [\s*] gives its last blank back to
    the group. *)
Lemma match_blank_value v prev cap :
  v <> [] -> forallb is_space v = true -> Forall (fun c => c <> LF) v ->
  exists x, is_space x = true /\ match_here value_re prev v cap = Some (Some [x]).
Proof.
  intros Hne Hsp Hv. revert prev.
  induction v as [|c v IH]; intros prev; [congruence|].
  cbn [forallb] in Hsp. apply andb_prop in Hsp as [Hc Hsp].
  inversion Hv as [|? ? HcLF Hv']; subst.
  unfold value_re. cbn [match_here star_greedy]. rewrite Hc.
  destruct v as [|c' v].
  - exists c. split; [exact Hc|]. cbn [star_greedy match_here].
    unfold dot. destruct (N.eqb_spec c LF) as [|_]; [contradiction|]. cbn [negb].
    change (star_greedy is_space (match_here [Eol])) with (match_here [Star is_space; Eol]).
    rewrite plus_lazy_dot. reflexivity.
  - destruct (IH ltac:(discriminate) Hsp Hv' (Some c)) as [x [Hx E]].
    exists x. split; [exact Hx|]. unfold value_re in E. cbn [match_here] in E.
    rewrite E. reflexivity.
Qed.

(** Lines that do not carry the marker are passed over. *)
Lemma search_inert_lines l ls prev :
  at_bol prev = true ->
  Forall (Forall (fun c => c <> LF)) ls ->
  Forall (fun l0 => spec_line_value l0 = None /\ dangling_marker l0 = false) ls ->
  exists prev', at_bol prev' = true
    /\ re_search_from file_path_re prev (join [LF] (ls ++ [l]))
       = re_search_from file_path_re prev' l.
Proof.
  intros Hbol Hls Hin. revert prev Hbol.
  induction ls as [|l0 ls IH]; intros prev Hbol.
  - exists prev. split; [exact Hbol | reflexivity].
  - inversion Hls as [|? ? Hl0 Hls']; subst. inversion Hin as [|? ? [Hv Hd] Hin']; subst.
    destruct (IH Hls' Hin' (Some LF) eq_refl) as [prev' [Hb' E]].
    exists prev'. split; [exact Hb'|]. rewrite <- E.
    change ((l0 :: ls) ++ [l]) with (l0 :: (ls ++ [l])).
    rewrite join_cons by (destruct ls; discriminate).
    change (l0 ++ [LF] ++ ?r) with (l0 ++ LF :: r).
    rewrite (search_line _ _ _ Hl0).
    destruct (lstrip l0) eqn:El.
    + rewrite (match_blank_line _ _ _ Hbol (lstrip_nil_all_space _ El)).
      generalize (search_unfold (Some LF) (join [LF] (ls ++ [l]))).
      destruct (match_here file_path_re (Some LF) _ None); intros E1;
        [symmetry; exact E1 | reflexivity].
    + rewrite (match_line l0 (LF :: join [LF] (ls ++ [l])) prev Hbol Hl0 eq_refl)
        by (congruence || assumption).
      rewrite Hv. reflexivity.
Qed.

Lemma forallb_app_inv {A} (f : A -> bool) l1 l2 :
  forallb f (l1 ++ l2) = true -> forallb f l1 = true /\ forallb f l2 = true.
Proof. rewrite forallb_app. apply andb_prop. Qed.

(** Property X3.  The last line of the connection-info file is the marker
    [# File path:] followed by blanks only, at least one, and no line
    before it carries the marker: both resolvers return the empty string,
    not [myapp.db].  The greedy [\s*] before the group gives the last
    blank back to the group, and [strip] then leaves nothing. *)
Theorem blank_value_resolves_to_empty_path cf w ls indent gap v :
  let l := indent ++ lit "#" ++ gap ++ marker ++ v in
  let t := join [LF] (ls ++ [l]) in
  w_fs w !! cf = Some (TextFile t) ->
  Forall (fun c => c <> CR) t ->
  Forall (Forall (fun c => c <> LF)) (ls ++ [l]) ->
  Forall (fun l0 => spec_line_value l0 = None /\ dangling_marker l0 = false) ls ->
  forallb is_space (indent ++ gap ++ v) = true ->
  v <> [] ->
  EnsureNotesSchema._get_db_path_from_connection_file cf w = (Ok [], w)
  /\ InitDb._get_db_path_from_connection_file cf w = (Ok [], w).
Proof.
  intros l t Hf HCR HLF Hin Hsp Hne.
  apply forallb_app_inv in Hsp as [Hi Hsp]. apply forallb_app_inv in Hsp as [Hg Hv].
  apply Forall_app in HLF as [Hls Hl]. apply Forall_inv in Hl.
  assert (HvLF : Forall (fun c => c <> LF) v).
  { unfold l in Hl. rewrite !Forall_app in Hl. tauto. }
  assert (E : resolve_text (universal_newlines t) = []).
  { rewrite (universal_newlines_id _ HCR). unfold resolve_text, re_search, t.
    destruct (search_inert_lines l ls None eq_refl Hls Hin) as [prev [Hb ->]].
    rewrite (search_last_line _ _ Hl), match_file_path_re, Hb.
    unfold l. rewrite (lstrip_app_space _ _ Hi).
    change (lstrip (lit "#" ++ gap ++ marker ++ v)) with (35 :: gap ++ marker ++ v).
    cbn iota. change (35 =? 35) with true. cbn iota.
    rewrite (lstrip_app_space _ _ Hg).
    change (after_prefix marker (lstrip (marker ++ v))) with (Some v). cbn iota.
    destruct (match_blank_value v None None Hne Hv HvLF) as [x [Hx ->]].
    unfold strip. cbn [lstrip]. rewrite Hx. reflexivity. }
  rewrite <- E. apply (resolvers_text cf w t Hf).
Qed.

(** ** The engine on one connection, a call at a time *)

Lemma same_but_refl p h w : same_but p h w w.
Proof. repeat split; reflexivity. Qed.

Lemma same_but_trans p h w1 w2 w3 :
  same_but p h w1 w2 -> same_but p h w2 w3 -> same_but p h w1 w3.
Proof.
  intros (F1 & C1 & O1 & E1) (F2 & C2 & O2 & E2).
  repeat split; try congruence. intros q Hq. rewrite (F2 q Hq). apply F1, Hq.
Qed.

Lemma engine_fault_same p h w r w0 : engine_fault w = (r, w0) -> same_but p h w w0.
Proof.
  intros Ef. destruct (engine_fault_frame _ _ _ Ef) as (Hfs & Hcs & Ho & He).
  repeat split; congruence.
Qed.

Lemma same_but_fs p h w d :
  same_but p h w (set_fs (<[p := DbFile d]> (w_fs w)) w).
Proof.
  repeat split; try reflexivity. intros q Hq. simpl. apply lookup_insert_ne. congruence.
Qed.

Lemma same_but_conns p h w c :
  same_but p h w (set_conns (<[h := c]> (w_conns w)) w).
Proof.
  repeat split; try reflexivity. simpl. apply delete_insert_eq.
Qed.

Section Steps.
Variable H : host.

(** [sqlite3.connect]: one more connection, and a new empty file when
    there was none. *)
Lemma connect_step p w h w1 :
  sqlite3_connect H p w = (Ok h, w1) ->
  w_conns w !! h = None
  /\ w_conns w1 !! h = Some {| c_path := p; c_txn := None |}
  /\ same_but p h w w1
  /\ match w_fs w !! p with
     | None => w_fs w1 !! p = Some (DbFile []) /\ h_readonly H p = false
     | Some n => w_fs w1 !! p = Some n
     end.
Proof.
  intros Hc. destruct (sqlite3_connect_conns H _ _ _ _ Hc) as [Hfree Hcs].
  split; [exact Hfree|]. split; [rewrite Hcs; apply lookup_insert_eq|].
  unfold sqlite3_connect, bind in Hc.
  destruct (engine_fault w) as [[[]|e] w0] eqn:Ef; [|discriminate].
  pose proof (engine_fault_same p h _ _ _ Ef) as Hs.
  destruct (engine_fault_frame _ _ _ Ef) as (Hfs & _).
  rewrite <- Hfs. clear Ef Hfs Hcs.
  unfold new_conn in Hc.
  destruct (w_fs w0 !! p) as [[| | |]|] eqn:Ep; try discriminate.
  - injection Hc as <- <-. split; [|exact Ep].
    eapply same_but_trans; [exact Hs | apply same_but_conns].
  - injection Hc as <- <-. split; [|exact Ep].
    eapply same_but_trans; [exact Hs | apply same_but_conns].
  - destruct (h_readonly H p) eqn:Hrw; [discriminate|]. injection Hc as <- <-.
    split; [|split; [simpl; apply lookup_insert_eq | reflexivity]].
    eapply same_but_trans; [exact Hs|].
    eapply same_but_trans; [apply (same_but_fs p _ _ [])|]. simpl.
    apply (same_but_conns p _ (set_fs _ w0)).
Qed.

Lemma connect_fail p w e w1 :
  sqlite3_connect H p w = (Raise e, w1) ->
  w_fs w1 = w_fs w /\ w_conns w1 = w_conns w
  /\ w_stdout w1 = w_stdout w /\ w_stderr w1 = w_stderr w.
Proof.
  unfold sqlite3_connect, bind, engine_fault, new_conn.
  repeat case_match; intros ?; simplify_eq; done.
Qed.

Lemma at_session_frame w w0 p h d txn :
  w_fs w0 = w_fs w -> w_conns w0 = w_conns w ->
  at_session w p h d txn -> at_session w0 p h d txn.
Proof. unfold at_session. intros -> ->. trivial. Qed.

(** A statement that reads the file, on a session. *)
Lemma execute_step h sql params st w p d txn r w' :
  at_session w p h d txn -> parse_sql sql = Some st -> reads_file st = true ->
  conn_execute H h sql params w = (r, w') ->
  same_but p h w w'
  /\ match r with
     | Raise e => at_session w' p h d txn
     | Ok rows =>
         exists od, exec_stmt (h_now H) st params (default d txn) = inr (od, rows)
           /\ match od with
              | None => at_session w' p h d txn
              | Some d' =>
                  h_readonly H p = false
                  /\ if is_dml st || in_txn txn
                     then at_session w' p h d (Some d')
                     else at_session w' p h d' txn
              end
     end.
Proof.
  intros Hs Hp Hr Hx. unfold conn_execute, bind in Hx.
  destruct (engine_fault w) as [[[]|e] w0] eqn:Ef.
  2:{ injection Hx as <- <-. split; [eapply engine_fault_same, Ef|].
      destruct (engine_fault_frame _ _ _ Ef) as (Hfs & Hcs & _).
      eapply at_session_frame; eassumption. }
  pose proof (engine_fault_same p h _ _ _ Ef) as Hsame.
  destruct (engine_fault_frame _ _ _ Ef) as (Hfs & Hcs & _).
  apply (at_session_frame _ _ _ _ _ _ Hfs Hcs) in Hs. clear Ef Hfs Hcs.
  destruct Hs as [Hc Hf]. rewrite Hc, Hp, Hr in Hx. cbn [negb c_path c_txn] in Hx.
  rewrite Hf in Hx.
  destruct (exec_stmt (h_now H) st params (default d txn)) as [msg|[[d'|] rows]] eqn:Ex.
  - injection Hx as <- <-. split; [exact Hsame | split; assumption].
  - destruct (h_readonly H p) eqn:Hrw.
    { injection Hx as <- <-. split; [exact Hsame | split; assumption]. }
    replace (bool_decide (is_Some txn)) with (in_txn txn) in Hx by (destruct txn; reflexivity).
    destruct (is_dml st || in_txn txn) eqn:Eb; injection Hx as <- <-.
    + split; [eapply same_but_trans; [exact Hsame | apply same_but_conns]|].
      exists (Some d'). split; [reflexivity|]. split; [reflexivity|].
      split; simpl; [apply lookup_insert_eq | exact Hf].
    + split; [eapply same_but_trans; [exact Hsame | apply same_but_fs]|].
      exists (Some d'). split; [reflexivity|]. split; [reflexivity|].
      split; simpl; [exact Hc | apply lookup_insert_eq].
  - injection Hx as <- <-. split; [exact Hsame|].
    exists None. split; [reflexivity | split; assumption].
Qed.

(** A statement that reads the file, on a file that is not a database. *)
Lemma execute_not_db h sql params st w p txn r w' :
  w_conns w !! h = Some {| c_path := p; c_txn := txn |} ->
  (forall d, w_fs w !! p <> Some (DbFile d)) ->
  parse_sql sql = Some st -> reads_file st = true ->
  conn_execute H h sql params w = (r, w') ->
  exists e, r = Raise e /\ w_fs w' = w_fs w /\ w_conns w' = w_conns w
    /\ w_stdout w' = w_stdout w /\ w_stderr w' = w_stderr w.
Proof.
  intros Hc Hf Hp Hr Hx. unfold conn_execute, bind in Hx.
  destruct (engine_fault w) as [[[]|e] w0] eqn:Ef.
  2:{ injection Hx as <- <-. exists e. split; [reflexivity|].
      exact (engine_fault_frame _ _ _ Ef). }
  destruct (engine_fault_frame _ _ _ Ef) as (Hfs & Hcs & Ho & He).
  rewrite Hcs, Hc, Hp, Hr in Hx. cbn [negb c_path c_txn] in Hx. rewrite Hfs in Hx.
  destruct (w_fs w !! p) as [[| | |d]|] eqn:Ep; try (exfalso; eapply Hf; reflexivity);
    injection Hx as <- <-; eexists; (split; [reflexivity|]); auto.
Qed.

Lemma commit_step h w p d txn r w' :
  at_session w p h d txn -> conn_commit h w = (r, w') ->
  same_but p h w w'
  /\ match r with
     | Ok _ => at_session w' p h (default d txn) None
     | Raise _ => at_session w' p h d txn
     end.
Proof.
  intros Hs Hx. unfold conn_commit, bind in Hx.
  destruct (engine_fault w) as [[[]|e] w0] eqn:Ef.
  2:{ injection Hx as <- <-. split; [eapply engine_fault_same, Ef|].
      destruct (engine_fault_frame _ _ _ Ef) as (Hfs & Hcs & _).
      eapply at_session_frame; eassumption. }
  pose proof (engine_fault_same p h _ _ _ Ef) as Hsame.
  destruct (engine_fault_frame _ _ _ Ef) as (Hfs & Hcs & _).
  apply (at_session_frame _ _ _ _ _ _ Hfs Hcs) in Hs. clear Ef Hfs Hcs.
  destruct Hs as [Hc Hf]. rewrite Hc in Hx. cbn [c_path c_txn] in Hx.
  destruct txn as [d'|]; injection Hx as <- <-.
  - split.
    + eapply same_but_trans; [exact Hsame|].
      eapply same_but_trans; [apply (same_but_fs p h _ d')|].
      apply (same_but_conns p h (set_fs _ w0)).
    + split; simpl; apply lookup_insert_eq.
  - split; [exact Hsame | split; assumption].
Qed.

Lemma close_step p h w w0 :
  w_conns w0 !! h = None -> same_but p h w0 w ->
  w_conns (closed h w) = w_conns w0
  /\ (forall q, q <> p -> w_fs (closed h w) !! q = w_fs w0 !! q)
  /\ w_stdout (closed h w) = w_stdout w0 /\ w_stderr (closed h w) = w_stderr w0.
Proof.
  intros Hfree (Hf & Hc & Ho & He). simpl.
  split; [rewrite Hc; apply delete_id, Hfree|]. auto.
Qed.

End Steps.

(** ** What [ensure_notes_schema] does to the database *)


Section Ensure.
Variable H : host.


End Ensure.

Section EnsureResults.
Variable H : host.







(** Property X7.  The resolved path names a file, has none and lies where
    nothing can be created: [main] prints the path, [sqlite3.connect]
    fails, [main] prints the error on the error stream and exits with
    status 1, and no file is made. *)
Theorem ensure_read_only_location p w w0 :
  EnsureNotesSchema._get_db_path_from_connection_file sidecar w = (Ok p, w0) ->
  file_name p = true ->
  w_fs w !! p = None -> h_readonly H p = true -> w_faults w = [] ->
  run (EnsureNotesSchema.main H) w
  = (1%Z,
     set_stderr (w_stderr w ++ [[10007] ++ lit " failed to ensure notes schema: "
                                        ++ lit "unable to open database file"])
       (set_stdout (w_stdout w ++ [lit "Using SQLite DB: " ++ p]) w)).
Proof.
  intros Hres _ Hf Hrw Hq.
  destruct (ensure_resolver_outcome _ _ _ _ Hres) as [-> _].
  rewrite (main_run H _ _ _ Hres), ensure_notes_schema_unfold.
  unfold sqlite3_connect, bind. rewrite engine_fault_none by exact Hq.
  cbn [w_fs set_stdout]. rewrite Hf, Hrw. reflexivity.
Qed.

(** Property X8.  When the resolver of [ensure_notes_schema.py] raises,
    on a connection-info file that cannot be read, [main] catches
    nothing: the exception leaves [main] as it is, no [sqlite3.Error],
    nothing is printed, no file and no connection is touched, and the
    process ends with status 1. *)
Theorem main_read_error_escapes w e w0 :
  EnsureNotesSchema._get_db_path_from_connection_file sidecar w = (Raise e, w0) ->
  EnsureNotesSchema.main H w = (Raise e, w)
  /\ is_sqlite_error e = false
  /\ fst (run (EnsureNotesSchema.main H) w) = 1%Z.
Proof.
  intros Hres. destruct (ensure_resolver_outcome _ _ _ _ Hres) as [-> (Hs & Hx & _)].
  assert (Hm : EnsureNotesSchema.main H w = (Raise e, w)).
  { unfold EnsureNotesSchema.main, bind at 1. change (lit "db_connection.txt") with sidecar.
    rewrite Hres. reflexivity. }
  split; [exact Hm|]. split; [exact Hs|]. unfold run. rewrite Hm.
  destruct e; try reflexivity; discriminate.
Qed.

End EnsureResults.

(** ** The statements of the Initializer, a call at a time *)

Lemma run_sqls_snoc now l sql params d :
  run_sqls now (l ++ [(sql, params)]) d
  = match run_sqls now l d with
    | Some d' => run_sql now sql params d'
    | None => None
    end.
Proof.
  revert d. induction l as [|[s ps] l IH]; intros d; cbn [app run_sqls].
  - destruct (run_sql now sql params d); reflexivity.
  - destruct (run_sql now s ps d); [apply IH | reflexivity].
Qed.

Lemma run_sqls_take_S now l k sql params d dk d' :
  l !! k = Some (sql, params) ->
  run_sqls now (take k l) d = Some dk -> run_sql now sql params dk = Some d' ->
  run_sqls now (take (S k) l) d = Some d'.
Proof.
  intros Hl Hk Hs. rewrite (take_S_r _ _ _ Hl), run_sqls_snoc, Hk. exact Hs.
Qed.

Section SeedSteps.
Variable H : host.

Lemma ddl_step h sql params n s a w p d r w' :
  at_session w p h d None -> parse_sql sql = Some (CreateTableIfNotExists n s a) ->
  conn_execute H h sql params w = (r, w') ->
  same_but p h w w'
  /\ match r with
     | Raise _ => at_session w' p h d None
     | Ok _ => exists d1, run_sql (h_now H) sql params d = Some d1 /\ at_session w' p h d1 None
     end.
Proof.
  intros Hs Hp Hx.
  destruct (execute_step H _ _ _ _ _ _ _ _ _ _ Hs Hp eq_refl Hx) as [Hsame Hr].
  split; [exact Hsame|]. destruct r as [rows|e]; [|exact Hr].
  destruct Hr as (od & Hexec & Hod). unfold run_sql. rewrite Hp.
  cbn [default] in Hexec. rewrite Hexec. destruct od as [d'|].
  - exists d'. split; [reflexivity | apply Hod].
  - exists d. split; [reflexivity | exact Hod].
Qed.

Lemma insert_step h params w p d txn r w' :
  at_session w p h d txn ->
  conn_execute H h sql_insert_app_info params w = (r, w') ->
  same_but p h w w'
  /\ match r with
     | Raise _ => at_session w' p h d txn
     | Ok _ => exists d1, run_sql (h_now H) sql_insert_app_info params (default d txn) = Some d1
                 /\ at_session w' p h d (Some d1)
     end.
Proof.
  intros Hs Hx. destruct parse_others as (_ & Pi & _).
  destruct (execute_step H _ _ _ _ _ _ _ _ _ _ Hs Pi eq_refl Hx) as [Hsame Hr].
  split; [exact Hsame|]. destruct r as [rows|e]; [|exact Hr].
  destruct Hr as (od & Hexec & Hod). unfold run_sql. rewrite Pi, Hexec.
  destruct od as [d'|].
  - exists d'. split; [reflexivity | apply Hod].
  - exfalso. cbn [exec_stmt] in Hexec. repeat case_match; discriminate.
Qed.

Lemma select_step h sql st w p d txn r w' :
  at_session w p h d txn -> parse_sql sql = Some st ->
  st = SelectCountUserTables \/ (exists tbl, st = SelectCount tbl) ->
  conn_execute H h sql [] w = (r, w') ->
  same_but p h w w' /\ at_session w' p h d txn
  /\ forall rows, r = Ok rows -> exec_stmt (h_now H) st [] (default d txn) = inr (None, rows).
Proof.
  intros Hs Hp Hst Hx.
  assert (Hrf : reads_file st = true) by (destruct Hst as [->|[tbl ->]]; reflexivity).
  destruct (execute_step H _ _ _ _ _ _ _ _ _ _ Hs Hp Hrf Hx) as [Hsame Hr].
  split; [exact Hsame|]. destruct r as [rows|e].
  - destruct Hr as (od & Hexec & Hod).
    assert (od = None) as ->.
    { destruct Hst as [->|[tbl ->]]; cbn [exec_stmt] in Hexec;
        repeat case_match; simplify_eq; reflexivity. }
    split; [exact Hod|]. intros rows' [= <-]. exact Hexec.
  - split; [exact Hr | discriminate].
Qed.

End SeedSteps.

Section SeedTrace.
Variable H : host.

(** The database section of the Initializer once it has its connection,
    a call of the engine at a time. *)
Lemma seed_trace p w h wc d r w' :
  sqlite3_connect H p w = (Ok h, wc) -> at_session wc p h d None ->
  InitDb.create_and_seed H p w = (r, w') ->
  same_but p h wc w'
  /\ match r with
     | Ok (tc, rc) =>
         exists d7 t,
           run_sqls (h_now H) init_statements d = Some d7
           /\ find_table app_info d7 = Some t
           /\ tc = CInt (count_user_tables d7)
           /\ rc = CInt (Z.of_nat (length (t_rows t)))
           /\ w_fs w' !! p = Some (DbFile d7)
           /\ w_conns w' !! h = None
     | Raise e =>
         is_sqlite_error e = true
         /\ exists k dk txn,
              (k <= 3 \/ k = 7)%nat
              /\ run_sqls (h_now H) (take k init_statements) d = Some dk
              /\ at_session w' p h dk txn
     end.
Proof.
  intros Ec Hs0 Hrun.
  destruct parse_init_ddl as (Pa & Pu & Pn).
  destruct parse_others as (_ & Pi & Pc & Pr).
  assert (R0 : run_sqls (h_now H) (take 0 init_statements) d = Some d) by reflexivity.
  unfold InitDb.create_and_seed in Hrun. unfold bind at 1 in Hrun. rewrite Ec in Hrun.
  cbv zeta in Hrun.
  (* app_info *)
  unfold bind at 1 in Hrun.
  destruct (conn_execute H h InitDb.app_info_ddl [] wc) as [[rows1|e1] w1] eqn:E1.
  2:{ injection Hrun as <- <-. destruct (ddl_step H _ _ _ _ _ _ _ _ _ _ _ Hs0 Pa E1) as [S1 A1].
      split; [exact S1|]. split; [eapply conn_execute_sqlite, E1|].
      exists 0%nat, d, None. split; [lia|]. split; assumption. }
  destruct (ddl_step H _ _ _ _ _ _ _ _ _ _ _ Hs0 Pa E1) as (S1 & d1 & Q1 & A1).
  pose proof (run_sqls_take_S _ init_statements 0 _ _ _ _ _ eq_refl R0 Q1) as R1.
  (* users *)
  unfold bind at 1 in Hrun.
  destruct (conn_execute H h InitDb.users_ddl [] w1) as [[rows2|e2] w2] eqn:E2.
  2:{ injection Hrun as <- <-. destruct (ddl_step H _ _ _ _ _ _ _ _ _ _ _ A1 Pu E2) as [S2 A2].
      split; [eapply same_but_trans; eassumption|]. split; [eapply conn_execute_sqlite, E2|].
      exists 1%nat, d1, None. split; [lia|]. split; assumption. }
  destruct (ddl_step H _ _ _ _ _ _ _ _ _ _ _ A1 Pu E2) as (S2 & d2 & Q2 & A2).
  pose proof (run_sqls_take_S _ init_statements 1 _ _ _ _ _ eq_refl R1 Q2) as R2.
  pose proof (same_but_trans _ _ _ _ _ S1 S2) as T2.
  (* notes *)
  unfold bind at 1 in Hrun.
  destruct (conn_execute H h InitDb.notes_ddl [] w2) as [[rows3|e3] w3] eqn:E3.
  2:{ injection Hrun as <- <-. destruct (ddl_step H _ _ _ _ _ _ _ _ _ _ _ A2 Pn E3) as [S3 A3].
      split; [eapply same_but_trans; eassumption|]. split; [eapply conn_execute_sqlite, E3|].
      exists 2%nat, d2, None. split; [lia|]. split; assumption. }
  destruct (ddl_step H _ _ _ _ _ _ _ _ _ _ _ A2 Pn E3) as (S3 & d3 & Q3 & A3).
  pose proof (run_sqls_take_S _ init_statements 2 _ _ _ _ _ eq_refl R2 Q3) as R3.
  pose proof (same_but_trans _ _ _ _ _ T2 S3) as T3.
  (* the four rows *)
  unfold bind at 1 in Hrun.
  destruct (conn_execute H h sql_insert_app_info _ w3) as [[rows4|e4] w4] eqn:E4.
  2:{ injection Hrun as <- <-. destruct (insert_step H _ _ _ _ _ _ _ _ A3 E4) as [S4 A4].
      split; [eapply same_but_trans; eassumption|]. split; [eapply conn_execute_sqlite, E4|].
      exists 3%nat, d3, None. split; [lia|]. split; assumption. }
  destruct (insert_step H _ _ _ _ _ _ _ _ A3 E4) as (S4 & d4 & Q4 & A4).
  cbn [from_option id] in Q4.
  pose proof (run_sqls_take_S _ init_statements 3 _ _ _ _ _ eq_refl R3 Q4) as R4.
  pose proof (same_but_trans _ _ _ _ _ T3 S4) as T4.
  unfold bind at 1 in Hrun.
  destruct (conn_execute H h sql_insert_app_info _ w4) as [[rows5|e5] w5] eqn:E5.
  2:{ injection Hrun as <- <-. destruct (insert_step H _ _ _ _ _ _ _ _ A4 E5) as [S5 A5].
      split; [eapply same_but_trans; eassumption|]. split; [eapply conn_execute_sqlite, E5|].
      exists 3%nat, d3, (Some d4). split; [lia|]. split; assumption. }
  destruct (insert_step H _ _ _ _ _ _ _ _ A4 E5) as (S5 & d5 & Q5 & A5).
  cbn [from_option id] in Q5.
  pose proof (run_sqls_take_S _ init_statements 4 _ _ _ _ _ eq_refl R4 Q5) as R5.
  pose proof (same_but_trans _ _ _ _ _ T4 S5) as T5.
  unfold bind at 1 in Hrun.
  destruct (conn_execute H h sql_insert_app_info _ w5) as [[rows6|e6] w6] eqn:E6.
  2:{ injection Hrun as <- <-. destruct (insert_step H _ _ _ _ _ _ _ _ A5 E6) as [S6 A6].
      split; [eapply same_but_trans; eassumption|]. split; [eapply conn_execute_sqlite, E6|].
      exists 3%nat, d3, (Some d5). split; [lia|]. split; assumption. }
  destruct (insert_step H _ _ _ _ _ _ _ _ A5 E6) as (S6 & d6 & Q6 & A6).
  cbn [from_option id] in Q6.
  pose proof (run_sqls_take_S _ init_statements 5 _ _ _ _ _ eq_refl R5 Q6) as R6.
  pose proof (same_but_trans _ _ _ _ _ T5 S6) as T6.
  unfold bind at 1 in Hrun.
  destruct (conn_execute H h sql_insert_app_info _ w6) as [[rows7|e7] w7] eqn:E7.
  2:{ injection Hrun as <- <-. destruct (insert_step H _ _ _ _ _ _ _ _ A6 E7) as [S7 A7].
      split; [eapply same_but_trans; eassumption|]. split; [eapply conn_execute_sqlite, E7|].
      exists 3%nat, d3, (Some d6). split; [lia|]. split; assumption. }
  destruct (insert_step H _ _ _ _ _ _ _ _ A6 E7) as (S7 & d7 & Q7 & A7).
  cbn [from_option id] in Q7.
  pose proof (run_sqls_take_S _ init_statements 6 _ _ _ _ _ eq_refl R6 Q7) as R7.
  change (take 7 init_statements) with init_statements in R7.
  pose proof (same_but_trans _ _ _ _ _ T6 S7) as T7.
  (* commit *)
  unfold bind at 1 in Hrun.
  destruct (conn_commit h w7) as [[[]|e8] w8] eqn:E8.
  2:{ injection Hrun as <- <-. destruct (commit_step _ _ _ _ _ _ _ A7 E8) as [S8 A8].
      split; [eapply same_but_trans; eassumption|]. split; [eapply conn_commit_sqlite, E8|].
      exists 3%nat, d3, (Some d7). split; [lia|]. split; assumption. }
  destruct (commit_step _ _ _ _ _ _ _ A7 E8) as [S8 A8]. cbn [from_option id] in A8.
  pose proof (same_but_trans _ _ _ _ _ T7 S8) as T8.
  (* the two counts *)
  unfold bind at 1 in Hrun.
  destruct (conn_execute H h sql_count_tables [] w8) as [[rows9|e9] w9] eqn:E9.
  2:{ injection Hrun as <- <-.
      destruct (select_step H _ _ _ _ _ _ _ _ _ A8 Pc ltac:(left; reflexivity) E9)
        as (S9 & A9 & _).
      split; [eapply same_but_trans; eassumption|]. split; [eapply conn_execute_sqlite, E9|].
      exists 7%nat, d7, None. split; [lia|]. split; assumption. }
  destruct (select_step H _ _ _ _ _ _ _ _ _ A8 Pc ltac:(left; reflexivity) E9)
    as (S9 & A9 & X9).
  specialize (X9 _ eq_refl). cbn [from_option id exec_stmt] in X9. injection X9 as <-.
  pose proof (same_but_trans _ _ _ _ _ T8 S9) as T9.
  unfold bind at 1 in Hrun. cbn [fetchone_0] in Hrun. unfold ret at 1 in Hrun.
  unfold bind at 1 in Hrun.
  destruct (conn_execute H h sql_count_app_info [] w9) as [[rows10|e10] w10] eqn:E10.
  2:{ injection Hrun as <- <-.
      destruct (select_step H _ _ _ _ _ _ _ _ _ A9 Pr ltac:(right; eauto) E10)
        as (S10 & A10 & _).
      split; [eapply same_but_trans; eassumption|]. split; [eapply conn_execute_sqlite, E10|].
      exists 7%nat, d7, None. split; [lia|]. split; assumption. }
  destruct (select_step H _ _ _ _ _ _ _ _ _ A9 Pr ltac:(right; eauto) E10)
    as (S10 & A10 & X10).
  specialize (X10 _ eq_refl). cbn [from_option id exec_stmt] in X10.
  destruct (find_table app_info d7) as [t|] eqn:Et; [|discriminate]. injection X10 as <-.
  pose proof (same_but_trans _ _ _ _ _ T9 S10) as T10.
  unfold bind at 1 in Hrun. cbn [fetchone_0] in Hrun. unfold ret at 1 in Hrun.
  unfold bind at 1, conn_close, ret in Hrun. injection Hrun as <- <-.
  split.
  - destruct T10 as (F & C & O & E). repeat split; try assumption.
    simpl. rewrite <- C. apply delete_delete_eq.
  - exists d7, t. split; [exact R7|]. split; [exact Et|]. split; [reflexivity|].
    split; [reflexivity|]. split; [apply A10|]. simpl. apply lookup_delete_eq.
Qed.

End SeedTrace.

(** ** The database section of the Initializer, by its outcome *)

Section SeedResults.
Variable H : host.

(** What the database section finds at its path once it is connected: a
    database, or a file that is none. *)
Lemma connected_file p w h wc :
  sqlite3_connect H p w = (Ok h, wc) ->
  (exists file, w_fs w !! p = DbFile <$> file /\ at_session wc p h (default [] file) None)
  \/ (w_fs wc !! p = w_fs w !! p /\ forall d, w_fs wc !! p <> Some (DbFile d)).
Proof.
  intros Ec. destruct (connect_step H _ _ _ _ Ec) as (_ & Hc & _ & Hfile).
  destruct (w_fs w !! p) as [n|] eqn:Ep.
  - destruct n as [| | |d]; try (right; split; [exact Hfile | rewrite Hfile; discriminate]).
    left. exists (Some d). split; [reflexivity | split; assumption].
  - left. exists None. split; [reflexivity | split; [exact Hc | apply Hfile]].
Qed.

(** The database section on a file that is no database fails at its
    first statement. *)
Lemma seed_not_db p w h wc r w' :
  sqlite3_connect H p w = (Ok h, wc) ->
  (forall d, w_fs wc !! p <> Some (DbFile d)) ->
  InitDb.create_and_seed H p w = (r, w') ->
  exists e, r = Raise e /\ is_sqlite_error e = true
    /\ w_fs w' = w_fs wc /\ w_conns w' = w_conns wc
    /\ w_stdout w' = w_stdout wc /\ w_stderr w' = w_stderr wc.
Proof.
  intros Ec Hnot Hrun. destruct (connect_step H _ _ _ _ Ec) as (_ & Hc & _).
  destruct parse_init_ddl as (Pa & _).
  unfold InitDb.create_and_seed in Hrun. unfold bind at 1 in Hrun. rewrite Ec in Hrun.
  cbv zeta in Hrun. unfold bind at 1 in Hrun.
  destruct (conn_execute H h InitDb.app_info_ddl [] wc) as [r1 w1] eqn:E1.
  destruct (execute_not_db H _ _ _ _ _ _ _ _ _ Hc Hnot Pa eq_refl E1) as (e & -> & Hw).
  injection Hrun as <- <-. exists e. split; [reflexivity|].
  split; [eapply conn_execute_sqlite, E1 | exact Hw].
Qed.

Lemma seed_connect_fail p w e wc r w' :
  sqlite3_connect H p w = (Raise e, wc) ->
  InitDb.create_and_seed H p w = (r, w') -> r = Raise e /\ w' = wc.
Proof.
  intros Ec Hrun. unfold InitDb.create_and_seed in Hrun. unfold bind at 1 in Hrun.
  rewrite Ec in Hrun. injection Hrun as <- <-. split; reflexivity.
Qed.

Lemma conns_restored (c c1 c' : gmap nat conn) h :
  c !! h = None -> delete h c1 = delete h c -> c' !! h = None ->
  delete h c' = delete h c1 -> c' = c.
Proof.
  intros Hc H1 Hc' H2.
  rewrite <- (delete_id c' h Hc'), <- (delete_id c h Hc). congruence.
Qed.






(** Property X13.  The database section of the Initializer closes its
    connection when it goes through, and only then: when a statement or
    the commit raises, the connection it opened stays open. *)
Theorem create_and_seed_connection p w h wc r w' :
  sqlite3_connect H p w = (Ok h, wc) ->
  InitDb.create_and_seed H p w = (r, w') ->
  w_conns w !! h = None
  /\ match r with
     | Ok _ => w_conns w' = w_conns w
     | Raise _ => exists txn, w_conns w' !! h = Some {| c_path := p; c_txn := txn |}
     end.
Proof.
  intros Ec Hrun.
  destruct (connect_step H _ _ _ _ Ec) as (Hfree & Hc & Sc & _).
  split; [exact Hfree|].
  destruct (connected_file _ _ _ _ Ec) as [(file & Hf & Hs)|[_ Hnot]].
  - pose proof (seed_trace H _ _ _ _ _ _ _ Ec Hs Hrun) as [S Hr].
    destruct r as [[tc rc]|e].
    + destruct Hr as (_ & _ & _ & _ & _ & _ & _ & Hh).
      destruct Sc as (_ & C1 & _). destruct S as (_ & C2 & _).
      exact (conns_restored _ _ _ _ Hfree C1 Hh C2).
    + destruct Hr as (_ & k & dk & txn & _ & _ & [A _]). exists txn. exact A.
  - destruct (seed_not_db _ _ _ _ _ _ Ec Hnot Hrun) as (e & -> & _ & _ & Hcs & _).
    exists None. rewrite Hcs. exact Hc.
Qed.

End SeedResults.

(** ** The statements of the Initializer on a database *)













Section SeedForward.
Variable H : host.







End SeedForward.

(** ** A second run of the Initializer *)









Section Rerun.
Variables H1 H2 : host.


End Rerun.

(** ** What the Initializer prints *)

Section Output.
Variable H : host.
Variable P : world -> Prop.
Hypothesis P_fs : forall w f, P w -> P (set_fs f w).
Hypothesis P_conns : forall w c, P w -> P (set_conns c w).
Hypothesis P_faults : forall w f, P w -> P (set_faults f w).
Hypothesis P_print : forall w s, P w -> P (set_stdout (w_stdout w ++ [s]) w).

Lemma out_print s : preserves P (print s).
Proof. intros w r w' [= <- <-]. apply P_print. Qed.

Lemma out_os_path_exists p : preserves P (os_path_exists p).
Proof. intros w r w' [= <- <-]. trivial. Qed.

Lemma out_read_text p : preserves P (read_text p).
Proof. intros w r w'. unfold read_text. repeat case_match; intros [= <- <-]; trivial. Qed.

Lemma out_open_w p : preserves P (open_w H p).
Proof. intros w r w'. unfold open_w. repeat case_match; intros [= <- <-]; auto. Qed.

Lemma out_f_write p s : preserves P (f_write p s).
Proof. intros w r w'. unfold f_write. repeat case_match; intros [= <- <-]; auto. Qed.

Lemma out_os_makedirs p : preserves P (os_makedirs H p).
Proof. intros w r w'. unfold os_makedirs. repeat case_match; intros [= <- <-]; auto. Qed.

Lemma out_subprocess_run_which : preserves P (subprocess_run_which H).
Proof. intros w r w'. unfold subprocess_run_which. case_match; intros [= <- <-]; trivial. Qed.

Lemma out_engine_fault : preserves P engine_fault.
Proof. intros w r w'. unfold engine_fault. repeat case_match; intros [= <- <-]; auto. Qed.

Lemma out_sqlite3_connect p : preserves P (sqlite3_connect H p).
Proof.
  unfold sqlite3_connect. apply preserves_bind; [apply out_engine_fault | intros _].
  intros w r w'. unfold new_conn. repeat case_match; intros [= <- <-]; auto.
Qed.

Lemma out_conn_execute h sql params : preserves P (conn_execute H h sql params).
Proof.
  unfold conn_execute. apply preserves_bind; [apply out_engine_fault | intros _].
  intros w r w'. repeat case_match; intros [= <- <-]; auto.
Qed.

Lemma out_conn_commit h : preserves P (conn_commit h).
Proof.
  unfold conn_commit. apply preserves_bind; [apply out_engine_fault | intros _].
  intros w r w'. repeat case_match; intros [= <- <-]; auto.
Qed.

Lemma out_conn_close h : preserves P (conn_close h).
Proof. intros w r w' [= <- <-]. auto. Qed.

Lemma out_fetchone_0 rows : preserves P (fetchone_0 rows).
Proof.
  intros w r w'. unfold fetchone_0, ret, raise. repeat case_match; intros [= <- <-]; trivial.
Qed.

Local Hint Resolve out_print out_os_path_exists out_read_text out_open_w out_f_write
  out_os_makedirs out_subprocess_run_which out_sqlite3_connect out_conn_execute
  out_conn_commit out_conn_close out_fetchone_0 : preserves.

Lemma out_resolver cf : preserves P (InitDb._get_db_path_from_connection_file cf).
Proof.
  intros w r w' E. rewrite init_resolver_eq in E. injection E as _ <-. trivial.
Qed.

Lemma out_check_existing p : preserves P (InitDb.check_existing H p).
Proof. unfold InitDb.check_existing. auto 20 with preserves. Qed.

Lemma out_create_and_seed p : preserves P (InitDb.create_and_seed H p).
Proof. unfold InitDb.create_and_seed. auto 40 with preserves. Qed.

Lemma out_save_connection_info a c : preserves P (InitDb.save_connection_info H a c).
Proof. unfold InitDb.save_connection_info. auto 30 with preserves. Qed.

Lemma out_make_visualizer_dir : preserves P (InitDb.make_visualizer_dir H).
Proof. unfold InitDb.make_visualizer_dir. auto 20 with preserves. Qed.

Lemma out_save_env_file a : preserves P (InitDb.save_env_file H a).
Proof. unfold InitDb.save_env_file. auto 20 with preserves. Qed.

Lemma out_print_summary a c t r : preserves P (InitDb.print_summary a c t r).
Proof. unfold InitDb.print_summary. auto 40 with preserves. Qed.

Lemma out_cli_hint a : preserves P (InitDb.cli_hint H a).
Proof. unfold InitDb.cli_hint. auto 20 with preserves. Qed.

Lemma out_after_database p stats : preserves P (after_database H p stats).
Proof.
  destruct stats as [tc rc]. unfold after_database.
  apply preserves_bind; [apply out_save_connection_info | intros _].
  apply preserves_bind; [apply out_make_visualizer_dir | intros _].
  apply preserves_bind; [apply out_save_env_file | intros _].
  apply preserves_bind; [apply out_print_summary | intros _].
  apply preserves_bind; [apply out_cli_hint | intros _].
  apply out_print.
Qed.

(** The script after its first line. *)
Lemma out_script w r w' : InitDb.script H w = (r, w') -> P (started w) -> P w'.
Proof.
  rewrite script_unfold. intros E HP.
  destruct (InitDb._get_db_path_from_connection_file sidecar (started w)) as [[p|e] w0] eqn:E0.
  2:{ injection E as _ <-. exact (out_resolver _ _ _ _ E0 HP). }
  pose proof (out_resolver _ _ _ _ E0 HP) as HP0.
  destruct (InitDb.check_existing H p w0) as [[[]|e] w1] eqn:E1.
  2:{ injection E as _ <-. exact (out_check_existing _ _ _ _ E1 HP0). }
  pose proof (out_check_existing _ _ _ _ E1 HP0) as HP1.
  destruct (InitDb.create_and_seed H p w1) as [[stats|e] w2] eqn:E2.
  2:{ injection E as _ <-. exact (out_create_and_seed _ _ _ _ E2 HP1). }
  pose proof (out_create_and_seed _ _ _ _ E2 HP1) as HP2.
  exact (out_after_database _ _ _ _ _ E HP2).
Qed.

End Output.

Section ScriptOutput.
Variable H : host.

(** Property X16.  However a run of the Initializer ends, its output is
    what was there, then the line [Starting SQLite setup...], then the
    rest; and a run that goes to the end of the script has written
    nothing on the error stream: its warnings go to the standard
    output.  (What the interpreter writes there about an exception that
    ends the script is no part of this.) *)
Theorem initializer_output w r w' :
  InitDb.script H w = (r, w') ->
  (r = Ok tt -> w_stderr w' = w_stderr w)
  /\ exists out, w_stdout w' = w_stdout w ++ lit "Starting SQLite setup..." :: out.
Proof.
  intros E. split.
  - intros _. apply (out_script H (fun x => w_stderr x = w_stderr w)) in E; auto.
  - apply (out_script H (fun x => exists out,
              w_stdout x = w_stdout w ++ lit "Starting SQLite setup..." :: out)) in E.
    + exact E.
    + intros x f [out Ho]; exists out; exact Ho.
    + intros x f [out Ho]; exists out; exact Ho.
    + intros x f [out Ho]; exists out; exact Ho.
    + intros x s [out Ho]. exists (out ++ [s]). cbn [w_stdout set_stdout].
      rewrite Ho, <- app_assoc. reflexivity.
    + exists []. reflexivity.
Qed.

End ScriptOutput.

(** ** The files of the Initializer *)

Section ScriptFiles.
Variable H : host.

(** [SELECT 1] on an open connection changes nothing but the faults to
    come. *)
Lemma select_one_frame h w r w' :
  conn_execute H h sql_select_one [] w = (r, w') ->
  w_fs w' = w_fs w /\ w_conns w' = w_conns w
  /\ w_stdout w' = w_stdout w /\ w_stderr w' = w_stderr w.
Proof.
  destruct parse_others as (Ps & _).
  unfold conn_execute, bind. rewrite Ps. cbn [reads_file negb].
  destruct (engine_fault w) as [[[]|e] w0] eqn:Ef.
  - destruct (engine_fault_frame _ _ _ Ef) as (? & ? & ? & ?).
    destruct (w_conns w0 !! h); intros [= <- <-]; auto.
  - intros [= <- <-]. exact (engine_fault_frame _ _ _ Ef).
Qed.

Lemma check_existing_trace p w r w' :
  InitDb.check_existing H p w = (r, w') ->
  r = Ok tt /\ w_fs w' = w_fs w /\ w_stderr w' = w_stderr w
  /\ ((w_fs w !! p = None /\ w_conns w' = w_conns w
       /\ w_stdout w' = w_stdout w
                        ++ [lit "Creating new SQLite database at " ++ p ++ lit "..."])
      \/ (is_Some (w_fs w !! p) /\ w_conns w' = w_conns w
          /\ w_stdout w' = w_stdout w
                           ++ [lit "SQLite database already exists at " ++ p;
                               lit "Database is accessible and working."])
      \/ (exists e,
            is_Some (w_fs w !! p) /\ is_sqlite_error e = true
            /\ w_stdout w' = w_stdout w
                             ++ [lit "SQLite database already exists at " ++ p;
                                 lit "Warning: Database exists but may be corrupted: "
                                 ++ exn_str e]
            /\ (w_conns w' = w_conns w
                \/ exists h, w_conns w !! h = None
                     /\ w_conns w' = <[h := {| c_path := p; c_txn := None |}]> (w_conns w)))).
Proof.
  unfold InitDb.check_existing, bind at 1, os_path_exists.
  destruct (w_fs w !! p) as [n|] eqn:Ep.
  2:{ unfold print. intros [= <- <-]. repeat split; try reflexivity. left. auto. }
  unfold bind at 1, print at 1.
  set (w1 := set_stdout _ w).
  assert (Hw1 : w_fs w1 = w_fs w /\ w_stderr w1 = w_stderr w /\ w_conns w1 = w_conns w)
    by (repeat split; reflexivity).
  destruct Hw1 as (Wf & We & Wc).
  unfold try_except, bind at 1.
  destruct (sqlite3_connect H p w1) as [[h|e] wc] eqn:Ec.
  - destruct (sqlite3_connect_conns H _ _ _ _ Ec) as [Hfree Hcs].
    pose proof (sqlite3_connect_fs H p w1 n Ep) as Hfs. rewrite Ec in Hfs. cbn [snd] in Hfs.
    destruct (connect_step H _ _ _ _ Ec) as (_ & _ & (_ & _ & Ho & He) & _).
    unfold bind at 1.
    destruct (conn_execute H h sql_select_one [] wc) as [[rows|e] wx] eqn:Ex;
      destruct (select_one_frame _ _ _ _ Ex) as (Xf & Xc & Xo & Xe).
    + unfold bind, conn_close, print. intros [= <- <-]. cbn.
      split; [reflexivity|]. split; [congruence|]. split; [congruence|].
      right. left. split; [eauto|]. split.
      * rewrite Xc, Hcs, delete_insert_eq. rewrite <- Wc. apply delete_id, Hfree.
      * rewrite Xo, Ho. unfold w1. cbn. rewrite <- app_assoc. reflexivity.
    + rewrite (is_sqlite_error_Exception _ (conn_execute_sqlite H _ _ _ _ _ _ Ex)).
      unfold print. intros [= <- <-]. cbn.
      split; [reflexivity|]. split; [congruence|]. split; [congruence|].
      right. right. exists e. split; [eauto|].
      split; [eapply conn_execute_sqlite, Ex|]. split.
      * rewrite Xo, Ho. unfold w1. cbn. rewrite <- app_assoc. reflexivity.
      * right. exists h. split; [rewrite <- Wc; exact Hfree | congruence].
  - rewrite (is_sqlite_error_Exception _ (sqlite3_connect_sqlite H _ _ _ _ Ec)).
    destruct (connect_fail H _ _ _ _ Ec) as (Cf & Cc & Co & Ce).
    unfold print. intros [= <- <-]. cbn.
    split; [reflexivity|]. split; [congruence|]. split; [congruence|].
    right. right. exists e. split; [eauto|].
    split; [eapply sqlite3_connect_sqlite, Ec|]. split.
    + rewrite Co. unfold w1. cbn. rewrite <- app_assoc. reflexivity.
    + left. congruence.
Qed.

(** Property X9.  The check of an existing database never raises, never
    changes a file and writes nothing on the error stream.  It prints
    one line when there is no file, and otherwise the line that the
    database exists and then either that it is accessible or a warning
    with the text of a [sqlite3.Error].  It leaves the connections as
    they were, except when [SELECT 1] raises: the connection it opened is
    then left open. *)
Theorem check_existing_reports_only p w r w' :
  InitDb.check_existing H p w = (r, w') ->
  r = Ok tt /\ w_fs w' = w_fs w /\ w_stderr w' = w_stderr w
  /\ ((w_fs w !! p = None /\ w_conns w' = w_conns w
       /\ w_stdout w' = w_stdout w
                        ++ [lit "Creating new SQLite database at " ++ p ++ lit "..."])
      \/ (is_Some (w_fs w !! p) /\ w_conns w' = w_conns w
          /\ w_stdout w' = w_stdout w
                           ++ [lit "SQLite database already exists at " ++ p;
                               lit "Database is accessible and working."])
      \/ (exists e,
            is_Some (w_fs w !! p) /\ is_sqlite_error e = true
            /\ w_stdout w' = w_stdout w
                             ++ [lit "SQLite database already exists at " ++ p;
                                 lit "Warning: Database exists but may be corrupted: "
                                 ++ exn_str e]
            /\ (w_conns w' = w_conns w
                \/ exists h, w_conns w !! h = None
                     /\ w_conns w' = <[h := {| c_path := p; c_txn := None |}]> (w_conns w)))).
Proof. apply check_existing_trace. Qed.

(** The database section writes no file but the one at its path. *)
Lemma create_and_seed_frame p w r w' :
  InitDb.create_and_seed H p w = (r, w') ->
  forall q, q <> p -> w_fs w' !! q = w_fs w !! q.
Proof.
  intros Hrun q Hq.
  destruct (sqlite3_connect H p w) as [[h|e] wc] eqn:Ec.
  2:{ destruct (seed_connect_fail H _ _ _ _ _ _ Ec Hrun) as [_ ->].
      destruct (connect_fail H _ _ _ _ Ec) as (-> & _). reflexivity. }
  destruct (connect_step H _ _ _ _ Ec) as (_ & _ & Sc & _).
  destruct (connected_file H _ _ _ _ Ec) as [(file & Hf & Hs)|[_ Hnot]].
  - destruct (seed_trace H _ _ _ _ _ _ _ Ec Hs Hrun) as [S _].
    destruct (same_but_trans _ _ _ _ _ Sc S) as (F & _). exact (F q Hq).
  - destruct (seed_not_db H _ _ _ _ _ _ Ec Hnot Hrun) as (e & _ & _ & Hfs & _).
    rewrite Hfs. destruct Sc as (F & _). exact (F q Hq).
Qed.

Lemma lookup_stable_at (q p : text) (n : option node) :
  p <> q -> stable_at p (fun fs => fs !! q = n).
Proof. intros Hne fs n' Hfs. rewrite lookup_insert_ne by exact Hne. exact Hfs. Qed.

Lemma after_database_frame p stats w r w' q :
  after_database H p stats w = (r, w') ->
  q <> sidecar -> q <> viewer_dir -> q <> env_file ->
  w_fs w' !! q = w_fs w !! q.
Proof.
  intros E Hs Hv He.
  set (Q := fun fs : gmap text node => fs !! q = w_fs w !! q).
  assert (HP : preserves (on_fs Q) (after_database H p stats)).
  { destruct stats as [tc rc]. unfold after_database.
    apply preserves_bind;
      [apply preserves_save_connection_info, lookup_stable_at;
       intros Heq; apply Hs; symmetry; exact Heq | intros _].
    apply preserves_bind;
      [apply preserves_make_visualizer_dir, lookup_stable_at;
       intros Heq; apply Hv; symmetry; exact Heq | intros _].
    apply preserves_bind;
      [apply preserves_save_env_file, lookup_stable_at;
       intros Heq; apply He; symmetry; exact Heq | intros _].
    apply preserves_bind; [apply preserves_print_summary | intros _].
    apply preserves_bind; [apply preserves_cli_hint | intros _].
    apply preserves_print. }
  exact (HP _ _ _ E eq_refl).
Qed.

(** Property X17.  However a run of the Initializer ends, a file at any
    path other than the resolved database path, [db_connection.txt],
    [db_visualizer] and [db_visualizer/sqlite.env] is as it was. *)
Theorem initializer_touches_only_its_files w p w0 r w' q :
  InitDb._get_db_path_from_connection_file sidecar w = (Ok p, w0) ->
  InitDb.script H w = (r, w') ->
  q <> p -> q <> sidecar -> q <> viewer_dir -> q <> env_file ->
  w_fs w' !! q = w_fs w !! q.
Proof.
  intros Hres E Hp Hs Hv He. rewrite script_unfold in E.
  rewrite init_resolver_eq in Hres, E. change (w_fs (started w)) with (w_fs w) in E.
  injection Hres as Hres _. rewrite Hres in E.
  destruct (InitDb.check_existing H p (started w)) as [[[]|e] w1] eqn:E1.
  2:{ destruct (check_existing_trace _ _ _ _ E1) as [? _]. discriminate. }
  destruct (check_existing_trace _ _ _ _ E1) as (_ & F1 & _).
  destruct (InitDb.create_and_seed H p w1) as [[stats|e] w2] eqn:E2.
  - rewrite (after_database_frame _ _ _ _ _ _ E Hs Hv He).
    rewrite (create_and_seed_frame _ _ _ _ E2 q Hp), F1. reflexivity.
  - injection E as _ <-. rewrite (create_and_seed_frame _ _ _ _ E2 q Hp), F1. reflexivity.
Qed.

End ScriptFiles.

Section ScriptSteps.
Variable H : host.





(** The connection-info file on a path that cannot be written. *)
Lemma save_connection_info_denied a c w :
  h_readonly H sidecar = true ->
  InitDb.save_connection_info H a c w
  = (Ok tt, set_stdout (w_stdout w
                         ++ [lit "Warning: Could not save connection info: Permission denied"])
              w).
Proof.
  intros Hrw. unfold InitDb.save_connection_info, try_except. cbv zeta.
  unfold bind at 1, open_w. change (lit "db_connection.txt") with sidecar. rewrite Hrw.
  reflexivity.
Qed.

Lemma after_database_last p stats w w' :
  after_database H p stats w = (Ok tt, w') ->
  last (w_stdout w') = Some ([LF] ++ lit "Script completed successfully.").
Proof.
  destruct stats as [tc rc]. unfold after_database. intros Hr.
  apply bind_Ok in Hr as (? & w3 & _ & Hr).
  apply bind_Ok in Hr as (? & w4 & _ & Hr).
  apply bind_Ok in Hr as (? & w5 & _ & Hr).
  apply bind_Ok in Hr as (? & w6 & _ & Hr).
  apply bind_Ok in Hr as (? & w7 & _ & Hr).
  unfold print in Hr. injection Hr as <-. cbn [w_stdout set_stdout]. apply last_snoc.
Qed.

(** Property X19.  When the connection-info file cannot be written, the
    run of the Initializer still goes to its end once the database
    section is through: the file is left as it was, a warning that
    starts with [Warning: Could not save connection info: ] is printed,
    the summary shows the two statistics and the last line printed is
    the line of completion. *)
Theorem sidecar_failure_is_not_fatal w p w0 w1 tc rc w2 :
  InitDb._get_db_path_from_connection_file sidecar (started w) = (Ok p, w0) ->
  InitDb.check_existing H p w0 = (Ok tt, w1) ->
  InitDb.create_and_seed H p w1 = (Ok (tc, rc), w2) ->
  viewer_dir_ok H (w_fs w) ->
  h_readonly H sidecar = true ->
  exists w',
    InitDb.script H w = (Ok tt, w')
    /\ w_fs w' !! sidecar = w_fs w2 !! sidecar
    /\ (exists msg, In (lit "Warning: Could not save connection info: " ++ msg) (w_stdout w'))
    /\ In (lit "  Tables: " ++ cell_str tc) (w_stdout w')
    /\ In (lit "  App info records: " ++ cell_str rc) (w_stdout w')
    /\ last (w_stdout w') = Some ([LF] ++ lit "Script completed successfully.").
Proof.
  intros Hres Hck Hcs Hdir Hrw.
  pose proof (init_resolver_world _ _ _ _ Hres) as ->.
  assert (Hdir2 : viewer_dir_ok H (w_fs w2)).
  { eapply (preserves_create_and_seed H _ p (viewer_dir_ok_stable_db H) _ _ _ Hcs).
    eapply (preserves_check_existing H _ p (viewer_dir_ok_stable_db H) _ _ _ Hck).
    exact Hdir. }
  destruct (after_database_ok H p (tc, rc) w2 Hdir2) as (w' & Had).
  exists w'. split; [rewrite script_unfold, Hres, Hck, Hcs; exact Had|].
  destruct (after_database_stdout H _ _ _ _ _ Had) as [Ht Hr].
  split; [|split; [|split; [exact Ht | split; [exact Hr | exact (after_database_last _ _ _ _ Had)]]]].
  - assert (Hq : forall q, q <> sidecar -> stable_at q
                   (fun fs : gmap text node => fs !! sidecar = w_fs w2 !! sidecar)).
    { intros q Hne. apply lookup_stable_at. exact Hne. }
    unfold after_database in Had. unfold bind at 1 in Had.
    rewrite (save_connection_info_denied _ _ _ Hrw) in Had.
    set (w3 := set_stdout _ w2) in Had.
    apply bind_Ok in Had as (? & w4 & E4 & Had).
    apply bind_Ok in Had as (? & w5 & E5 & Had).
    apply bind_Ok in Had as (? & w6 & E6 & Had).
    apply bind_Ok in Had as (? & w7 & E7 & Had).
    set (Q := fun fs : gmap text node => fs !! sidecar = w_fs w2 !! sidecar) in *.
    assert (Hf3 : on_fs Q w3) by reflexivity.
    pose proof (preserves_make_visualizer_dir H Q (Hq viewer_dir ltac:(discriminate))
                  _ _ _ E4 Hf3) as Hf4.
    pose proof (preserves_save_env_file H Q _ (Hq env_file ltac:(discriminate)) _ _ _ E5 Hf4)
      as Hf5.
    pose proof (preserves_print_summary Q _ _ _ _ _ _ _ E6 Hf5) as Hf6.
    pose proof (preserves_cli_hint H Q _ _ _ _ E7 Hf6) as Hf7.
    exact (preserves_print Q _ _ _ _ Had Hf7).
  - exists (lit "Permission denied").
    unfold after_database in Had. unfold bind at 1 in Had.
    rewrite (save_connection_info_denied _ _ _ Hrw) in Had.
    set (x := lit "Warning: Could not save connection info: " ++ lit "Permission denied") in *.
    set (w3 := set_stdout _ w2) in Had.
    assert (HP : preserves (fun v => In x (w_stdout v))
                   (InitDb.make_visualizer_dir H ;;;
                    InitDb.save_env_file H (h_abspath H p) ;;;
                    InitDb.print_summary (h_abspath H p)
                      (lit "sqlite:////" ++ lstrip_char 47 (h_abspath H p)) tc rc ;;;
                    InitDb.cli_hint H (h_abspath H p) ;;;
                    print ([LF] ++ lit "Script completed successfully."))).
    { assert (Pp : forall (v : world) (s : text),
                In x (w_stdout v) -> In x (w_stdout (set_stdout (w_stdout v ++ [s]) v))).
      { intros v s Hv. cbn. apply in_or_app. left. exact Hv. }
      apply preserves_bind; [apply out_make_visualizer_dir; auto | intros _].
      apply preserves_bind; [apply out_save_env_file; auto | intros _].
      apply preserves_bind; [apply out_print_summary; auto | intros _].
      apply preserves_bind; [apply out_cli_hint; auto | intros _].
      apply out_print; auto. }
    apply (HP _ _ _ Had). unfold w3. cbn. apply in_or_app. right. left. reflexivity.
Qed.

(** Property X20.  The directory [db_visualizer] is missing and cannot
    be made: [os.makedirs] is not guarded, so after the database section
    and the connection-info step the script ends with that [OSError] and
    status 1, and prints and writes nothing more; the environment file
    is not written. *)
Theorem viewer_directory_failure_stops_the_script w p w0 w1 stats w2 :
  InitDb._get_db_path_from_connection_file sidecar (started w) = (Ok p, w0) ->
  InitDb.check_existing H p w0 = (Ok tt, w1) ->
  InitDb.create_and_seed H p w1 = (Ok stats, w2) ->
  w_fs w2 !! viewer_dir = None -> h_readonly H viewer_dir = true ->
  exists w3,
    InitDb.save_connection_info H (h_abspath H p)
      (lit "sqlite:////" ++ lstrip_char 47 (h_abspath H p)) w2 = (Ok tt, w3)
    /\ InitDb.script H w = (Raise (OSError (lit "Permission denied")), w3)
    /\ fst (run (InitDb.script H) w) = 1%Z
    /\ w_fs w3 !! env_file = w_fs w2 !! env_file.
Proof.
  intros Hres Hck Hcs Hnone Hrw.
  destruct (save_connection_info_never_raises H (h_abspath H p)
              (lit "sqlite:////" ++ lstrip_char 47 (h_abspath H p)) w2) as ([] & w3 & E3).
  exists w3. split; [exact E3|].
  assert (Hn3 : w_fs w3 !! viewer_dir = None).
  { exact (preserves_save_connection_info H _ _ _
             (lookup_stable_at viewer_dir sidecar None ltac:(discriminate)) _ _ _ E3 Hnone). }
  assert (Hs : InitDb.script H w = (Raise (OSError (lit "Permission denied")), w3)).
  { rewrite script_unfold, Hres, Hck, Hcs. destruct stats as [tc rc].
    unfold after_database. unfold bind at 1. rewrite E3.
    unfold bind at 1, InitDb.make_visualizer_dir, bind at 1, os_path_exists.
    rewrite Hn3. cbn [negb]. unfold bind at 1, os_makedirs. rewrite Hn3, Hrw. reflexivity. }
  split; [exact Hs|]. split; [unfold run; rewrite Hs; reflexivity|].
  exact (preserves_save_connection_info H
           (fun fs => fs !! env_file = w_fs w2 !! env_file) _ _
           (lookup_stable_at env_file sidecar _ ltac:(discriminate)) _ _ _ E3 eq_refl).
Qed.

End ScriptSteps.

(** ** A run after a run that failed *)

Section Retry.
Variables H H2 : host.


End Retry.



Section SeedRetry.
Variables H H2 : host.



End SeedRetry.

(** ** The Initializer, then [main] of the SchemaEnsurer *)

Section InitThenMain.
Variable H : host.



End InitThenMain.

(** * Instances of the further properties *)

(** An instance of property X1: the file is there and cannot be read. *)
Lemma resolver_copies_agree_witness :
  InitDb._get_db_path_from_connection_file sidecar unreadable_world
  = (Ok InitDb.DB_NAME, unreadable_world).
Proof.
  destruct (resolver_copies_agree sidecar unreadable_world
              (Raise (OSError (lit "Permission denied"))) unreadable_world)
    as (_ & _ & _ & _ & E).
  - vm_compute. reflexivity.
  - exact E.
Defined.

(** An instance of property X2: the first of two matching lines. *)
Lemma resolved_path_is_a_trimmed_line_witness :
  strip (lit "/tmp/x.db") = lit "/tmp/x.db"
  /\ Forall (fun c => c <> LF /\ c <> CR) (lit "/tmp/x.db").
Proof.
  apply (resolved_path_is_a_trimmed_line sidecar two_paths_world (lit "/tmp/x.db")
           two_paths_world).
  left. vm_compute. reflexivity.
Defined.

(** An instance of property X3: a comment line, then the marker indented
    and followed by a space and a tab. *)
Lemma blank_value_resolves_to_empty_path_witness :
  EnsureNotesSchema._get_db_path_from_connection_file sidecar blank_value_world
  = (Ok [], blank_value_world)
  /\ InitDb._get_db_path_from_connection_file sidecar blank_value_world
     = (Ok [], blank_value_world).
Proof.
  apply (blank_value_resolves_to_empty_path sidecar blank_value_world
           [lit "# SQLite connection methods:"] [32] [32] [32; 9]).
  - vm_compute. reflexivity.
  - vm_compute. repeat constructor; discriminate.
  - vm_compute. repeat constructor; discriminate.
  - vm_compute. repeat constructor.
  - reflexivity.
  - discriminate.
Defined.




(** An instance of property X7: nothing can be written. *)
Lemma ensure_read_only_location_witness :
  run (EnsureNotesSchema.main locked_host) empty_world
  = (1%Z,
     set_stderr (w_stderr empty_world
                  ++ [[10007] ++ lit " failed to ensure notes schema: "
                              ++ lit "unable to open database file"])
       (set_stdout (w_stdout empty_world ++ [lit "Using SQLite DB: " ++ myapp_db])
          empty_world)).
Proof.
  apply (ensure_read_only_location locked_host myapp_db empty_world empty_world).
  - vm_compute. reflexivity.
  - vm_compute. reflexivity.
  - reflexivity.
  - reflexivity.
  - reflexivity.
Defined.

(** An instance of property X8: the file is there and cannot be read. *)
Lemma main_read_error_escapes_witness :
  EnsureNotesSchema.main plain_host unreadable_world
  = (Raise (OSError (lit "Permission denied")), unreadable_world)
  /\ is_sqlite_error (OSError (lit "Permission denied")) = false
  /\ fst (run (EnsureNotesSchema.main plain_host) unreadable_world) = 1%Z.
Proof.
  apply (main_read_error_escapes plain_host unreadable_world
           (OSError (lit "Permission denied")) unreadable_world).
  vm_compute. reflexivity.
Defined.

(** An instance of property X9: the database is locked. *)
Lemma check_existing_reports_only_witness :
  fst (InitDb.check_existing plain_host myapp_db locked_db_world) = Ok tt
  /\ w_fs (snd (InitDb.check_existing plain_host myapp_db locked_db_world))
     = w_fs locked_db_world.
Proof.
  destruct (check_existing_reports_only plain_host myapp_db locked_db_world
              (fst (InitDb.check_existing plain_host myapp_db locked_db_world))
              (snd (InitDb.check_existing plain_host myapp_db locked_db_world)))
    as (Hr & Hf & _).
  - vm_compute. reflexivity.
  - split; assumption.
Defined.




(** An instance of property X13: the first statement fails. *)
Lemma create_and_seed_connection_witness :
  exists txn,
    w_conns (snd (InitDb.create_and_seed plain_host myapp_db failing_ddl_world)) !! 0%nat
    = Some {| c_path := myapp_db; c_txn := txn |}.
Proof.
  destruct (create_and_seed_connection plain_host myapp_db failing_ddl_world 0%nat
              (snd (sqlite3_connect plain_host myapp_db failing_ddl_world))
              (Raise (SqliteError (lit "disk I/O error")))
              (snd (InitDb.create_and_seed plain_host myapp_db failing_ddl_world)))
    as [_ Hx].
  - vm_compute. reflexivity.
  - vm_compute. reflexivity.
  - exact Hx.
Defined.



(** An instance of property X16: an empty directory. *)
Lemma initializer_output_witness :
  w_stderr (snd (InitDb.script plain_host empty_world)) = w_stderr empty_world
  /\ exists out,
       w_stdout (snd (InitDb.script plain_host empty_world))
       = w_stdout empty_world ++ lit "Starting SQLite setup..." :: out.
Proof.
  destruct (initializer_output plain_host empty_world
              (fst (InitDb.script plain_host empty_world))
              (snd (InitDb.script plain_host empty_world))) as [He Ho].
  - vm_compute. reflexivity.
  - split; [apply He; vm_compute; reflexivity | exact Ho].
Defined.

(** An instance of property X17: a file next to those of the script. *)
Lemma initializer_touches_only_its_files_witness :
  w_fs (snd (InitDb.script plain_host readme_world)) !! lit "README.md"
  = w_fs readme_world !! lit "README.md".
Proof.
  apply (initializer_touches_only_its_files plain_host readme_world myapp_db readme_world
           (fst (InitDb.script plain_host readme_world))).
  - vm_compute. reflexivity.
  - vm_compute. reflexivity.
  - discriminate.
  - discriminate.
  - discriminate.
  - discriminate.
Defined.


(** An instance of property X19: the two files cannot be written. *)
Lemma sidecar_failure_is_not_fatal_witness :
  exists w',
    InitDb.script degraded_host empty_world = (Ok tt, w')
    /\ (exists msg, In (lit "Warning: Could not save connection info: " ++ msg) (w_stdout w'))
    /\ last (w_stdout w') = Some ([LF] ++ lit "Script completed successfully.").
Proof.
  destruct (sidecar_failure_is_not_fatal degraded_host empty_world myapp_db
              (started empty_world)
              (snd (InitDb.check_existing degraded_host myapp_db (started empty_world)))
              (CInt 3) (CInt 4)
              (snd (InitDb.create_and_seed degraded_host myapp_db
                      (snd (InitDb.check_existing degraded_host myapp_db
                              (started empty_world))))))
    as (w' & Hs & _ & Hw & _ & _ & Hl).
  - vm_compute. reflexivity.
  - vm_compute. reflexivity.
  - vm_compute. reflexivity.
  - left. reflexivity.
  - reflexivity.
  - exists w'. split; [exact Hs|]. split; [exact Hw | exact Hl].
Defined.

(** An instance of property X20: the directory cannot be made. *)
Lemma viewer_directory_failure_stops_the_script_witness :
  fst (run (InitDb.script no_viewer_host) empty_world) = 1%Z.
Proof.
  destruct (viewer_directory_failure_stops_the_script no_viewer_host empty_world myapp_db
              (started empty_world)
              (snd (InitDb.check_existing no_viewer_host myapp_db (started empty_world)))
              (CInt 3, CInt 4)
              (snd (InitDb.create_and_seed no_viewer_host myapp_db
                      (snd (InitDb.check_existing no_viewer_host myapp_db
                              (started empty_world))))))
    as (w3 & _ & _ & Hst & _).
  - vm_compute. reflexivity.
  - vm_compute. reflexivity.
  - vm_compute. reflexivity.
  - vm_compute. reflexivity.
  - reflexivity.
  - exact Hst.
Defined.



